(** * Wave2D: a leapfrog solver for the 2D wave equation on the unit square

    Shallow embedding of [Wave2D.py] (classes [Wave2D] and
    [Wave2D_Neumann]) and verification of its specification.

    Modelling conventions.
    - Python [int]s are [Z]; [float]/[float64] values are idealised as
      real numbers [R]: round-off is outside the model, every arithmetic
      expression is written in the order the source writes it.
    - A 2D numpy array is a list of rows, [list (list R)].
    - The solver instance ([self]) is a record of optional attributes;
      methods run in a state-and-exception monad over that record.
    - The sparse operator is a matrix with [Z] entries: every entry the
      source ever stores is one of the floats 1.0, -2.0, 2.0, -4.0, which
      are integers, so the operator stays computable; entries are injected
      into [R] when the operator is applied to a field.
    - A [sympy] expression in [x], [y], [t] is a number or a real function
      of the three symbols; products, [sin] and [cos] evaluate the way
      [sympy] does (a product with the factor 0 is the number 0, [sin] and
      [cos] of a number are numbers).  [lambdify] of a function returns
      the array of its values on the mesh, [lambdify] of a number returns
      that number, on which the array methods raise [AttributeError].
    - [sympy.pi] and [numpy.pi] are the real number [PI].  The binary64
      constant [np_pi] appears only where a statement is about the
      difference.
    - Arrays are values.  The source mutates an array in place only in
      [apply_bcs], on the array the step has just allocated, and stores
      copies in the snapshot dictionary, so no update is seen through
      another name.
    - The movie scripts ([neumann_movie.py], [report/neumann_movie.py],
      [Neumann_movie.py]) are embedded up to the point where they hand
      the frames and the colour range to [matplotlib]; drawing and
      writing the file are outside the model. *)

From Stdlib Require Import Reals Lra ZArith Lia FunctionalExtensionality.
From stdpp Require Import gmap list sorting.

(** ** Python exceptions and results *)

Inductive exn : Type :=
  | ZeroDivisionError
  | ValueError
  | IndexError
  | AttributeError
  | TypeError.

Inductive result (A : Type) : Type :=
  | Ok (a : A)
  | Raise (e : exn).
Arguments Ok {A} a.
Arguments Raise {A} e.

(** ** Sparse matrices, seen through their entries *)

Module Sparse.

Record matrix : Type := Mat {
  nrows : nat;
  ncols : nat;
  entry : nat -> nat -> Z
}.

(** [scipy.sparse.diags(diagonals, offsets, shape=(m, n))]: the k-th
    diagonal holds [A[i, i+k]]; a diagonal longer than needed is cut. *)
Definition diags (diagonals : list (list Z)) (offsets : list Z)
    (m n : nat) : matrix :=
  {| nrows := m; ncols := n;
     entry i j :=
       if (i <? m)%nat && (j <? n)%nat then
         foldr Z.add 0%Z
           (zip_with (fun d k =>
               if (Z.of_nat j - Z.of_nat i =? k)%Z
               then nth (Nat.min i j) d 0%Z else 0%Z)
             diagonals offsets)
       else 0%Z |}.

(** [scipy.sparse.eye(n)] *)
Definition eye (n : nat) : matrix :=
  {| nrows := n; ncols := n;
     entry i j := if (i <? n)%nat && (i =? j)%nat then 1%Z else 0%Z |}.

(** [scipy.sparse.kron(A, B)] *)
Definition kron (A B : matrix) : matrix :=
  {| nrows := nrows A * nrows B; ncols := ncols A * ncols B;
     entry i j :=
       (entry A (i / nrows B) (j / ncols B)
        * entry B (i mod nrows B) (j mod ncols B))%Z |}.

(** [A + B] for matrices of one shape *)
Definition add (A B : matrix) : matrix :=
  {| nrows := nrows A; ncols := ncols A;
     entry i j := (entry A i j + entry B i j)%Z |}.

(** Python index normalisation along an axis of length [n] *)
Definition index (n : nat) (i : Z) : result nat :=
  let i' := if (i <? 0)%Z then (i + Z.of_nat n)%Z else i in
  if (0 <=? i')%Z && (i' <? Z.of_nat n)%Z then Ok (Z.to_nat i')
  else Raise IndexError.

(** [A[i, j] = v] on a [lil] matrix *)
Definition setitem (A : matrix) (i j : Z) (v : Z) : result matrix :=
  match index (nrows A) i, index (ncols A) j with
  | Ok i', Ok j' =>
      Ok {| nrows := nrows A; ncols := ncols A;
            entry a b := if (a =? i')%nat && (b =? j')%nat then v
                         else entry A a b |}
  | Raise e, _ => Raise e
  | _, Raise e => Raise e
  end.

(** The dense rows, for display and evaluation *)
Definition to_lists (A : matrix) : list (list Z) :=
  fmap (fun i => fmap (entry A i) (seq 0 (ncols A))) (seq 0 (nrows A)).

Definition symmetric (A : matrix) : Prop :=
  forall i j, (i < nrows A)%nat -> (j < ncols A)%nat ->
    entry A i j = entry A j i.

(** Number of nonzero entries of row [i] *)
Definition nnz_row (A : matrix) (i : nat) : nat :=
  length (filter (fun j => entry A i j <> 0%Z) (seq 0 (ncols A))).

End Sparse.

Import Sparse.

(** ** The two solver classes *)

Inductive boundary : Type :=
  | Dirichlet   (* class Wave2D *)
  | Neumann.    (* class Wave2D_Neumann(Wave2D) *)

(** [np.ones(n)] and [-2*np.ones(n)]; a negative length is rejected. *)
Definition ones (n : Z) : result (list Z) :=
  if (n <? 0)%Z then Raise ValueError else Ok (replicate (Z.to_nat n) 1%Z).

(** The tridiagonal matrix both [D2] methods start from.  For an empty
    shape [scipy] rejects the offsets -1 and 1 as out of bounds. *)
Definition Dx2_diags (N : Z) : result matrix :=
  match ones (N + 1) with
  | Raise e => Raise e
  | Ok o =>
      if (N + 1 =? 0)%Z then Raise ValueError
      else
        let n := Z.to_nat (N + 1) in
        Ok (diags [o; fmap (Z.mul (-2)) o; o] [-1; 0; 1]%Z n n)
  end.

Definition rbind {A B} (r : result A) (f : A -> result B) : result B :=
  match r with Ok a => f a | Raise e => Raise e end.

Definition D2 (b : boundary) (N : Z) : result matrix :=
  match b with
  | Dirichlet =>
      rbind (Dx2_diags N) (fun Dx2 =>
      let I := eye (Z.to_nat (N + 1)) in
      Ok (add (kron I Dx2) (kron Dx2 I)))
  | Neumann =>
      rbind (Dx2_diags N) (fun Dx2 =>
      rbind (setitem Dx2 0 0 (-2)) (fun Dx2 =>
      rbind (setitem Dx2 0 1 2) (fun Dx2 =>
      rbind (setitem Dx2 (-1) (-1) (-2)) (fun Dx2 =>
      rbind (setitem Dx2 (-1) (-2) 2) (fun Dx2 =>
      let I := eye (Z.to_nat (N + 1)) in
      Ok (add (kron I Dx2) (kron Dx2 I)))))))
  end.

(** ** Arrays of floats *)

Abbreviation field := (list (list R)).

Section Arrays.
Local Open Scope R_scope.

(** Python float division: a zero divisor raises. *)
Definition pydiv (a b : R) : result R :=
  if Req_EM_T b 0 then Raise ZeroDivisionError else Ok (a / b).

(** [np.linspace(start, stop, num)] (endpoint included) *)
Definition linspace (start stop : R) (num : Z) : result (list R) :=
  if (num <? 0)%Z then Raise ValueError
  else
    let step := (stop - start) / IZR (num - 1) in
    Ok (fmap (fun i => INR i * step + start) (seq 0 (Z.to_nat num))).

(** [np.meshgrid(x, y, indexing="ij")] *)
Definition meshgrid_ij (x y : list R) : field * field :=
  (fmap (fun xi => fmap (fun _ => xi) y) x, fmap (fun _ => y) x).

(** What an array attribute can hold: a numpy array, or the plain Python
    number that [lambdify] returns for a constant expression *)
Inductive pyvalue : Type :=
  | Array (U : field)
  | Scalar (x : R).

(** A [sympy] expression in [x], [y], [t] after [sympy]'s automatic
    evaluation: a number, or an expression with free symbols, given by
    the function it denotes *)
Inductive expr : Type :=
  | Number (v : R)
  | Symbolic (e : R -> R -> R -> R).

Definition sym_x : expr := Symbolic (fun x _ _ => x).
Definition sym_y : expr := Symbolic (fun _ y _ => y).
Definition sym_t : expr := Symbolic (fun _ _ t => t).

(** [a * b]: numbers are multiplied, and a factor zero makes the product
    the number zero *)
Definition sym_mul (a b : expr) : expr :=
  match a, b with
  | Number u, Number v => Number (u * v)
  | Number u, Symbolic e =>
      if Req_EM_T u 0 then Number 0
      else Symbolic (fun x y t => u * e x y t)
  | Symbolic e, Number v =>
      if Req_EM_T v 0 then Number 0
      else Symbolic (fun x y t => e x y t * v)
  | Symbolic e, Symbolic f => Symbolic (fun x y t => e x y t * f x y t)
  end.

(** [sp.sin(a)] and [sp.cos(a)]: of a number, a number *)
Definition sym_sin (a : expr) : expr :=
  match a with
  | Number v => Number (sin v)
  | Symbolic e => Symbolic (fun x y t => sin (e x y t))
  end.

Definition sym_cos (a : expr) : expr :=
  match a with
  | Number v => Number (cos v)
  | Symbolic e => Symbolic (fun x y t => cos (e x y t))
  end.

(** The function an expression denotes *)
Definition eval (e : expr) : R -> R -> R -> R :=
  match e with
  | Number v => fun _ _ _ => v
  | Symbolic f => f
  end.

(** [lambdify((x, y, t), e, "numpy")(X, Y, t0)].  An expression with free
    symbols is evaluated at every mesh point (in the expressions of [ue]
    a symbol left means [x] or [y] is left, and broadcasting over the
    mesh arrays gives an array of their shape); a number is returned as
    the Python number it is. *)
Definition lambdify (e : expr) (X Y : field) (t0 : R) : pyvalue :=
  match e with
  | Number v => Scalar v
  | Symbolic f => Array (zip_with (zip_with (fun x y => f x y t0)) X Y)
  end.

Definition shape (U : field) : nat * nat :=
  (length U, match U with [] => 0%nat | r :: _ => length r end).

(** [U.reshape(-1)] *)
Definition flatten (U : field) : list R := concat U.

(** [v.reshape((r, c))] *)
Definition reshape (sh : nat * nat) (v : list R) : result field :=
  let '(r, c) := sh in
  if (length v =? r * c)%nat
  then Ok (fmap (fun i => take c (drop (i * c) v)) (seq 0 r))
  else Raise ValueError.

(** [D @ v] *)
Definition matvec (D : matrix) (v : list R) : result (list R) :=
  if (ncols D =? length v)%nat
  then Ok (fmap (fun i =>
             foldr Rplus 0 (imap (fun j vj => IZR (entry D i j) * vj) v))
           (seq 0 (nrows D)))
  else Raise ValueError.

(** Elementwise arithmetic *)
Definition fscale (a : R) (U : field) : field :=
  (fun r : list R => Rmult a <$> r) <$> U.
Definition fsub (U V : field) : field := zip_with (zip_with Rminus) U V.
Definition fadd (U V : field) : field := zip_with (zip_with Rplus) U V.
Definition fsquare (U : field) : field :=
  (fun r : list R => (fun u => u ^ 2) <$> r) <$> U.

(** [np.mean(U)] *)
Definition mean (U : field) : R :=
  foldr Rplus 0 (flatten U) / INR (length (flatten U)).

(** Arithmetic on values, with numpy's broadcasting of a number; two
    arrays meet with equal shapes only *)
Definition vscale (a : R) (v : pyvalue) : pyvalue :=
  match v with
  | Array U => Array (fscale a U)
  | Scalar x => Scalar (a * x)
  end.

Definition vsub (u v : pyvalue) : pyvalue :=
  match u, v with
  | Array U, Array V => Array (fsub U V)
  | Array U, Scalar y =>
      Array ((fun r : list R => (fun a => a - y) <$> r) <$> U)
  | Scalar x, Array V =>
      Array ((fun r : list R => (fun a => x - a) <$> r) <$> V)
  | Scalar x, Scalar y => Scalar (x - y)
  end.

Definition vadd (u v : pyvalue) : pyvalue :=
  match u, v with
  | Array U, Array V => Array (fadd U V)
  | Array U, Scalar y =>
      Array ((fun r : list R => (fun a => a + y) <$> r) <$> U)
  | Scalar x, Array V =>
      Array ((fun r : list R => (fun a => x + a) <$> r) <$> V)
  | Scalar x, Scalar y => Scalar (x + y)
  end.

Definition vsquare (v : pyvalue) : pyvalue :=
  match v with
  | Array U => Array (fsquare U)
  | Scalar x => Scalar (x ^ 2)
  end.

Definition vmean (v : pyvalue) : R :=
  match v with
  | Array U => mean U
  | Scalar x => x
  end.

(** [v.reshape(-1)], [v.shape] and [v.copy()]: a Python number has none
    of these attributes. *)
Definition flat (v : pyvalue) : result (list R) :=
  match v with
  | Array U => Ok (flatten U)
  | Scalar _ => Raise AttributeError
  end.

Definition shape_of (v : pyvalue) : result (nat * nat) :=
  match v with
  | Array U => Ok (shape U)
  | Scalar _ => Raise AttributeError
  end.

Definition copy (v : pyvalue) : result field :=
  match v with
  | Array U => Ok U
  | Scalar _ => Raise AttributeError
  end.

(** [U[i, :] = v] *)
Definition set_row (U : field) (i : Z) (v : R) : result field :=
  rbind (index (length U) i) (fun i' =>
  Ok (alter (fun r => replicate (length r) v) i' U)).

(** [U[:, j] = v] *)
Definition set_col (U : field) (j : Z) (v : R) : result field :=
  rbind (index (snd (shape U)) j) (fun j' =>
  Ok (fmap (fun r => <[j' := v]> r) U)).

End Arrays.

(** ** The solver instance and its methods *)

(** The attributes of [self]; [None] is an attribute not set yet. *)
Record Solver : Type := {
  self_cfl : option R;
  self_c : option R;
  self_dx : option R;
  self_dy : option R;
  self_xij : option field;
  self_yij : option field;
  self_mx : option Z;
  self_my : option Z;
  self_unm1 : option pyvalue;
  self_un : option pyvalue;
  self_unp1 : option pyvalue
}.

(** A new instance: neither class defines [__init__]. *)
Definition new : Solver :=
  {| self_cfl := None; self_c := None; self_dx := None; self_dy := None;
     self_xij := None; self_yij := None; self_mx := None; self_my := None;
     self_unm1 := None; self_un := None; self_unp1 := None |}.

Definition M (A : Type) : Type := Solver -> result A * Solver.

Definition ret {A} (a : A) : M A := fun s => (Ok a, s).

Definition bind {A B} (m : M A) (f : A -> M B) : M B :=
  fun s =>
    match m s with
    | (Ok a, s') => f a s'
    | (Raise e, s') => (Raise e, s')
    end.

Definition lift {A} (r : result A) : M A := fun s => (r, s).

Definition getattr {A} (proj : Solver -> option A) : M A :=
  fun s =>
    match proj s with
    | Some a => (Ok a, s)
    | None => (Raise AttributeError, s)
    end.

Declare Scope py_scope.
Delimit Scope py_scope with py.
Notation "x <~ m ; k" := (bind m (fun x => k))
  (at level 100, m at next level, right associativity) : py_scope.
Notation "m ;; k" := (bind m (fun _ => k))
  (at level 100, right associativity) : py_scope.

Definition set_cfl (v : R) : M unit := fun s =>
  (Ok tt,
   {| self_cfl := Some v; self_c := self_c s; self_dx := self_dx s;
      self_dy := self_dy s; self_xij := self_xij s; self_yij := self_yij s;
      self_mx := self_mx s; self_my := self_my s; self_unm1 := self_unm1 s;
      self_un := self_un s; self_unp1 := self_unp1 s |}).
Definition set_c (v : R) : M unit := fun s =>
  (Ok tt,
   {| self_cfl := self_cfl s; self_c := Some v; self_dx := self_dx s;
      self_dy := self_dy s; self_xij := self_xij s; self_yij := self_yij s;
      self_mx := self_mx s; self_my := self_my s; self_unm1 := self_unm1 s;
      self_un := self_un s; self_unp1 := self_unp1 s |}).
Definition set_dx (v : R) : M unit := fun s =>
  (Ok tt,
   {| self_cfl := self_cfl s; self_c := self_c s; self_dx := Some v;
      self_dy := self_dy s; self_xij := self_xij s; self_yij := self_yij s;
      self_mx := self_mx s; self_my := self_my s; self_unm1 := self_unm1 s;
      self_un := self_un s; self_unp1 := self_unp1 s |}).
Definition set_dy (v : R) : M unit := fun s =>
  (Ok tt,
   {| self_cfl := self_cfl s; self_c := self_c s; self_dx := self_dx s;
      self_dy := Some v; self_xij := self_xij s; self_yij := self_yij s;
      self_mx := self_mx s; self_my := self_my s; self_unm1 := self_unm1 s;
      self_un := self_un s; self_unp1 := self_unp1 s |}).
Definition set_xij (v : field) : M unit := fun s =>
  (Ok tt,
   {| self_cfl := self_cfl s; self_c := self_c s; self_dx := self_dx s;
      self_dy := self_dy s; self_xij := Some v; self_yij := self_yij s;
      self_mx := self_mx s; self_my := self_my s; self_unm1 := self_unm1 s;
      self_un := self_un s; self_unp1 := self_unp1 s |}).
Definition set_yij (v : field) : M unit := fun s =>
  (Ok tt,
   {| self_cfl := self_cfl s; self_c := self_c s; self_dx := self_dx s;
      self_dy := self_dy s; self_xij := self_xij s; self_yij := Some v;
      self_mx := self_mx s; self_my := self_my s; self_unm1 := self_unm1 s;
      self_un := self_un s; self_unp1 := self_unp1 s |}).
Definition set_mx (v : Z) : M unit := fun s =>
  (Ok tt,
   {| self_cfl := self_cfl s; self_c := self_c s; self_dx := self_dx s;
      self_dy := self_dy s; self_xij := self_xij s; self_yij := self_yij s;
      self_mx := Some v; self_my := self_my s; self_unm1 := self_unm1 s;
      self_un := self_un s; self_unp1 := self_unp1 s |}).
Definition set_my (v : Z) : M unit := fun s =>
  (Ok tt,
   {| self_cfl := self_cfl s; self_c := self_c s; self_dx := self_dx s;
      self_dy := self_dy s; self_xij := self_xij s; self_yij := self_yij s;
      self_mx := self_mx s; self_my := Some v; self_unm1 := self_unm1 s;
      self_un := self_un s; self_unp1 := self_unp1 s |}).
Definition set_unm1 (v : pyvalue) : M unit := fun s =>
  (Ok tt,
   {| self_cfl := self_cfl s; self_c := self_c s; self_dx := self_dx s;
      self_dy := self_dy s; self_xij := self_xij s; self_yij := self_yij s;
      self_mx := self_mx s; self_my := self_my s; self_unm1 := Some v;
      self_un := self_un s; self_unp1 := self_unp1 s |}).
Definition set_un (v : pyvalue) : M unit := fun s =>
  (Ok tt,
   {| self_cfl := self_cfl s; self_c := self_c s; self_dx := self_dx s;
      self_dy := self_dy s; self_xij := self_xij s; self_yij := self_yij s;
      self_mx := self_mx s; self_my := self_my s; self_unm1 := self_unm1 s;
      self_un := Some v; self_unp1 := self_unp1 s |}).
Definition set_unp1 (v : pyvalue) : M unit := fun s =>
  (Ok tt,
   {| self_cfl := self_cfl s; self_c := self_c s; self_dx := self_dx s;
      self_dy := self_dy s; self_xij := self_xij s; self_yij := self_yij s;
      self_mx := self_mx s; self_my := self_my s; self_unm1 := self_unm1 s;
      self_un := self_un s; self_unp1 := Some v |}).

(** Python [a % b] on integers: a zero divisor raises. *)
Definition pymod (a b : Z) : result Z :=
  if (b =? 0)%Z then Raise ZeroDivisionError else Ok (a mod b)%Z.

(** A [for] loop threading the loop-carried variables *)
Fixpoint for_each {A X} (xs : list X) (body : X -> A -> M A) (a : A) : M A :=
  match xs with
  | [] => ret a
  | x :: xs' => (a' <~ body x a; for_each xs' body a')%py
  end.

(** [range(a, b)] *)
Definition range (a b : Z) : list Z := seqZ a (b - a).

(** What [__call__] returns: the snapshot dictionary, or the pair
    [(h, np.array(errs))] where [errs] is [None] when no error list exists. *)
Inductive output : Type :=
  | Data (data : gmap Z field)
  | Pair (h : R) (errs : option (list R)).

Section Wave2D.
Local Open Scope R_scope.
Local Open Scope py_scope.

Variable b : boundary.

Definition create_mesh (N : Z) : M unit :=
  x <~ lift (linspace 0 1 (N + 1));
  y <~ lift (linspace 0 1 (N + 1));
  dx <~ lift (pydiv 1 (IZR N));
  set_dx dx;;
  dy <~ lift (pydiv 1 (IZR N));
  set_dy dy;;
  let '(X, Y) := meshgrid_ij x y in
  set_xij X;;
  set_yij Y.

(** Property [w]: the dispersion coefficient *)
Definition w : M R :=
  c <~ getattr self_c;
  mx <~ getattr self_mx;
  my <~ getattr self_my;
  ret (c * PI * sqrt (IZR (mx ^ 2 + my ^ 2))).

(** The exact standing wave, as a [sympy] expression in [x], [y], [t] *)
Definition ue (mx my : Z) : M expr :=
  wv <~ w;
  let ax := sym_mul (sym_mul (Number (IZR mx)) (Number PI)) sym_x in
  let ay := sym_mul (sym_mul (Number (IZR my)) (Number PI)) sym_y in
  let at_ := sym_mul (Number wv) sym_t in
  ret (match b with
       | Dirichlet =>
           sym_mul (sym_mul (sym_sin ax) (sym_sin ay)) (sym_cos at_)
       | Neumann =>
           sym_mul (sym_mul (sym_cos ax) (sym_cos ay)) (sym_cos at_)
       end).

(** Property [dt]: the time step *)
Definition dt : M R :=
  cfl <~ getattr self_cfl;
  dx <~ getattr self_dx;
  dy <~ getattr self_dy;
  c <~ getattr self_c;
  lift (pydiv (cfl * Rmin dx dy) c).

Definition initialize (N mx my : Z) : M (pyvalue * pyvalue) :=
  create_mesh N;;
  set_mx mx;;
  set_my my;;
  ue_fun <~ ue mx my;
  X <~ getattr self_xij;
  Y <~ getattr self_yij;
  d <~ dt;
  set_unm1 (lambdify ue_fun X Y (- d));;
  X <~ getattr self_xij;
  Y <~ getattr self_yij;
  set_un (lambdify ue_fun X Y 0);;
  un <~ getattr self_un;
  unm1 <~ getattr self_unm1;
  ret (un, unm1).

Definition l2_error (u : pyvalue) (t0 : R) : M R :=
  mx <~ getattr self_mx;
  my <~ getattr self_my;
  ue_fun <~ ue mx my;
  X <~ getattr self_xij;
  Y <~ getattr self_yij;
  let ue_vals := lambdify ue_fun X Y t0 in
  ret (sqrt (vmean (vsquare (vsub u ue_vals)))).

(** [self.unp1[...] = 0]: an assignment into the array held by
    [self.unp1].  The array is the one the step has just allocated, so
    no other name refers to it and updating the attribute is enough.  A
    Python number supports no item assignment. *)
Definition assign_unp1 (f : field -> result field) : M unit :=
  u <~ getattr self_unp1;
  match u with
  | Array U => U' <~ lift (f U); set_unp1 (Array U')
  | Scalar _ => lift (Raise TypeError)
  end.

(** [apply_bcs]; the Neumann class overrides it with an empty body. *)
Definition apply_bcs : M unit :=
  match b with
  | Dirichlet =>
      assign_unp1 (fun u => set_row u 0 0);;
      assign_unp1 (fun u => set_row u (-1) 0);;
      assign_unp1 (fun u => set_col u 0 0);;
      assign_unp1 (fun u => set_col u (-1) 0)
  | Neumann => ret tt
  end.

(** One pass through the body of the time loop of [__call__] *)
Definition time_step (D : matrix) (C : R) (store_data : Z) (n : Z)
    (acc : option (gmap Z field) * option (list R))
    : M (option (gmap Z field) * option (list R)) :=
  let '(data, errs) := acc in
  un <~ getattr self_un;
  un_flat <~ lift (flat un);
  Dun <~ lift (matvec D un_flat);
  un <~ getattr self_un;
  sh <~ lift (shape_of un);
  lap_un <~ lift (reshape sh Dun);
  un <~ getattr self_un;
  unm1 <~ getattr self_unm1;
  set_unp1 (vadd (vsub (vscale 2 un) unm1) (vscale (C ^ 2) (Array lap_un)));;
  apply_bcs;;
  un <~ getattr self_un;
  unp1 <~ getattr self_unp1;
  set_unm1 un;;
  set_un unp1;;
  data <~ match data with
          | Some d =>
              k <~ lift (pymod n store_data);
              if (k =? 0)%Z
              then un <~ getattr self_un;
                   U <~ lift (copy un);
                   ret (Some (<[n := U]> d))
              else ret (Some d)
          | None => ret None
          end;
  errs <~ match errs with
          | Some es =>
              un <~ getattr self_un;
              d <~ dt;
              e <~ l2_error un (IZR n * d);
              ret (Some (es ++ [e]))
          | None => ret None
          end;
  ret (data, errs).

(** [__call__(N, Nt, cfl=0.5, c=1.0, mx=3, my=3, store_data=-1)] *)
Definition call (N Nt : Z) (cfl c : R) (mx my store_data : Z) : M output :=
  set_cfl cfl;;
  set_c c;;
  initialize N mx my;;
  D <~ lift (D2 b N);
  C <~ getattr self_cfl;
  let data : option (gmap Z field) :=
    if negb (store_data =? 0)%Z && (0 <? store_data)%Z
    then Some ∅ else None in
  let errs : option (list R) :=
    if (store_data =? -1)%Z then Some [] else None in
  data <~ match data with
          | Some d =>
              unm1 <~ getattr self_unm1;
              U <~ lift (copy unm1);
              ret (Some (<[0%Z := U]> d))
          | None => ret None
          end;
  acc <~ for_each (range 1 (Nt + 1))
           (time_step D C store_data) (data, errs);
  let '(data, errs) := acc in
  h <~ getattr self_dx;
  match data with
  | Some d => ret (Data d)
  | None => ret (Pair h errs)
  end.

(** [x[i]] on a Python list or a 1D array *)
Definition getitem (xs : list R) (i : Z) : result R :=
  rbind (index (length xs) i) (fun i' =>
  match xs !! i' with Some x => Ok x | None => Raise IndexError end).

(** [dx, err = out]: unpacking the value [__call__] returned.  The call
    is made in error mode, so [out] is never the dictionary. *)
Definition unpack (out : output) : result (R * option (list R)) :=
  match out with
  | Pair h errs => Ok (h, errs)
  | Data _ => Raise ValueError
  end.

(** [err[-1]]; [err] is [np.array(errs)], without entries when [errs] is
    [None] *)
Definition last_entry (err : option (list R)) : result R :=
  match err with
  | Some es => getitem es (-1)
  | None => Raise IndexError
  end.

(** The loop-carried variables of [convergence_rates]: the lists [E] and
    [h], and the locals [N0], [Nt] and [m] (the loop rebinds [m]). *)
Record levels : Type := {
  lv_E : list R;
  lv_h : list R;
  lv_N0 : Z;
  lv_Nt : Z;
  lv_m : Z
}.

Definition level_step (cfl : R) (mx my : Z) (m : Z) (v : levels) : M levels :=
  out <~ call (lv_N0 v) (lv_Nt v) cfl 1 mx my (-1);
  p <~ lift (unpack out);
  let '(dx, err) := p in
  e <~ lift (last_entry err);
  ret {| lv_E := lv_E v ++ [e]; lv_h := lv_h v ++ [dx];
         lv_N0 := lv_N0 v * 2; lv_Nt := lv_Nt v * 2; lv_m := m |}.

(** One element of the list comprehension computing the orders *)
Definition order (E h : list R) (i : Z) : result R :=
  rbind (getitem E (i - 1)) (fun Ea =>
  rbind (getitem E i) (fun Eb =>
  rbind (getitem h (i - 1)) (fun ha =>
  rbind (getitem h i) (fun hb =>
  rbind (pydiv ha hb) (fun q =>
  Ok (ln (Ea / Eb) / ln q)))))).

Fixpoint comprehension {A X} (f : X -> result A) (xs : list X)
    : result (list A) :=
  match xs with
  | [] => Ok []
  | x :: xs' =>
      rbind (f x) (fun a =>
      rbind (comprehension f xs') (fun l => Ok (a :: l)))
  end.

(** [convergence_rates(m=4, cfl=0.1, Nt=10, mx=3, my=3)] *)
Definition convergence_rates (m : Z) (cfl : R) (Nt mx my : Z)
    : M (list R * list R * list R) :=
  v <~ for_each (range 0 m) (level_step cfl mx my)
         {| lv_E := []; lv_h := []; lv_N0 := 8; lv_Nt := Nt; lv_m := m |};
  r <~ lift (comprehension (order (lv_E v) (lv_h v))
               (range 1 (lv_m v + 1)));
  ret (r, lv_E v, lv_h v).

End Wave2D.

(** ** Vocabulary of the statements *)

(** Entries of the 1D operator of each class, on an axis of [n] points *)
Definition stencil (b : boundary) (n i j : nat) : Z :=
  match b with
  | Dirichlet =>
      if (i <? n)%nat && (j <? n)%nat then
        if (i =? j)%nat then (-2)%Z
        else if (i =? j + 1)%nat || (j =? i + 1)%nat then 1%Z else 0%Z
      else 0%Z
  | Neumann =>
      if (i <? n)%nat && (j <? n)%nat then
        if (i =? j)%nat then (-2)%Z
        else if (i =? 0)%nat && (j =? 1)%nat then 2%Z
        else if (i =? n - 1)%nat && (j + 2 =? n)%nat then 2%Z
        else if (i =? j + 1)%nat || (j =? i + 1)%nat then 1%Z else 0%Z
      else 0%Z
  end.

Definition delta (n i j : nat) : Z :=
  if (i <? n)%nat && (i =? j)%nat then 1%Z else 0%Z.

(** The grid point of row [r] lies on an edge of the grid. *)
Definition boundary_row (n r : nat) : Prop :=
  (r / n = 0 \/ r / n = n - 1 \/ r mod n = 0 \/ r mod n = n - 1)%nat.

(** The columns a row of the 2D operator can touch: the grid point
    itself and its neighbours inside the grid. *)
Definition neighbours (n r : nat) : list nat :=
  [r] ++ (if (r mod n =? 0)%nat then [] else [(r - 1)%nat])
      ++ (if (r mod n =? n - 1)%nat then [] else [(r + 1)%nat])
      ++ (if (r / n =? 0)%nat then [] else [(r - n)%nat])
      ++ (if (r / n =? n - 1)%nat then [] else [(r + n)%nat]).

Section Vocabulary.
Local Open Scope R_scope.

(** The angular frequency of the standing wave *)
Definition omega (c : R) (mx my : Z) : R :=
  c * PI * sqrt (IZR (mx ^ 2 + my ^ 2)).

(** The exact standing wave of each class *)
Definition standing_wave (b : boundary) (c : R) (mx my : Z)
    : R -> R -> R -> R :=
  match b with
  | Dirichlet => fun x y t =>
      sin (IZR mx * PI * x) * sin (IZR my * PI * y)
      * cos (omega c mx my * t)
  | Neumann => fun x y t =>
      cos (IZR mx * PI * x) * cos (IZR my * PI * y)
      * cos (omega c mx my * t)
  end.

(** The mesh points along one axis, as [create_mesh] computes them *)
Definition grid (N : Z) : list R :=
  (fun i => INR i * ((1 - 0) / IZR (N + 1 - 1)) + 0)
    <$> seq 0 (Z.to_nat (N + 1)).

(** The exact standing wave on the mesh at time [t] *)
Definition exact_field (b : boundary) (N : Z) (c : R) (mx my : Z) (t : R)
    : field :=
  zip_with (zip_with (fun x y => standing_wave b c mx my x y t))
    (fst (meshgrid_ij (grid N) (grid N)))
    (snd (meshgrid_ij (grid N) (grid N))).

(** The time step of a run *)
Definition step_size (cfl c : R) (N : Z) : R :=
  cfl * Rmin (1 / IZR N) (1 / IZR N) / c.

(** Root-mean-square difference of two fields *)
Definition rms_diff (U V : field) : R :=
  sqrt (mean (fsquare (fsub U V))).

(** The value of a field at grid point [(i, j)] *)
Definition at_point (U : field) (i j : nat) : option R :=
  U !! i ≫= fun r => r !! j.

(** What a value contributes at grid point [(i, j)] in arithmetic with
    a mesh-shaped array: [numpy] broadcasts a number to every point. *)
Definition broadcast_at (v : pyvalue) (i j : nat) : option R :=
  match v with
  | Array U => at_point U i j
  | Scalar x => Some x
  end.



(** A square array with [n] points per axis *)
Definition square_shape (n : nat) (U : field) : Prop :=
  length U = n /\ Forall (fun r => length r = n) U.

(** Grid point [(i, j)] lies on one of the four edges. *)
Definition on_edge (n i j : nat) : bool :=
  (i =? 0)%nat || (i =? n - 1)%nat || (j =? 0)%nat || (j =? n - 1)%nat.

(** The field with its four edges set to zero *)
Definition zero_edges (U : field) : field :=
  imap (fun i r =>
          imap (fun j u => if on_edge (length U) i j then 0 else u) r) U.

(** Boundary enforcement of each class *)
Definition enforce (b : boundary) (U : field) : field :=
  match b with
  | Dirichlet => zero_edges U
  | Neumann => U
  end.

(** The discrete Laplacian applied to a field *)
Definition laplacian (D : matrix) (U : field) : result field :=
  rbind (matvec D (flatten U)) (reshape (shape U)).

(** One step of the leapfrog recurrence on the pair (previous, current) *)
Definition leapfrog (b : boundary) (D : matrix) (C : R)
    (p : field * field) : result (field * field) :=
  let '(Uprev, Ucurr) := p in
  rbind (laplacian D Ucurr) (fun L =>
  let Unext := fadd (fsub (fscale 2 Ucurr) Uprev) (fscale (C ^ 2) L) in
  Ok (Ucurr, enforce b Unext)).

(** The pairs (previous, current) a run goes through, step by step *)
Fixpoint trajectory (b : boundary) (D : matrix) (C : R)
    (p0 : field * field) (k : nat) : field * field :=
  match k with
  | O => p0
  | S k' =>
      match leapfrog b D C (trajectory b D C p0 k') with
      | Ok p => p
      | Raise _ => trajectory b D C p0 k'
      end
  end.

(** The instance while a run is stepping: the run parameters and mesh
    are fixed, and the three field attributes move. *)
Definition run_state (cfl c : R) (N mx my : Z) (Uprev Ucurr : field)
    (Unext : option pyvalue) : Solver :=
  {| self_cfl := Some cfl; self_c := Some c;
     self_dx := Some (1 / IZR N); self_dy := Some (1 / IZR N);
     self_xij := Some (fst (meshgrid_ij (grid N) (grid N)));
     self_yij := Some (snd (meshgrid_ij (grid N) (grid N)));
     self_mx := Some mx; self_my := Some my;
     self_unm1 := Some (Array Uprev); self_un := Some (Array Ucurr);
     self_unp1 := Unext |}.

(** A row of zeros as long as [r] *)
Definition zero_row (r : list R) : list R := replicate (length r) 0.

(** The four assignments of [Wave2D.apply_bcs], as one array function *)
Definition assign_edges (U : field) : result field :=
  rbind (set_row U 0 0) (fun U =>
  rbind (set_row U (-1) 0) (fun U =>
  rbind (set_col U 0 0) (fun U =>
  set_col U (-1) 0))).

End Vocabulary.

(** ** Summaries of the loops *)

(** What one pass of the time loop adds to the snapshot dictionary and to
    the error list, given the field [Un] it has just computed *)
Definition record_data (store_data n : Z) (Un : field)
    (data : option (gmap Z field)) : option (gmap Z field) :=
  match data with
  | Some d => Some (if (n mod store_data =? 0)%Z then <[n := Un]> d else d)
  | None => None
  end.

Definition record_error (b : boundary) (N : Z) (cfl c : R) (mx my : Z)
    (n : Z) (Un : field) (errs : option (list R)) : option (list R) :=
  match errs with
  | Some es =>
      Some (es ++ [rms_diff Un
                     (exact_field b N c mx my
                        (IZR n * step_size cfl c N)%R)])
  | None => None
  end.

(** The snapshot dictionary after the passes [j+1 .. j+len] of the time
    loop, and the errors these passes append, for a sequence [T] of
    (previous, current) pairs indexed by time step *)
Definition snapshot_pass (store_data : Z) (T : nat -> field * field)
    (d : gmap Z field) (m : nat) : gmap Z field :=
  if (Z.of_nat m mod store_data =? 0)%Z
  then <[Z.of_nat m := snd (T m)]> d else d.

Definition error_at (b : boundary) (N : Z) (cfl c : R) (mx my : Z)
    (T : nat -> field * field) (m : nat) : R :=
  rms_diff (snd (T m))
    (exact_field b N c mx my (IZR (Z.of_nat m) * step_size cfl c N)%R).

(** What a call returns, for a run that goes through the pairs [T] *)
Definition call_output (b : boundary) (N : Z) (cfl c : R) (mx my : Z)
    (T : nat -> field * field) (Nt store_data : Z) : output :=
  if (0 <? store_data)%Z
  then Data (foldl (snapshot_pass store_data T)
               {[0%Z := exact_field b N c mx my (- step_size cfl c N)%R]}
               (seq 1 (Z.to_nat Nt)))
  else Pair (1 / IZR N)%R
         (if (store_data =? -1)%Z
          then Some (error_at b N cfl c mx my T <$> seq 1 (Z.to_nat Nt))
          else None).

(** The last entry of the error sequence a call in error mode returns *)
Definition final_error (b : boundary) (N Nt : Z) (cfl c : R) (mx my : Z) : R :=
  match fst (call b N Nt cfl c mx my (-1) new) with
  | Ok (Pair _ (Some errs)) => default 0%R (last errs)
  | _ => 0%R
  end.

(** The error, the spacing and the order recorded for refinement level [i] *)
Definition level_E (b : boundary) (cfl : R) (Nt mx my : Z) (i : nat) : R :=
  final_error b (8 * 2 ^ Z.of_nat i) (Nt * 2 ^ Z.of_nat i) cfl 1 mx my.

Definition level_h (i : nat) : R := (1 / IZR (8 * 2 ^ Z.of_nat i))%R.

Definition level_r (b : boundary) (cfl : R) (Nt mx my : Z) (i : nat) : R :=
  (ln (level_E b cfl Nt mx my (i - 1) / level_E b cfl Nt mx my i)
   / ln (level_h (i - 1) / level_h i))%R.

(** ** Vocabulary of the further properties *)

(** The value of a field at a grid point, zero where there is none *)
Definition value (U : field) (i j : nat) : R :=
  default 0%R (at_point U i j).

(** The sum of a list of reals *)
Definition total (xs : list R) : R := foldr Rplus 0%R xs.

(** The second difference of [v] at index [j] of an axis of [n] points,
    as the 1D operator of each class takes it: the Dirichlet operator
    counts a neighbour outside the axis as zero, the Neumann operator
    replaces it by the neighbour inside (index 1 at the left end, index
    n - 2 at the right end). *)
Definition second_difference (b : boundary) (n : nat) (v : nat -> R)
    (j : nat) : R :=
  match b with
  | Dirichlet =>
      ((if (j =? 0)%nat then 0 else v (j - 1)%nat)
       + (if (j =? n - 1)%nat then 0 else v (j + 1)%nat) - 2 * v j)%R
  | Neumann =>
      ((if (j =? 0)%nat then v 1%nat else v (j - 1)%nat)
       + (if (j =? n - 1)%nat then v (n - 2)%nat else v (j + 1)%nat)
       - 2 * v j)%R
  end.

(** The five-point formula at grid point [(i, j)] *)
Definition five_point (b : boundary) (n : nat) (U : field) (i j : nat) : R :=
  (second_difference b n (fun i' => value U i' j) i
   + second_difference b n (fun j' => value U i j') j)%R.

(** Mode numbers for which the exact solution, as a [sympy] expression,
    is not a number: it depends on [x] or [y], and [lambdify] returns
    mesh-shaped arrays *)
Definition symbolic (b : boundary) (mx my : Z) : Prop :=
  match b with
  | Dirichlet => mx <> 0%Z /\ my <> 0%Z
  | Neumann => mx <> 0%Z \/ my <> 0%Z
  end.

(** The exact standing wave at grid point [(i, j)] and time [t] *)
Definition wave_at (b : boundary) (N : Z) (c : R) (mx my : Z) (t : R)
    (i j : nat) : R :=
  standing_wave b c mx my (INR i / IZR N) (INR j / IZR N) t.

(** The factor by which one step multiplies the current amplitude of the
    mode [(mx, my)], for Courant number [C] *)
Definition step_gain (N : Z) (C : R) (mx my : Z) : R :=
  (2 + C ^ 2 * (2 * cos (IZR mx * PI / IZR N)
                + 2 * cos (IZR my * PI / IZR N) - 4))%R.

(** The pairs (previous, current) of the three-term recurrence
    [a' = gain * a - a_prev] *)
Fixpoint amplitudes (gain : R) (p0 : R * R) (k : nat) : R * R :=
  match k with
  | O => p0
  | S k' =>
      let p := amplitudes gain p0 k' in
      (snd p, (gain * snd p - fst p)%R)
  end.

(** ** The movie scripts *)

(** What a script can end with, besides a result: an exception raised by
    the solver or by [numpy], the [RuntimeError] of its own guard, or a
    [KeyError] of a dictionary lookup *)
Inductive script_exn : Type :=
  | Uncaught (e : exn)
  | RuntimeError
  | KeyError.

(** What [main] holds when it starts drawing: the stored steps in
    ascending order, one frame per step, and the colour range *)
Record movie : Type := {
  mv_steps : list Z;
  mv_frames : list field;
  mv_vmin : R;
  mv_vmax : R
}.

(** [round(x)] on a float: the nearest integer, a tie going to the even
    one *)
Definition py_round (x : R) : Z :=
  let n := Zfloor x in
  if Rlt_dec (x - IZR n) (1 / 2) then n
  else if Rlt_dec (1 / 2) (x - IZR n) then (n + 1)%Z
  else if Z.even n then n else (n + 1)%Z.

(** [choose_params(mx, my, c, periods_to_show, target_frames)] of
    [Neumann_movie.py]; [periods_to_show] may be an [int] or a [float],
    an [int] being the real number it is. *)
Definition choose_params (mx my : Z) (c : R) (periods_to_show : R)
    (target_frames : Z) : result (Z * Z * R * Z) :=
  let M := Z.max mx my in
  let R := sqrt (IZR (mx * mx + my * my)) in
  let N := Z.max 32 (8 * M) in
  let cfl := (1 / 2)%R in
  rbind (pydiv (IZR (4 * N)) R) (fun q =>
  let steps_per_period := Z.max 1 (py_round q) in
  let Nt := Z.max steps_per_period
              (py_round (periods_to_show * IZR steps_per_period)) in
  rbind (pydiv (IZR Nt) (IZR target_frames)) (fun q' =>
  let store_every := Z.max 1 (py_round q') in
  Ok (N, Nt, cfl, store_every))).

(** [sorted(data.keys())] *)
Definition sorted_keys (data : gmap Z field) : list Z :=
  merge_sort Z.le (map_to_list data).*1.

(** [[data[k] for k in steps]] *)
Fixpoint frames_of (data : gmap Z field) (steps : list Z)
    : script_exn + list field :=
  match steps with
  | [] => inr []
  | k :: steps' =>
      match data !! k with
      | None => inl KeyError
      | Some U =>
          match frames_of data steps' with
          | inl e => inl e
          | inr fs => inr (U :: fs)
          end
      end
  end.

(** [abs(U).max()]; the maximum of an empty array raises. *)
Definition abs_max (U : field) : result R :=
  match flatten U with
  | [] => Raise ValueError
  | x :: xs => Ok (foldl Rmax (Rabs x) (Rabs <$> xs))
  end.

(** [frames[i]] *)
Definition frame_at (frames : list field) (i : Z) : result field :=
  rbind (index (length frames) i) (fun i' =>
  match frames !! i' with Some U => Ok U | None => Raise IndexError end).

(** [main] of the three scripts, from the call of the solver to the
    colour range, as a function of the module constants *)
Definition movie_main (N Nt : Z) (cfl c : R) (mx my store_every : Z)
    : script_exn + movie :=
  match fst (call Neumann N Nt cfl c mx my store_every new) with
  | Raise e => inl (Uncaught e)
  | Ok (Pair _ _) => inl RuntimeError
  | Ok (Data data) =>
      if (size data =? 0)%nat then inl RuntimeError
      else
        let steps := sorted_keys data in
        match frames_of data steps with
        | inl e => inl e
        | inr frames =>
            match rbind (frame_at frames 0) abs_max with
            | Raise e => inl (Uncaught e)
            | Ok a0 =>
                match rbind (frame_at frames (-1)) abs_max with
                | Raise e => inl (Uncaught e)
                | Ok al =>
                    let vmax := Rmax a0 al in
                    inr {| mv_steps := steps; mv_frames := frames;
                           mv_vmin := (- vmax)%R; mv_vmax := vmax |}
                end
            end
        end
  end.

(** [neumann_movie.py] and [report/neumann_movie.py]: the constants are
    written in the module. *)
Definition neumann_movie_main : script_exn + movie :=
  movie_main 60 120 (1 / 2) 1 2 3 2.

(** [Neumann_movie.py]: the run parameters come from [choose_params]. *)
Definition Neumann_movie_main (mx my : Z) (c : R) (periods_to_show : R)
    (target_frames : Z) : script_exn + movie :=
  match choose_params mx my c periods_to_show target_frames with
  | Raise e => inl (Uncaught e)
  | Ok (N, Nt, cfl, store_every) => movie_main N Nt cfl c mx my store_every
  end.

(** * Verification *)

(** ** The differentiation matrix *)

Section Operator.

Lemma index_nonneg (n : nat) (i : Z) :
  (0 <= i < Z.of_nat n)%Z -> index n i = Ok (Z.to_nat i).
Proof.
  intros H. unfold index.
  destruct (Z.ltb_spec i 0); [lia|].
  destruct (Z.leb_spec 0 i); [|lia].
  destruct (Z.ltb_spec i (Z.of_nat n)); [|lia]. reflexivity.
Qed.

Lemma index_neg (n : nat) (i : Z) :
  (- Z.of_nat n <= i < 0)%Z -> index n i = Ok (Z.to_nat (i + Z.of_nat n)).
Proof.
  intros H. unfold index.
  destruct (Z.ltb_spec i 0); [|lia].
  destruct (Z.leb_spec 0 (i + Z.of_nat n)); [|lia].
  destruct (Z.ltb_spec (i + Z.of_nat n) (Z.of_nat n)); [|lia]. reflexivity.
Qed.

Lemma setitem_ok (A : matrix) (i j v : Z) (i' j' : nat) :
  index (nrows A) i = Ok i' -> index (ncols A) j = Ok j' ->
  setitem A i j v
  = Ok {| nrows := nrows A; ncols := ncols A;
          entry a b := if (a =? i')%nat && (b =? j')%nat then v
                       else entry A a b |}.
Proof. intros Hi Hj. unfold setitem. rewrite Hi, Hj. reflexivity. Qed.

Lemma nth_replicate_lt {A} (x d : A) (n k : nat) :
  (k < n)%nat -> nth k (replicate n x) d = x.
Proof.
  revert k. induction n as [|n IH]; intros [|k] Hk; simpl; try lia; auto.
  apply IH. lia.
Qed.

Lemma diags_entry (n i j : nat) :
  entry (diags [replicate n 1%Z; fmap (Z.mul (-2)) (replicate n 1%Z);
                replicate n 1%Z] [-1; 0; 1]%Z n n) i j
  = stencil Dirichlet n i j.
Proof.
  unfold diags, stencil; simpl.
  destruct (Nat.ltb_spec i n), (Nat.ltb_spec j n); simpl; try reflexivity.
  rewrite (fmap_replicate (Z.mul (-2)) n 1%Z).
  rewrite !nth_replicate_lt by lia.
  destruct (Z.eqb_spec (Z.of_nat j - Z.of_nat i) (-1)),
           (Z.eqb_spec (Z.of_nat j - Z.of_nat i) 0),
           (Z.eqb_spec (Z.of_nat j - Z.of_nat i) 1),
           (Nat.eqb_spec i j), (Nat.eqb_spec i (j + 1)),
           (Nat.eqb_spec j (i + 1)); simpl; lia.
Qed.

Ltac split_eqb :=
  repeat match goal with
    | |- context [(?a =? ?b)%nat] =>
        destruct (Nat.eqb_spec a b); try (exfalso; lia); simpl
    | |- context [(?a <? ?b)%nat] =>
        destruct (Nat.ltb_spec a b); try (exfalso; lia); simpl
    end.

(** The four [lil] assignments turn the Dirichlet stencil into the
    Neumann one. *)
Lemma setitems_stencil (n i j : nat) :
  (2 <= n)%nat ->
  (if (i =? n - 1)%nat && (j =? n - 2)%nat then 2
   else if (i =? n - 1)%nat && (j =? n - 1)%nat then -2
   else if (i =? 0)%nat && (j =? 1)%nat then 2
   else if (i =? 0)%nat && (j =? 0)%nat then -2
   else stencil Dirichlet n i j)%Z
  = stencil Neumann n i j.
Proof.
  intros Hn. unfold stencil. split_eqb; reflexivity.
Qed.

Lemma Dx2_diags_ok (N : Z) :
  (0 <= N)%Z ->
  exists Dx2, Dx2_diags N = Ok Dx2
    /\ nrows Dx2 = Z.to_nat (N + 1) /\ ncols Dx2 = Z.to_nat (N + 1)
    /\ forall i j, entry Dx2 i j = stencil Dirichlet (Z.to_nat (N + 1)) i j.
Proof.
  intros HN. unfold Dx2_diags, ones.
  destruct (Z.ltb_spec (N + 1) 0); [lia|].
  destruct (Z.eqb_spec (N + 1) 0); [lia|].
  eexists; split; [reflexivity|]. split; [reflexivity|].
  split; [reflexivity|]. intros i j. apply diags_entry.
Qed.

(** The matrix [D2] returns, entry by entry: the Kronecker sum of the
    1D operator of the class with itself. *)
Lemma D2_ok (b : boundary) (N : Z) :
  (1 <= N)%Z ->
  exists D, D2 b N = Ok D
    /\ nrows D = (Z.to_nat (N + 1) * Z.to_nat (N + 1))%nat
    /\ ncols D = (Z.to_nat (N + 1) * Z.to_nat (N + 1))%nat
    /\ forall r s,
         let n := Z.to_nat (N + 1) in
         entry D r s =
           (delta n (r / n) (s / n) * stencil b n (r mod n) (s mod n)
            + stencil b n (r / n) (s / n) * delta n (r mod n) (s mod n))%Z.
Proof.
  intros HN.
  destruct (Dx2_diags_ok N) as (Dx2 & HD & Hr & Hc & He); [lia|].
  destruct b; unfold D2; rewrite HD; simpl.
  - eexists; split; [reflexivity|]. simpl. rewrite Hr, Hc.
    repeat split; try reflexivity.
    intros r s. simpl. rewrite !He. reflexivity.
  - destruct Dx2 as [nr nc e]; simpl in Hr, Hc, He; subst nr nc.
    set (n := Z.to_nat (N + 1)) in *.
    assert (Hn : (2 <= n)%nat) by (unfold n; lia).
    rewrite (setitem_ok _ _ _ _ 0%nat 0%nat)
      by (apply (index_nonneg _ 0); simpl; lia).
    simpl.
    rewrite (setitem_ok _ _ _ _ 0%nat 1%nat)
      by (first [apply (index_nonneg _ 0) | apply (index_nonneg _ 1)];
          simpl; lia).
    simpl.
    rewrite (setitem_ok _ _ _ _ (n - 1)%nat (n - 1)%nat)
      by (rewrite index_neg; simpl; [f_equal|]; lia).
    simpl.
    rewrite (setitem_ok _ _ _ _ (n - 1)%nat (n - 2)%nat)
      by (rewrite index_neg; simpl; [f_equal|]; lia).
    simpl.
    eexists; split; [reflexivity|]. simpl.
    repeat split; try reflexivity.
    intros r s. simpl. rewrite !He.
    f_equal; [f_equal|f_equal]; apply setitems_stencil; exact Hn.
Qed.

(** The operator on the smallest grids *)
Example D2_Dirichlet_1 :
  rbind (D2 Dirichlet 1) (fun D => Ok (to_lists D))
  = Ok [[-4; 1; 1; 0]; [1; -4; 0; 1]; [1; 0; -4; 1]; [0; 1; 1; -4]]%Z.
Proof. vm_compute. reflexivity. Qed.

Example D2_Neumann_2_first_rows :
  rbind (D2 Neumann 2) (fun D => Ok (take 2 (to_lists D)))
  = Ok [[-4; 2; 0; 2; 0; 0; 0; 0; 0]; [1; -4; 1; 0; 2; 0; 0; 0; 0]]%Z.
Proof. vm_compute. reflexivity. Qed.

Example D2_Dirichlet_2_nnz :
  rbind (D2 Dirichlet 2) (fun D => Ok (nnz_row D 4, nnz_row D 1, nnz_row D 0))
  = Ok (5, 4, 3)%nat.
Proof. vm_compute. reflexivity. Qed.

Example D2_Neumann_0 : rbind (D2 Neumann 0) (fun D => Ok (to_lists D))
                       = Raise IndexError.
Proof. vm_compute. reflexivity. Qed.

Lemma stencil_nonzero (b : boundary) (n i j : nat) :
  stencil b n i j <> 0%Z ->
  (i < n)%nat /\ (j < n)%nat /\ (i = j \/ i = (j + 1)%nat \/ j = (i + 1)%nat).
Proof.
  unfold stencil. destruct b;
    destruct (Nat.ltb_spec i n), (Nat.ltb_spec j n); simpl; try congruence;
    destruct (Nat.eqb_spec i j), (Nat.eqb_spec i (j + 1)),
      (Nat.eqb_spec j (i + 1)), (Nat.eqb_spec i 0), (Nat.eqb_spec j 1),
      (Nat.eqb_spec i (n - 1)), (Nat.eqb_spec (j + 2) n);
    simpl; try congruence; try lia.
Qed.

Lemma delta_nonzero (n i j : nat) :
  delta n i j <> 0%Z -> (i < n)%nat /\ i = j.
Proof.
  unfold delta.
  destruct (Nat.ltb_spec i n), (Nat.eqb_spec i j); simpl; try congruence.
  auto.
Qed.

Lemma stencil_Dirichlet_sym (n i j : nat) :
  stencil Dirichlet n i j = stencil Dirichlet n j i.
Proof.
  unfold stencil.
  destruct (Nat.ltb_spec i n), (Nat.ltb_spec j n); simpl; try reflexivity.
  destruct (Nat.eqb_spec i j), (Nat.eqb_spec j i), (Nat.eqb_spec i (j + 1)),
    (Nat.eqb_spec j (i + 1)); simpl; try lia; reflexivity.
Qed.

Lemma delta_sym (n i j : nat) :
  (i < n)%nat -> (j < n)%nat -> delta n i j = delta n j i.
Proof.
  intros Hi Hj. unfold delta.
  destruct (Nat.ltb_spec i n), (Nat.ltb_spec j n); try lia.
  destruct (Nat.eqb_spec i j), (Nat.eqb_spec j i); simpl; try lia; reflexivity.
Qed.

Lemma neighbours_length (n r : nat) : (length (neighbours n r) <= 5)%nat.
Proof.
  unfold neighbours.
  destruct (r mod n =? 0)%nat, (r mod n =? n - 1)%nat, (r / n =? 0)%nat,
    (r / n =? n - 1)%nat; simpl; lia.
Qed.

Lemma neighbours_length_boundary (n r : nat) :
  boundary_row n r -> (length (neighbours n r) <= 4)%nat.
Proof.
  unfold neighbours, boundary_row. intros H.
  destruct (Nat.eqb_spec (r mod n) 0), (Nat.eqb_spec (r mod n) (n - 1)),
    (Nat.eqb_spec (r / n) 0), (Nat.eqb_spec (r / n) (n - 1)); simpl; lia.
Qed.

Lemma kronsum_nonzero (b : boundary) (n r s : nat) :
  (0 < n)%nat ->
  (delta n (r / n) (s / n) * stencil b n (r mod n) (s mod n)
   + stencil b n (r / n) (s / n) * delta n (r mod n) (s mod n))%Z <> 0%Z ->
  s ∈ neighbours n r.
Proof.
  intros Hn H. unfold neighbours.
  pose proof (Nat.div_mod_eq r n) as Er.
  pose proof (Nat.div_mod_eq s n) as Es.
  pose proof (Nat.mod_upper_bound r n ltac:(lia)) as Hr.
  pose proof (Nat.mod_upper_bound s n ltac:(lia)) as Hs.
  revert Er Es Hr Hs H.
  generalize (r / n)%nat (r mod n)%nat (s / n)%nat (s mod n)%nat.
  intros i j i' j' Er Es Hr Hs H.
  assert (Hc : (delta n i i' <> 0%Z /\ stencil b n j j' <> 0%Z)
               \/ (stencil b n i i' <> 0%Z /\ delta n j j' <> 0%Z)).
  { destruct (Z.eq_dec (delta n i i' * stencil b n j j')%Z 0%Z) as [E|E].
    - right. rewrite E in H. split; intros E2; rewrite E2 in H; lia.
    - left. split; intros E2; rewrite E2 in E; lia. }
  destruct (Nat.eqb_spec j 0), (Nat.eqb_spec j (n - 1)),
    (Nat.eqb_spec i 0), (Nat.eqb_spec i (n - 1));
    rewrite !elem_of_app, ?list_elem_of_singleton, ?elem_of_nil;
    destruct Hc as [[Hd Hs']|[Hs' Hd]];
    apply delta_nonzero in Hd; apply stencil_nonzero in Hs';
    destruct Hd as [Hd1 Hd2], Hs' as (Hs1 & Hs2 & Hs3);
    destruct Hs3 as [ Hs3 | [ Hs3 | Hs3 ] ]; subst; nia.
Qed.

Lemma length_filter_bound {A} `{EqDecision A} (P : A -> Prop)
    `{!forall x, Decision (P x)} (l L : list A) :
  NoDup l -> (forall x, x ∈ l -> P x -> x ∈ L) ->
  (length (filter P l) <= length L)%nat.
Proof.
  intros Hl HL. apply submseteq_length, NoDup_submseteq.
  - apply NoDup_filter, Hl.
  - intros x Hx. apply list_elem_of_filter in Hx as [HP Hx]. auto.
Qed.

Lemma div_mod_lt (n r : nat) :
  (r < n * n)%nat -> (r / n < n)%nat /\ (r mod n < n)%nat.
Proof.
  intros Hr. assert (0 < n)%nat by lia. split.
  - apply Nat.Div0.div_lt_upper_bound. lia.
  - apply Nat.mod_upper_bound. lia.
Qed.

Lemma D2_Dirichlet_symmetric (N : Z) :
  (1 <= N)%Z -> exists D, D2 Dirichlet N = Ok D /\ symmetric D.
Proof.
  intros HN. destruct (D2_ok Dirichlet N HN) as (D & HD & Hr & Hc & He).
  exists D. split; [exact HD|]. intros r s Hrr Hss.
  rewrite Hr in Hrr. rewrite Hc in Hss.
  apply div_mod_lt in Hrr as [? ?]. apply div_mod_lt in Hss as [? ?].
  rewrite !He. cbv zeta.
  rewrite (stencil_Dirichlet_sym _ (r mod _)).
  rewrite (stencil_Dirichlet_sym _ (r / _)).
  rewrite (delta_sym _ (r mod _)), (delta_sym _ (r / _)) by assumption.
  reflexivity.
Qed.

Lemma D2_Neumann_asymmetric (N : Z) (D : matrix) :
  (2 <= N)%Z -> D2 Neumann N = Ok D ->
  entry D 0 1 = 2%Z /\ entry D 1 0 = 1%Z.
Proof.
  intros HN HD.
  destruct (D2_ok Neumann N ltac:(lia)) as (D' & HD' & Hr & Hc & He).
  rewrite HD in HD'. injection HD' as <-.
  rewrite !He. cbv zeta.
  set (n := Z.to_nat (N + 1)).
  assert (Hn : (3 <= n)%nat) by (unfold n; lia).
  rewrite !Nat.div_small, !Nat.mod_small by lia.
  unfold delta, stencil.
  destruct (Nat.ltb_spec 0 n), (Nat.ltb_spec 1 n); try lia.
  destruct (Nat.eqb_spec 1 (n - 1)); try lia.
  split; reflexivity.
Qed.

Lemma D2_Neumann_1_symmetric (D : matrix) :
  D2 Neumann 1 = Ok D -> symmetric D.
Proof.
  intros HD.
  destruct (D2_ok Neumann 1 ltac:(lia)) as (D' & HD' & Hr & Hc & He).
  rewrite HD in HD'. injection HD' as <-.
  intros i j Hi Hj. rewrite Hr in Hi. rewrite Hc in Hj.
  rewrite !He. change (Z.to_nat (1 + 1)) with 2%nat in *. cbv zeta.
  do 4 (destruct i as [|i];
        [do 4 (destruct j as [|j]; [vm_compute; reflexivity|]); lia|]).
  lia.
Qed.

Lemma D2_nnz (b : boundary) (N : Z) :
  (1 <= N)%Z ->
  exists D, D2 b N = Ok D /\
    forall r, (r < nrows D)%nat ->
      (nnz_row D r <= 5)%nat
      /\ (boundary_row (Z.to_nat (N + 1)) r -> (nnz_row D r <= 4)%nat).
Proof.
  intros HN. destruct (D2_ok b N HN) as (D & HD & Hr & Hc & He).
  exists D. split; [exact HD|]. intros r Hrr.
  assert (Hle : (nnz_row D r <= length (neighbours (Z.to_nat (N + 1)) r))%nat).
  { unfold nnz_row. apply length_filter_bound; [apply NoDup_seq|].
    intros s _ Hs. rewrite He in Hs.
    apply (kronsum_nonzero b); [lia|exact Hs]. }
  split.
  - etransitivity; [exact Hle|apply neighbours_length].
  - intros Hb. etransitivity; [exact Hle|].
    apply neighbours_length_boundary, Hb.
Qed.

End Operator.

(** ** Shapes of the arrays *)

Section Shapes.
Local Open Scope R_scope.

Lemma grid_length (N : Z) : length (grid N) = Z.to_nat (N + 1).
Proof. unfold grid. rewrite length_fmap, length_seq. reflexivity. Qed.

Lemma shape_square (n : nat) (U : field) :
  square_shape n U -> shape U = (n, n).
Proof.
  intros [HL HU]. unfold shape. destruct U as [|r U]; simpl in *.
  - subst n. reflexivity.
  - inversion HU; subst. congruence.
Qed.

Lemma zip_with_square (f : R -> R -> R) (n : nat) (U V : field) :
  square_shape n U -> square_shape n V ->
  square_shape n (zip_with (zip_with f) U V).
Proof.
  intros [HU1 HU2] [HV1 HV2]. split.
  - rewrite length_zip_with. lia.
  - apply Forall_lookup. intros i r Hr.
    apply lookup_zip_with_Some in Hr as (u & v & -> & Hu & Hv).
    rewrite Forall_lookup in HU2, HV2.
    rewrite length_zip_with, (HU2 _ _ Hu), (HV2 _ _ Hv). lia.
Qed.

Lemma fmap_square (f : R -> R) (n : nat) (U : field) :
  square_shape n U ->
  square_shape n ((fun r : list R => f <$> r) <$> U).
Proof.
  intros [HU1 HU2]. split.
  - rewrite length_fmap. exact HU1.
  - apply Forall_fmap. eapply Forall_impl; [exact HU2|].
    intros r Hr. simpl. rewrite length_fmap. exact Hr.
Qed.

Lemma exact_field_square (b : boundary) (N : Z) (c : R) (mx my : Z) (t : R) :
  square_shape (Z.to_nat (N + 1)) (exact_field b N c mx my t).
Proof.
  unfold exact_field, lambdify, meshgrid_ij. simpl.
  split.
  - rewrite length_zip_with, !length_fmap, grid_length. lia.
  - apply Forall_lookup. intros i r Hr.
    apply lookup_zip_with_Some in Hr as (u & v & -> & Hu & Hv).
    rewrite list_lookup_fmap in Hu, Hv.
    destruct (grid N !! i) as [xi|]; simpl in *; [|discriminate].
    injection Hu as <-. injection Hv as <-.
    rewrite length_zip_with, length_fmap, grid_length. lia.
Qed.

Lemma flatten_length (n : nat) (U : field) :
  Forall (fun r => length r = n) U ->
  length (flatten U) = (length U * n)%nat.
Proof.
  unfold flatten. induction 1 as [|r U Hr HU IH]; simpl; [reflexivity|].
  rewrite length_app, IH, Hr. reflexivity.
Qed.

Lemma reshape_square (n : nat) (v : list R) :
  length v = (n * n)%nat ->
  exists L, reshape (n, n) v = Ok L /\ square_shape n L.
Proof.
  intros Hv. unfold reshape. rewrite Hv, Nat.eqb_refl.
  eexists; split; [reflexivity|]. split.
  - rewrite length_fmap, length_seq. reflexivity.
  - apply Forall_fmap, Forall_lookup. intros k i Hi.
    apply lookup_seq in Hi as [-> Hi]. simpl.
    rewrite length_take, length_drop, Hv. nia.
Qed.

Lemma laplacian_square (D : matrix) (n : nat) (U : field) :
  nrows D = (n * n)%nat -> ncols D = (n * n)%nat -> square_shape n U ->
  exists L, laplacian D U = Ok L /\ square_shape n L.
Proof.
  intros Hr Hc HU. unfold laplacian, matvec.
  rewrite (shape_square n U HU).
  destruct HU as [HU1 HU2].
  rewrite (flatten_length n U HU2), HU1, Hc, Nat.eqb_refl. simpl.
  apply reshape_square.
  rewrite length_fmap, length_seq. exact Hr.
Qed.

Lemma zero_edges_square (n : nat) (U : field) :
  square_shape n U -> square_shape n (zero_edges U).
Proof.
  intros [HU1 HU2]. unfold zero_edges. split.
  - rewrite length_imap. exact HU1.
  - apply Forall_lookup. intros i r Hr.
    rewrite list_lookup_imap in Hr.
    destruct (U !! i) as [u|] eqn:Hu; simpl in Hr; [|discriminate].
    injection Hr as <-. rewrite length_imap.
    rewrite Forall_lookup in HU2. exact (HU2 _ _ Hu).
Qed.

Lemma enforce_square (b : boundary) (n : nat) (U : field) :
  square_shape n U -> square_shape n (enforce b U).
Proof. destruct b; simpl; [apply zero_edges_square|auto]. Qed.

Lemma leapfrog_square (b : boundary) (D : matrix) (C : R) (n : nat)
    (Up Uc : field) :
  nrows D = (n * n)%nat -> ncols D = (n * n)%nat ->
  square_shape n Up -> square_shape n Uc ->
  exists L,
    laplacian D Uc = Ok L /\
    leapfrog b D C (Up, Uc)
    = Ok (Uc, enforce b (fadd (fsub (fscale 2 Uc) Up) (fscale (C ^ 2) L)))
    /\ square_shape n
         (enforce b (fadd (fsub (fscale 2 Uc) Up) (fscale (C ^ 2) L))).
Proof.
  intros Hr Hc HUp HUc.
  destruct (laplacian_square D n Uc Hr Hc HUc) as (L & HL & HLs).
  exists L. split; [exact HL|]. unfold leapfrog. rewrite HL. simpl.
  split; [reflexivity|].
  apply enforce_square. unfold fadd, fsub, fscale.
  apply zip_with_square; [apply zip_with_square|];
    try apply fmap_square; assumption.
Qed.

End Shapes.

(** ** Boundary enforcement *)

Section Boundary.
Local Open Scope R_scope.

Lemma set_row_square (n : nat) (U : field) (i : Z) (k : nat) :
  square_shape n U -> index n i = Ok k ->
  set_row U i 0 = Ok (alter zero_row k U)
  /\ square_shape n (alter zero_row k U).
Proof.
  intros [HU1 HU2] Hk. unfold set_row. rewrite HU1, Hk. simpl.
  split; [reflexivity|]. split.
  - rewrite length_alter. exact HU1.
  - apply Forall_lookup. intros j r Hr. rewrite Forall_lookup in HU2.
    rewrite list_lookup_alter in Hr. destruct (decide (k = j)) as [->|].
    + destruct (U !! j) as [u|] eqn:Hu; simpl in Hr; [|discriminate].
      injection Hr as <-. unfold zero_row. rewrite length_replicate.
      exact (HU2 _ _ Hu).
    + exact (HU2 _ _ Hr).
Qed.

Lemma set_col_square (n : nat) (U : field) (j : Z) (k : nat) :
  square_shape n U -> index n j = Ok k ->
  set_col U j 0 = Ok ((fun r : list R => <[k := 0]> r) <$> U)
  /\ square_shape n ((fun r : list R => <[k := 0]> r) <$> U).
Proof.
  intros HU Hk. unfold set_col. rewrite (shape_square n U HU). simpl.
  rewrite Hk. simpl. split; [reflexivity|].
  destruct HU as [HU1 HU2]. split.
  - rewrite length_fmap. exact HU1.
  - apply Forall_fmap. eapply Forall_impl; [exact HU2|].
    intros r Hr. simpl. rewrite length_insert. exact Hr.
Qed.

Lemma edge_row_eq (n : nat) (r : list R) (e : bool) :
  length r = n ->
  <[(n - 1)%nat := 0]> (<[0%nat := 0]> (if e then zero_row r else r))
  = imap (fun j u => if e || (j =? 0)%nat || (j =? n - 1)%nat
                     then 0 else u) r.
Proof.
  intros Hlen. apply list_eq. intros j.
  rewrite list_lookup_imap, !list_lookup_insert, !length_insert.
  destruct e; simpl.
  - unfold zero_row. rewrite length_replicate, Hlen.
    destruct (r !! j) as [x|] eqn:Hj; simpl.
    + assert (j < n)%nat by (rewrite <- Hlen; eapply lookup_lt_Some; eauto).
      rewrite lookup_replicate_2 by lia.
      repeat case_decide; reflexivity.
    + assert (n <= j)%nat by (rewrite <- Hlen; apply lookup_ge_None; auto).
      assert (replicate n 0 !! j = None) as ->
        by (apply lookup_replicate_None; lia).
      repeat case_decide; try reflexivity; lia.
  - rewrite Hlen.
    destruct (r !! j) as [x|] eqn:Hj; simpl.
    + assert (j < n)%nat by (rewrite <- Hlen; eapply lookup_lt_Some; eauto).
      destruct (Nat.eqb_spec j 0), (Nat.eqb_spec j (n - 1));
        repeat case_decide; simpl; try reflexivity; lia.
    + assert (n <= j)%nat by (rewrite <- Hlen; apply lookup_ge_None; auto).
      repeat case_decide; try reflexivity; lia.
Qed.

Lemma assign_edges_zero_edges (n : nat) (U : field) :
  (2 <= n)%nat -> square_shape n U ->
  assign_edges U = Ok (zero_edges U).
Proof.
  intros Hn HU. unfold assign_edges.
  destruct (set_row_square n U 0 0 HU) as [-> HU1];
    [apply (index_nonneg n 0); lia|]. simpl.
  destruct (set_row_square n _ (-1) (n - 1) HU1) as [-> HU2];
    [rewrite index_neg by lia; f_equal; lia|]. simpl.
  destruct (set_col_square n _ 0 0 HU2) as [-> HU3];
    [apply (index_nonneg n 0); lia|]. simpl.
  destruct (set_col_square n _ (-1) (n - 1) HU3) as [-> _];
    [rewrite index_neg by lia; f_equal; lia|].
  clear HU1 HU2 HU3.
  f_equal. apply list_eq. intros i.
  unfold zero_edges. rewrite list_lookup_imap, !list_lookup_fmap.
  destruct HU as [HL HF]. rewrite HL.
  assert (Hrow :
    alter zero_row (n - 1)%nat (alter zero_row 0%nat U) !! i
    = (fun r => if (i =? 0)%nat || (i =? n - 1)%nat then zero_row r else r)
        <$> U !! i).
  { rewrite !list_lookup_alter.
    destruct (decide ((n - 1)%nat = i)) as [E|E].
    - subst i. destruct (decide (0%nat = (n - 1)%nat)); [lia|].
      destruct (Nat.eqb_spec (n - 1) 0); [lia|].
      rewrite Nat.eqb_refl. reflexivity.
    - destruct (decide (0%nat = i)) as [E0|E0].
      + rewrite <- E0. simpl. reflexivity.
      + destruct (Nat.eqb_spec i 0); [lia|].
        destruct (Nat.eqb_spec i (n - 1)); [lia|]. simpl.
        destruct (U !! i); reflexivity. }
  rewrite Hrow.
  destruct (U !! i) as [r|] eqn:Hr; simpl; [|reflexivity].
  f_equal. rewrite Forall_lookup in HF.
  apply (edge_row_eq n r _ (HF _ _ Hr)).
Qed.

End Boundary.

(** ** Running the methods *)

Ltac run :=
  cbv beta iota zeta delta
    [bind ret lift getattr set_cfl set_c set_dx set_dy set_xij set_yij
     set_mx set_my set_unm1 set_un set_unp1 assign_unp1 run_state
     self_cfl self_c self_dx self_dy self_xij self_yij self_mx self_my
     self_unm1 self_un self_unp1 fst snd meshgrid_ij
     lambdify flat shape_of copy vscale vsub vadd vsquare vmean].

Lemma seqZ_of_nat (a len : nat) :
  seqZ (Z.of_nat a) (Z.of_nat len) = Z.of_nat <$> seq a len.
Proof.
  unfold seqZ. rewrite Nat2Z.id. apply list_eq. intros i.
  rewrite !list_lookup_fmap.
  destruct (decide (i < len)%nat) as [Hi|Hi].
  - rewrite !lookup_seq_lt by exact Hi. simpl. f_equal. lia.
  - rewrite !lookup_seq_ge by lia. reflexivity.
Qed.

Lemma bind_ok {A B} (m : M A) (f : A -> M B) (s s' : Solver) (a : A) :
  m s = (Ok a, s') -> bind m f s = f a s'.
Proof. intros H. unfold bind. rewrite H. reflexivity. Qed.

Lemma bind_raise {A B} (m : M A) (f : A -> M B) (s : Solver) (e : exn) :
  fst (m s) = Raise e -> fst (bind m f s) = Raise e.
Proof.
  unfold bind. destruct (m s) as [[a|e'] s']; simpl; [discriminate|].
  intros H. injection H as ->. reflexivity.
Qed.

(** ** The exact solution as [sympy] leaves it *)

Lemma symbolic_dec (b : boundary) (mx my : Z) :
  {symbolic b mx my} + {~ symbolic b mx my}.
Proof.
  destruct b; simpl.
  - destruct (Z.eq_dec mx 0%Z); [right; tauto|].
    destruct (Z.eq_dec my 0%Z); [right; tauto|left; auto].
  - destruct (Z.eq_dec mx 0%Z); [|left; auto].
    destruct (Z.eq_dec my 0%Z); [right; tauto|left; auto].
Qed.

Section Expression.
Local Open Scope R_scope.

Lemma mode_factor_nonzero (m : Z) : m <> 0%Z -> IZR m * PI <> 0.
Proof.
  intros Hm. apply Rmult_integral_contrapositive_currified;
    [apply not_0_IZR; exact Hm | apply PI_neq0].
Qed.

Lemma omega_zero (c : R) (mx my : Z) :
  omega c mx my = 0 <-> c = 0 \/ (mx = 0%Z /\ my = 0%Z).
Proof.
  unfold omega.
  assert (Hnn : (0 <= mx ^ 2 + my ^ 2)%Z) by nia.
  split.
  - intros H. apply Rmult_integral in H as [H|H].
    + apply Rmult_integral in H as [H|H]; [left; exact H|].
      exfalso. exact (PI_neq0 H).
    + right. apply sqrt_eq_0 in H; [|apply IZR_le; exact Hnn].
      apply eq_IZR in H. split; nia.
  - intros [->|[-> ->]]; [rewrite !Rmult_0_l; reflexivity|].
    change (IZR (0 ^ 2 + 0 ^ 2)) with 0. rewrite sqrt_0, Rmult_0_r.
    reflexivity.
Qed.

Variable b : boundary.
Variables (c : R) (mx my : Z).
Variable s : Solver.
Hypothesis Hcs : self_c s = Some c.
Hypothesis Hmx : self_mx s = Some mx.
Hypothesis Hmy : self_my s = Some my.

Lemma w_run : w s = (Ok (omega c mx my), s).
Proof.
  unfold w, omega, bind, getattr. rewrite Hcs, Hmx, Hmy. reflexivity.
Qed.

Ltac sym_cases :=
  repeat match goal with
  | |- context [Req_EM_T ?a 0] => destruct (Req_EM_T a 0)
  end.

(** Whatever the mode numbers, the expression denotes the standing wave. *)
Lemma ue_eval :
  exists e, ue b mx my s = (Ok e, s)
    /\ forall x y t, eval e x y t = standing_wave b c mx my x y t.
Proof.
  unfold ue. rewrite (bind_ok _ _ _ _ _ w_run). unfold ret.
  eexists. split; [reflexivity|]. intros x y t.
  unfold standing_wave, sym_mul, sym_sin, sym_cos, sym_x, sym_y, sym_t.
  destruct b; sym_cases; cbn [eval];
    repeat match goal with
    | H : ?a = 0 |- context [?a] => rewrite H
    end;
    rewrite ?Rmult_0_l, ?Rmult_0_r, ?sin_0, ?cos_0 in *; lra.
Qed.

(** For mode numbers that leave [x] or [y] in the expression and a wave
    speed that leaves [t] in it, the expression is that function. *)
Lemma ue_symbolic :
  c <> 0 -> symbolic b mx my ->
  ue b mx my s = (Ok (Symbolic (standing_wave b c mx my)), s).
Proof.
  intros Hc Hsym.
  assert (Hw : omega c mx my <> 0).
  { intros H. apply omega_zero in H as [H|[H1 H2]]; [contradiction|].
    destruct b; simpl in Hsym; lia. }
  unfold ue. rewrite (bind_ok _ _ _ _ _ w_run). unfold ret.
  do 2 f_equal.
  unfold standing_wave, sym_mul, sym_sin, sym_cos, sym_x, sym_y, sym_t.
  destruct b; simpl in Hsym; sym_cases; try contradiction;
    repeat match goal with
    | H : IZR ?m * PI = 0 |- _ =>
        apply Rmult_integral in H as [H|H];
        [apply eq_IZR in H | exfalso; exact (PI_neq0 H)]
    end;
    try lia;
    rewrite ?sin_0, ?cos_0 in *; try lra;
    f_equal; do 3 (apply functional_extensionality; intros);
    subst; rewrite ?Rmult_0_l, ?cos_0; reflexivity.
Qed.

(** For the other mode numbers it is a number. *)
Lemma ue_constant :
  ~ symbolic b mx my -> exists v, ue b mx my s = (Ok (Number v), s).
Proof.
  intros Hsym.
  unfold ue. rewrite (bind_ok _ _ _ _ _ w_run). unfold ret.
  assert (Hz : forall m : Z, m = 0%Z -> IZR m * PI = 0)
    by (intros m ->; apply Rmult_0_l).
  unfold sym_mul, sym_sin, sym_cos, sym_x, sym_y, sym_t.
  destruct b; simpl in Hsym.
  - destruct (Z.eq_dec mx 0%Z) as [E1|E1].
    + destruct (Req_EM_T (IZR mx * PI) 0) as [_|H];
        [|exfalso; apply H, Hz, E1].
      sym_cases; rewrite ?sin_0 in *; try lra; eauto.
    + destruct (Z.eq_dec my 0%Z) as [E2|E2]; [|exfalso; apply Hsym; auto].
      destruct (Req_EM_T (IZR my * PI) 0) as [_|H];
        [|exfalso; apply H, Hz, E2].
      sym_cases; rewrite ?sin_0 in *; try lra; eauto.
  - assert (E1 : mx = 0%Z) by lia. assert (E2 : my = 0%Z) by lia.
    assert (Hw : omega c mx my = 0) by (apply omega_zero; auto).
    destruct (Req_EM_T (IZR mx * PI) 0) as [_|H];
      [|exfalso; apply H, Hz, E1].
    destruct (Req_EM_T (IZR my * PI) 0) as [_|H];
      [|exfalso; apply H, Hz, E2].
    destruct (Req_EM_T (omega c mx my) 0) as [_|H]; [|contradiction].
    eauto.
Qed.

(** That number is the value of the standing wave at the origin. *)
Lemma ue_number :
  ~ symbolic b mx my ->
  ue b mx my s = (Ok (Number (standing_wave b c mx my 0 0 0)), s).
Proof.
  intros Hsym.
  destruct (ue_constant Hsym) as [v Hv].
  destruct ue_eval as (e & He & Heval).
  rewrite Hv in He. injection He as <-.
  rewrite Hv, <- (Heval 0 0 0). reflexivity.
Qed.

End Expression.

Section Run.
Local Open Scope R_scope.

Variable b : boundary.
Variables (N : Z) (cfl c : R) (mx my : Z).
Hypothesis HN : (1 <= N)%Z.
Hypothesis Hc : c <> 0.
Hypothesis Hsym : symbolic b mx my.

Let n : nat := Z.to_nat (N + 1).
Let st := run_state cfl c N mx my.

Lemma linspace_grid : linspace 0 1 (N + 1) = Ok (grid N).
Proof.
  unfold linspace, grid.
  destruct (Z.ltb_spec (N + 1) 0); [lia|]. reflexivity.
Qed.

Lemma pydiv_ok (x y : R) : y <> 0 -> pydiv x y = Ok (x / y).
Proof.
  intros H. unfold pydiv.
  destruct (Req_EM_T y 0); [contradiction|reflexivity].
Qed.

Lemma initialize_run (s : Solver) :
  self_cfl s = Some cfl -> self_c s = Some c ->
  initialize b N mx my s
  = (Ok (Array (exact_field b N c mx my 0),
         Array (exact_field b N c mx my (- step_size cfl c N))),
     st (exact_field b N c mx my (- step_size cfl c N))
        (exact_field b N c mx my 0) (self_unp1 s)).
Proof.
  intros Hcfl Hcs. destruct s; simpl in Hcfl, Hcs; subst.
  unfold initialize.
  erewrite bind_ok.
  2:{ unfold create_mesh. run. rewrite linspace_grid. run.
      rewrite !pydiv_ok by (apply not_0_IZR; lia). run. reflexivity. }
  erewrite bind_ok by reflexivity.
  erewrite bind_ok by reflexivity.
  erewrite bind_ok
    by (apply (ue_symbolic b c mx my); [reflexivity.. | exact Hc | exact Hsym]).
  unfold dt, st. run. rewrite pydiv_ok by assumption. run.
  unfold exact_field, step_size. reflexivity.
Qed.

Lemma dt_run (Up Uc : field) (P : option pyvalue) :
  dt (st Up Uc P) = (Ok (step_size cfl c N), st Up Uc P).
Proof.
  unfold dt, st. run. rewrite pydiv_ok by assumption. reflexivity.
Qed.

Lemma l2_error_run (U : field) (t0 : R) (Up Uc : field)
    (P : option pyvalue) :
  l2_error b (Array U) t0 (st Up Uc P)
  = (Ok (rms_diff U (exact_field b N c mx my t0)), st Up Uc P).
Proof.
  unfold l2_error.
  erewrite bind_ok by reflexivity.
  erewrite bind_ok by reflexivity.
  erewrite bind_ok
    by (apply (ue_symbolic b c mx my); [reflexivity.. | exact Hc | exact Hsym]).
  unfold st. run. reflexivity.
Qed.

Lemma set_unp1_st (V Up Uc : field) (P : option pyvalue) :
  set_unp1 (Array V) (st Up Uc P) = (Ok tt, st Up Uc (Some (Array V))).
Proof. reflexivity. Qed.

Lemma set_unm1_st (V Up Uc : field) (P : option pyvalue) :
  set_unm1 (Array V) (st Up Uc P) = (Ok tt, st V Uc P).
Proof. reflexivity. Qed.

Lemma set_un_st (V Up Uc : field) (P : option pyvalue) :
  set_un (Array V) (st Up Uc P) = (Ok tt, st Up V P).
Proof. reflexivity. Qed.

Lemma assign_unp1_run (f : field -> result field) (Up Uc V V' : field) :
  f V = Ok V' ->
  assign_unp1 f (st Up Uc (Some (Array V)))
  = (Ok tt, st Up Uc (Some (Array V'))).
Proof. intros H. unfold st. run. rewrite H. reflexivity. Qed.

Lemma apply_bcs_run (Up Uc V : field) :
  square_shape n V ->
  apply_bcs b (st Up Uc (Some (Array V)))
  = (Ok tt, st Up Uc (Some (Array (enforce b V)))).
Proof.
  intros HV. unfold apply_bcs. destruct b; simpl; [|reflexivity].
  pose proof (assign_edges_zero_edges n V ltac:(unfold n; lia) HV) as HE.
  unfold assign_edges in HE.
  destruct (set_row V 0 0) as [V1|] eqn:E1; [|discriminate]. simpl in HE.
  destruct (set_row V1 (-1) 0) as [V2|] eqn:E2; [|discriminate]. simpl in HE.
  destruct (set_col V2 0 0) as [V3|] eqn:E3; [|discriminate]. simpl in HE.
  unfold bind.
  rewrite (assign_unp1_run _ _ _ _ _ E1).
  rewrite (assign_unp1_run _ _ _ _ _ E2).
  rewrite (assign_unp1_run _ _ _ _ _ E3).
  rewrite (assign_unp1_run _ _ _ _ _ HE). reflexivity.
Qed.

Variable D : matrix.
Hypothesis HDr : nrows D = (n * n)%nat.
Hypothesis HDc : ncols D = (n * n)%nat.

Lemma time_step_run (C : R) (store_data k : Z)
    (data : option (gmap Z field)) (errs : option (list R))
    (Up Uc : field) (P : option pyvalue) :
  square_shape n Up -> square_shape n Uc ->
  (data <> None -> store_data <> 0%Z) ->
  exists Un,
    leapfrog b D C (Up, Uc) = Ok (Uc, Un)
    /\ square_shape n Un
    /\ time_step b D C store_data k (data, errs) (st Up Uc P)
       = (Ok (record_data store_data k Un data,
              record_error b N cfl c mx my k Un errs),
          st Uc Un (Some (Array Un))).
Proof.
  intros HUp HUc Hsd.
  destruct (leapfrog_square b D C n Up Uc HDr HDc HUp HUc)
    as (L & HL & Hleap & HUn).
  eexists. split; [exact Hleap|]. split; [exact HUn|].
  assert (HV : square_shape n
                 (fadd (fsub (fscale 2 Uc) Up) (fscale (C ^ 2) L))).
  { destruct (laplacian_square D n Uc HDr HDc HUc) as (L' & HL' & HLs).
    rewrite HL in HL'. injection HL' as <-. unfold fadd, fsub, fscale.
    apply zip_with_square; [apply zip_with_square|];
      try apply fmap_square; assumption. }
  unfold laplacian in HL.
  destruct (matvec D (flatten Uc)) as [v|] eqn:Ev; [|discriminate].
  unfold rbind in HL.
  set (Un := enforce b (fadd (fsub (fscale 2 Uc) Up) (fscale (C ^ 2) L))).
  unfold time_step.
  erewrite bind_ok by reflexivity.
  erewrite bind_ok by reflexivity.
  rewrite Ev. erewrite bind_ok by reflexivity.
  erewrite bind_ok by reflexivity.
  erewrite bind_ok by reflexivity.
  rewrite HL. erewrite bind_ok by reflexivity.
  erewrite bind_ok by reflexivity.
  erewrite bind_ok by reflexivity.
  erewrite bind_ok by apply set_unp1_st.
  erewrite bind_ok by (apply apply_bcs_run; exact HV).
  fold Un.
  erewrite bind_ok by reflexivity.
  erewrite bind_ok by reflexivity.
  erewrite bind_ok by apply set_unm1_st.
  erewrite bind_ok by apply set_un_st.
  destruct data as [d|].
  - unfold pymod. destruct (Z.eqb_spec store_data 0) as [E|E];
      [exfalso; apply Hsd; [discriminate|exact E]|].
    rewrite (bind_ok _ _ _ (st Uc Un (Some (Array Un)))
               (Some (if (k mod store_data =? 0)%Z
                      then <[k := Un]> d else d))).
    2:{ erewrite bind_ok by reflexivity.
        destruct (k mod store_data =? 0)%Z;
          [erewrite bind_ok by reflexivity;
           erewrite bind_ok by reflexivity|]; reflexivity. }
    destruct errs as [es|].
    + erewrite bind_ok.
      2:{ erewrite bind_ok by reflexivity.
          erewrite bind_ok by apply dt_run.
          erewrite bind_ok by apply l2_error_run. reflexivity. }
      reflexivity.
    + erewrite bind_ok by reflexivity. reflexivity.
  - erewrite bind_ok by reflexivity.
    destruct errs as [es|].
    + erewrite bind_ok.
      2:{ erewrite bind_ok by reflexivity.
          erewrite bind_ok by apply dt_run.
          erewrite bind_ok by apply l2_error_run. reflexivity. }
      reflexivity.
    + erewrite bind_ok by reflexivity. reflexivity.
Qed.

Variable C : R.
Variable store_data : Z.
Variable T : nat -> field * field.
Hypothesis HT_shape :
  forall k, square_shape n (fst (T k)) /\ square_shape n (snd (T k)).
Hypothesis HT_step : forall k, leapfrog b D C (T k) = Ok (T (S k)).

(** The time loop from step [j] on, for [len] passes *)
Lemma time_loop (len : nat) :
  forall (j : nat) (data : option (gmap Z field)) (errs : option (list R))
         (P : option pyvalue),
    (data <> None -> store_data <> 0%Z) ->
    for_each (Z.of_nat <$> seq (S j) len) (time_step b D C store_data)
      (data, errs) (st (fst (T j)) (snd (T j)) P)
    = (Ok ((fun d => foldl (snapshot_pass store_data T) d (seq (S j) len))
             <$> data,
           (fun es => es ++ (error_at b N cfl c mx my T <$> seq (S j) len))
             <$> errs),
       st (fst (T (j + len))) (snd (T (j + len)))
          (match len with
           | O => P
           | S _ => Some (Array (snd (T (j + len))))
           end)).
Proof.
  induction len as [|len IH]; intros j data errs P Hsd.
  - simpl. rewrite Nat.add_0_r. unfold ret.
    destruct data, errs; simpl; rewrite ?app_nil_r; reflexivity.
  - cbn [seq fmap list_fmap for_each].
    destruct (HT_shape j) as [HUp HUc].
    destruct (time_step_run C store_data (Z.of_nat (S j)) data errs
                (fst (T j)) (snd (T j)) P HUp HUc Hsd)
      as (Un & Hleap & HUn & Hstep).
    assert (ET : T (S j) = (snd (T j), Un)).
    { pose proof (HT_step j) as H. destruct (T j) as [Up Uc].
      simpl in *. rewrite Hleap in H. injection H as H. auto. }
    erewrite bind_ok by exact Hstep.
    assert (E1 : snd (T j) = fst (T (S j))) by (rewrite ET; reflexivity).
    assert (E2 : Un = snd (T (S j))) by (rewrite ET; reflexivity).
    rewrite E1, E2.
    change (list_fmap nat Z Z.of_nat (seq (S (S j)) len))
      with (Z.of_nat <$> seq (S (S j)) len).
    rewrite IH.
    2:{ destruct data; simpl; [intros _; apply Hsd|]; congruence. }
    replace (S j + len)%nat with (j + S len)%nat by lia.
    assert (Est : match len with
                  | O => Some (Array (snd (T (S j))))
                  | S _ => Some (Array (snd (T (j + S len))))
                  end = Some (Array (snd (T (j + S len))))).
    { destruct len; [|reflexivity].
      replace (j + 1)%nat with (S j) by lia. reflexivity. }
    rewrite Est.
    destruct data as [d|], errs as [es|]; simpl;
      rewrite <- ?app_assoc; reflexivity.
Qed.

End Run.

Section Call.
Local Open Scope R_scope.

Variable b : boundary.
Variables (N : Z) (cfl c : R) (mx my : Z).
Hypothesis HN : (1 <= N)%Z.
Hypothesis Hc : c <> 0.
Hypothesis Hsym : symbolic b mx my.

Let n : nat := Z.to_nat (N + 1).
Let U0 : field := exact_field b N c mx my 0.
Let Um1 : field := exact_field b N c mx my (- step_size cfl c N).

Lemma trajectory_ok (D : matrix) (C : R) (p0 : field * field) :
  nrows D = (n * n)%nat -> ncols D = (n * n)%nat ->
  square_shape n (fst p0) -> square_shape n (snd p0) ->
  forall k,
    (square_shape n (fst (trajectory b D C p0 k))
     /\ square_shape n (snd (trajectory b D C p0 k)))
    /\ leapfrog b D C (trajectory b D C p0 k)
       = Ok (trajectory b D C p0 (S k)).
Proof.
  intros Hr Hc' H1 H2.
  assert (Hstep : forall p, square_shape n (fst p) -> square_shape n (snd p) ->
            exists q, leapfrog b D C p = Ok q
              /\ square_shape n (fst q) /\ square_shape n (snd q)).
  { intros [Up Uc] Hp1 Hp2. cbn [fst snd] in *.
    destruct (leapfrog_square b D C n Up Uc Hr Hc' Hp1 Hp2)
      as (L & _ & -> & HUn).
    eexists; split; [reflexivity|]. cbn [fst snd]. auto. }
  assert (Hshape : forall k,
            square_shape n (fst (trajectory b D C p0 k))
            /\ square_shape n (snd (trajectory b D C p0 k))).
  { induction k as [|k [IH1 IH2]]; [simpl; auto|].
    simpl. destruct (Hstep _ IH1 IH2) as (q & -> & Hq). exact Hq. }
  intros k. split; [apply Hshape|].
  destruct (Hshape k) as [Hk1 Hk2].
  simpl. destruct (Hstep _ Hk1 Hk2) as (q & -> & _). reflexivity.
Qed.

Lemma call_run (Nt store_data : Z) (s : Solver) :
  exists D,
    D2 b N = Ok D /\
    let T := trajectory b D cfl (Um1, U0) in
    (forall k, square_shape n (fst (T k)) /\ square_shape n (snd (T k)))
    /\ (forall k, leapfrog b D cfl (T k) = Ok (T (S k)))
    /\ call b N Nt cfl c mx my store_data s
       = (Ok (call_output b N cfl c mx my T Nt store_data),
          run_state cfl c N mx my
            (fst (T (Z.to_nat Nt))) (snd (T (Z.to_nat Nt)))
            (match Z.to_nat Nt with
             | O => self_unp1 s
             | S _ => Some (Array (snd (T (Z.to_nat Nt))))
             end)).
Proof.
  destruct (D2_ok b N HN) as (D & HD & Hr & Hc' & _).
  exists D. split; [exact HD|]. intros T.
  pose proof (trajectory_ok D cfl (Um1, U0) Hr Hc'
                (exact_field_square _ _ _ _ _ _)
                (exact_field_square _ _ _ _ _ _)) as HT.
  fold T in HT.
  split; [intros k; apply HT|]. split; [intros k; apply HT|].
  unfold call.
  erewrite bind_ok by reflexivity.
  erewrite bind_ok by reflexivity.
  erewrite bind_ok
    by (apply (initialize_run b N cfl c mx my HN Hc Hsym); reflexivity).
  rewrite HD. erewrite bind_ok by reflexivity.
  erewrite bind_ok by reflexivity.
  cbn [self_unp1 set_cfl set_c snd].
  fold U0 Um1.
  assert (Erange : range 1 (Nt + 1) = Z.of_nat <$> seq 1 (Z.to_nat Nt)).
  { unfold range. destruct (Z.le_gt_cases 0 Nt).
    - rewrite <- (seqZ_of_nat 1), Z2Nat.id by lia. f_equal. lia.
    - rewrite seqZ_nil by lia.
      replace (Z.to_nat Nt) with 0%nat by lia. reflexivity. }
  rewrite Erange.
  assert (ET0 : T 0%nat = (Um1, U0)) by reflexivity.
  pose proof (time_loop b N cfl c mx my HN Hc Hsym D Hr Hc' cfl store_data T
                (fun k => proj1 (HT k)) (fun k => proj2 (HT k))
                (Z.to_nat Nt) 0%nat) as Hloop.
  rewrite ET0 in Hloop. cbn [fst snd] in Hloop.
  unfold call_output.
  destruct (Z.eqb_spec store_data 0) as [E0|E0];
    destruct (Z.ltb_spec 0 store_data) as [Epos|Epos]; try lia; simpl negb;
    cbn [andb].
  - erewrite bind_ok by reflexivity.
    erewrite bind_ok by (apply Hloop; congruence).
    destruct (Z.eqb_spec store_data (-1)); [lia|].
    erewrite bind_ok by reflexivity. reflexivity.
  - erewrite bind_ok by reflexivity.
    erewrite bind_ok by (apply Hloop; intros _; exact E0).
    cbn [fmap option_fmap option_map].
    erewrite bind_ok by reflexivity. reflexivity.
  - erewrite bind_ok by reflexivity.
    erewrite bind_ok by (apply Hloop; congruence).
    destruct (Z.eqb_spec store_data (-1));
      erewrite bind_ok by reflexivity; reflexivity.
Qed.

End Call.

(** ** Calls with a constant exact solution *)

Section Constant.
Local Open Scope R_scope.

Variable b : boundary.
Variables (N : Z) (cfl c : R) (mx my : Z).
Hypothesis HN : (1 <= N)%Z.
Hypothesis Hc : c <> 0.
Hypothesis Hconst : ~ symbolic b mx my.

(** [initialize] stores the number in both attributes. *)
Lemma initialize_constant (s : Solver) :
  self_cfl s = Some cfl -> self_c s = Some c ->
  exists s',
    initialize b N mx my s
    = (Ok (Scalar (standing_wave b c mx my 0 0 0),
           Scalar (standing_wave b c mx my 0 0 0)), s')
    /\ self_unm1 s' = Some (Scalar (standing_wave b c mx my 0 0 0))
    /\ self_un s' = Some (Scalar (standing_wave b c mx my 0 0 0))
    /\ self_dx s' = Some (1 / IZR N)
    /\ self_cfl s' = Some cfl
    /\ self_c s' = Some c /\ self_mx s' = Some mx /\ self_my s' = Some my
    /\ self_xij s' = Some (fst (meshgrid_ij (grid N) (grid N)))
    /\ self_yij s' = Some (snd (meshgrid_ij (grid N) (grid N))).
Proof.
  intros Hcfl Hcs. destruct s; simpl in Hcfl, Hcs; subst.
  eexists. split.
  - unfold initialize.
    erewrite bind_ok.
    2:{ unfold create_mesh. run. rewrite (linspace_grid N HN). run.
        rewrite !pydiv_ok by (apply not_0_IZR; lia). run. reflexivity. }
    erewrite bind_ok by reflexivity.
    erewrite bind_ok by reflexivity.
    erewrite bind_ok
      by (apply (ue_number b c mx my); [reflexivity.. | exact Hconst]).
    unfold dt. run. rewrite pydiv_ok by assumption. run. reflexivity.
  - repeat split.
Qed.

(** The first method call on the number raises: [copy] when a dictionary
    is kept, [reshape] in the first pass of the loop.  Only a call that
    keeps no dictionary and takes no step returns. *)
Lemma call_constant (Nt store_data : Z) (s : Solver) :
  fst (call b N Nt cfl c mx my store_data s)
  = if (0 <? store_data)%Z then Raise AttributeError
    else if (1 <=? Nt)%Z then Raise AttributeError
    else Ok (Pair (1 / IZR N)
               (if (store_data =? -1)%Z then Some [] else None)).
Proof.
  unfold call.
  erewrite bind_ok by reflexivity.
  erewrite bind_ok by reflexivity.
  match goal with
  | |- context [bind (initialize _ _ _ _) _ ?s2] =>
      destruct (initialize_constant s2 eq_refl eq_refl)
        as (s' & Hi & Hm1 & Hun & Hdx & Hcfl & _)
  end.
  erewrite bind_ok by exact Hi.
  destruct (D2_ok b N HN) as (D & HD & _).
  rewrite HD. erewrite bind_ok by reflexivity.
  erewrite bind_ok by (unfold getattr; rewrite Hcfl; reflexivity).
  destruct (Z.ltb_spec 0 store_data) as [Hpos|Hneg].
  - destruct (Z.eqb_spec store_data 0) as [E0|_]; [lia|].
    cbn [negb andb]. unfold bind, getattr. rewrite Hm1. reflexivity.
  - rewrite andb_false_r.
    erewrite bind_ok by reflexivity.
    destruct (Z.leb_spec 1 Nt) as [HNt|HNt].
    + unfold range. rewrite seqZ_cons by lia.
      cbn [for_each]. unfold time_step, bind, getattr. rewrite Hun.
      reflexivity.
    + unfold range. rewrite seqZ_nil by lia. cbn [for_each].
      erewrite bind_ok by reflexivity.
      unfold bind, getattr. rewrite Hdx. reflexivity.
Qed.

End Constant.

(** ** Calls that raise *)

Section Invalid.
Local Open Scope R_scope.

Variable b : boundary.
Variables (N Nt : Z) (cfl c : R) (mx my store_data : Z).

Lemma D2_empty : D2 b (-1) = Raise ValueError.
Proof. destruct b; reflexivity. Qed.

Lemma call_invalid :
  (N <= 0)%Z \/ c = 0 ->
  exists e,
    (forall s, fst (call b N Nt cfl c mx my store_data s) = Raise e)
    /\ (N = 0%Z -> e = ZeroDivisionError)
    /\ ((N < -1)%Z -> e = ValueError).
Proof.
  intros Hbad.
  destruct (Z.ltb_spec (N + 1) 0) as [Hneg|Hnn].
  { exists ValueError. split; [|split; [lia|reflexivity]]. intros s.
    unfold call, initialize, create_mesh, linspace.
    destruct (Z.ltb_spec (N + 1) 0); [|lia]. reflexivity. }
  destruct (Z.eq_dec N 0%Z) as [E0|E0].
  { exists ZeroDivisionError. split; [|split; [reflexivity|lia]].
    intros s. subst N.
    unfold call, initialize, create_mesh, linspace, pydiv.
    change (0 + 1 <? 0)%Z with false.
    destruct (Req_EM_T (IZR 0) 0) as [_|Hne]; [reflexivity|].
    exfalso. apply Hne. reflexivity. }
  destruct (Req_EM_T c 0) as [Ec|Ec].
  { exists ZeroDivisionError. split; [|split; lia]. intros s.
    unfold call, initialize, create_mesh, linspace, dt, ue, w, pydiv.
    destruct (Z.ltb_spec (N + 1) 0); [lia|].
    destruct (Req_EM_T (IZR N) 0) as [HN0|_];
      [apply eq_IZR_R0 in HN0; lia|].
    run. destruct (Req_EM_T c 0) as [_|]; [|contradiction]. reflexivity. }
  assert (N = (-1)%Z) as -> by (destruct Hbad; [lia|contradiction]).
  exists ValueError. split; [|split; [lia|reflexivity]]. intros s.
  unfold call, initialize, create_mesh, linspace, dt, ue, w, pydiv.
  change (-1 + 1 <? 0)%Z with false.
  destruct (Req_EM_T (IZR (-1)) 0) as [HN0|_];
    [apply eq_IZR_R0 in HN0; lia|].
  run. destruct (Req_EM_T c 0) as [|_]; [contradiction|].
  rewrite D2_empty. reflexivity.
Qed.

End Invalid.

(** ** The snapshot dictionary *)

Section Snapshots.

Variable store_data : Z.
Variable T : nat -> field * field.

Lemma snapshots_dom (ms : list nat) :
  forall (d : gmap Z field) (key : Z),
    key ∈ dom (foldl (snapshot_pass store_data T) d ms)
    <-> key ∈ dom d
        \/ exists m, m ∈ ms /\ key = Z.of_nat m
                     /\ (key mod store_data = 0)%Z.
Proof.
  induction ms as [|m ms IH]; intros d key; simpl.
  - split; [auto|]. intros [H|(m & Hm & _)]; [exact H|].
    apply elem_of_nil in Hm. contradiction.
  - rewrite IH. unfold snapshot_pass.
    destruct (Z.eqb_spec (Z.of_nat m mod store_data) 0) as [E|E].
    + rewrite dom_insert_L, elem_of_union, elem_of_singleton. split.
      * intros [[->|H]|(m' & Hm' & Hk)].
        -- right. exists m. split; [left|auto].
        -- left. exact H.
        -- right. destruct Hk as [-> Hk]. exists m'.
           split; [right; exact Hm'|auto].
      * intros [H|(m' & Hm' & -> & Hk)]; [left; right; exact H|].
        apply elem_of_cons in Hm' as [->|Hm'].
        -- left. left. reflexivity.
        -- right. exists m'. auto.
    + split.
      * intros [H|(m' & Hm' & Hk)]; [left; exact H|].
        right. exists m'. split; [right; exact Hm'|exact Hk].
      * intros [H|(m' & Hm' & -> & Hk)]; [left; exact H|].
        apply elem_of_cons in Hm' as [->|Hm']; [contradiction|].
        right. exists m'. auto.
Qed.

Lemma snapshots_lookup (ms : list nat) :
  forall (d : gmap Z field) (key : Z) (U : field),
    foldl (snapshot_pass store_data T) d ms !! key = Some U ->
    d !! key = Some U
    \/ exists m, m ∈ ms /\ key = Z.of_nat m /\ U = snd (T m).
Proof.
  induction ms as [|m ms IH]; intros d key U; simpl; [auto|].
  intros H. apply IH in H as [H|(m' & Hm' & Hk)].
  - unfold snapshot_pass in H.
    destruct (Z.of_nat m mod store_data =? 0)%Z; [|left; exact H].
    rewrite lookup_insert in H. destruct (decide (Z.of_nat m = key)) as [<-|].
    + injection H as <-. right. exists m. split; [left|auto].
    + left. exact H.
  - right. exists m'. split; [right; exact Hm'|exact Hk].
Qed.

Lemma snapshots_lookup_other (ms : list nat) :
  forall (d : gmap Z field) (key : Z),
    (forall m, m ∈ ms -> key <> Z.of_nat m) ->
    foldl (snapshot_pass store_data T) d ms !! key = d !! key.
Proof.
  induction ms as [|m ms IH]; intros d key Hk; simpl; [reflexivity|].
  rewrite IH by (intros m' Hm'; apply Hk; right; exact Hm').
  unfold snapshot_pass.
  destruct (Z.of_nat m mod store_data =? 0)%Z; [|reflexivity].
  apply lookup_insert_ne. intros E. apply (Hk m); [left|auto].
Qed.

End Snapshots.

(** ** Values on the edges *)

Section Edges.
Local Open Scope R_scope.

Lemma exact_field_at (b : boundary) (N : Z) (c : R) (mx my : Z) (t : R)
    (i j : nat) (xi xj : R) :
  grid N !! i = Some xi -> grid N !! j = Some xj ->
  at_point (exact_field b N c mx my t) i j
  = Some (standing_wave b c mx my xi xj t).
Proof.
  intros Hi Hj. unfold at_point, exact_field, lambdify, meshgrid_ij.
  cbn [fst snd].
  rewrite lookup_zip_with, !list_lookup_fmap, Hi. simpl.
  rewrite lookup_zip_with, list_lookup_fmap, Hj. simpl. reflexivity.
Qed.

Lemma grid_lookup (N : Z) (i : nat) :
  (i < Z.to_nat (N + 1))%nat ->
  grid N !! i = Some (INR i * ((1 - 0) / IZR (N + 1 - 1)) + 0).
Proof.
  intros Hi. unfold grid. rewrite list_lookup_fmap, lookup_seq_lt by exact Hi.
  reflexivity.
Qed.

Lemma grid_first (N : Z) :
  (0 <= N)%Z -> grid N !! 0%nat = Some 0.
Proof.
  intros HN. rewrite grid_lookup by lia. f_equal. simpl. lra.
Qed.

Lemma grid_last (N : Z) :
  (1 <= N)%Z -> grid N !! (Z.to_nat (N + 1) - 1)%nat = Some 1.
Proof.
  intros HN. rewrite grid_lookup by lia. f_equal.
  replace (Z.to_nat (N + 1) - 1)%nat with (Z.to_nat N) by lia.
  rewrite INR_IZR_INZ, Z2Nat.id by lia.
  replace (N + 1 - 1)%Z with N by lia.
  assert (IZR N <> 0) by (apply not_0_IZR; lia). field. assumption.
Qed.

Lemma sin_mode_0 (m : Z) : sin (IZR m * PI * 0) = 0.
Proof. rewrite Rmult_0_r. apply sin_0. Qed.

Lemma sin_mode_1 (m : Z) : sin (IZR m * PI * 1) = 0.
Proof. apply sin_eq_0_1. exists m. ring. Qed.

(** The Dirichlet standing wave vanishes on the four edges of the mesh. *)
Lemma exact_Dirichlet_edges (N : Z) (c : R) (mx my : Z) (t : R) (i j : nat) :
  (1 <= N)%Z ->
  (i < Z.to_nat (N + 1))%nat -> (j < Z.to_nat (N + 1))%nat ->
  on_edge (Z.to_nat (N + 1)) i j = true ->
  at_point (exact_field Dirichlet N c mx my t) i j = Some 0.
Proof.
  intros HN Hi Hj He.
  destruct (grid N !! i) as [xi|] eqn:Exi.
  2:{ rewrite grid_lookup in Exi by exact Hi. discriminate. }
  destruct (grid N !! j) as [xj|] eqn:Exj.
  2:{ rewrite grid_lookup in Exj by exact Hj. discriminate. }
  rewrite (exact_field_at _ _ _ _ _ _ _ _ _ _ Exi Exj). f_equal.
  unfold standing_wave. unfold on_edge in He.
  apply orb_true_iff in He as [He|He];
    [apply orb_true_iff in He as [He|He];
     [apply orb_true_iff in He as [He|He]|]|];
    apply Nat.eqb_eq in He; subst.
  - rewrite grid_first in Exi by lia. injection Exi as <-.
    rewrite sin_mode_0. ring.
  - rewrite grid_last in Exi by lia. injection Exi as <-.
    rewrite sin_mode_1. ring.
  - rewrite grid_first in Exj by lia. injection Exj as <-.
    rewrite sin_mode_0. ring.
  - rewrite grid_last in Exj by lia. injection Exj as <-.
    rewrite sin_mode_1. ring.
Qed.


End Edges.

Local Open Scope R_scope.

(** ** The operator applied to a field *)

Lemma total_app (xs ys : list R) : total (xs ++ ys) = total xs + total ys.
Proof. unfold total. induction xs; simpl; lra. Qed.

Lemma total_ext (f g : nat -> R) (l : list nat) :
  (forall k, k ∈ l -> f k = g k) -> total (f <$> l) = total (g <$> l).
Proof.
  intros H. f_equal. apply list_fmap_ext. intros i k Hk. apply H.
  eapply list_elem_of_lookup_2; eauto.
Qed.

Lemma total_plus (f g : nat -> R) (l : list nat) :
  total ((fun k => f k + g k) <$> l) = total (f <$> l) + total (g <$> l).
Proof.
  unfold total. induction l as [|y l IH]; [simpl; lra|].
  rewrite !fmap_cons. cbn [foldr]. rewrite IH. lra.
Qed.

Lemma total_scale (a : R) (f : nat -> R) (l : list nat) :
  total ((fun k => a * f k) <$> l) = a * total (f <$> l).
Proof.
  unfold total. induction l as [|y l IH]; [simpl; lra|].
  rewrite !fmap_cons. cbn [foldr]. rewrite IH. lra.
Qed.

Lemma total_single (a : nat) (x : nat -> R) (s len : nat) :
  total ((fun k => if (k =? a)%nat then x k else 0) <$> seq s len)
  = if ((s <=? a) && (a <? s + len))%nat then x a else 0.
Proof.
  revert s. induction len as [|len IH]; intros s; simpl.
  - destruct (Nat.leb_spec s a), (Nat.ltb_spec a (s + 0)); simpl; try reflexivity; lia.
  - change (foldr Rplus 0 ?l) with (total l). rewrite IH.
    destruct (Nat.eqb_spec s a) as [->|Hne].
    + destruct (Nat.leb_spec (S a) a); [lia|]. simpl.
      destruct (Nat.leb_spec a a); [|lia].
      destruct (Nat.ltb_spec a (a + S len)); [|lia]. simpl. lra.
    + destruct (Nat.leb_spec (S s) a), (Nat.leb_spec s a),
        (Nat.ltb_spec a (S s + len)), (Nat.ltb_spec a (s + S len));
        simpl; try lra; lia.
Qed.

Ltac cases_nat :=
  repeat match goal with
  | |- context [(?a =? ?b)%nat] => destruct (Nat.eqb_spec a b); try lia
  | |- context [(?a <? ?b)%nat] => destruct (Nat.ltb_spec a b); try lia
  | |- context [(?a <=? ?b)%nat] => destruct (Nat.leb_spec a b); try lia
  end.

Lemma stencil_sum_three (b : boundary) (n j : nat) (v : nat -> R)
    (L Rr : nat) (cL cR : R) :
  (forall k, (k < n)%nat ->
     IZR (stencil b n j k)
     = (if (k =? j)%nat then -2 else 0)
       + ((if (k =? L)%nat then cL else 0)
          + (if (k =? Rr)%nat then cR else 0))) ->
  (L < n)%nat -> (Rr < n)%nat -> (j < n)%nat ->
  total ((fun k => IZR (stencil b n j k) * v k) <$> seq 0 n)
  = cL * v L + cR * v Rr - 2 * v j.
Proof.
  intros H HL HR Hj.
  rewrite (total_ext _
             (fun k => (if (k =? j)%nat then -2 * v k else 0)
                       + ((if (k =? L)%nat then cL * v k else 0)
                          + (if (k =? Rr)%nat then cR * v k else 0)))).
  - rewrite !total_plus, !total_single. simpl. cases_nat. simpl. lra.
  - intros k Hk. apply elem_of_seq in Hk. rewrite H by lia.
    cases_nat; lra.
Qed.

Lemma stencil_sum (b : boundary) (n j : nat) (v : nat -> R) :
  (2 <= n)%nat -> (j < n)%nat ->
  total ((fun k => IZR (stencil b n j k) * v k) <$> seq 0 n)
  = second_difference b n v j.
Proof.
  intros Hn Hj. unfold second_difference.
  destruct b; destruct (Nat.eqb_spec j 0) as [E0|E0];
    destruct (Nat.eqb_spec j (n - 1)) as [E1|E1].
  - lia.
  - rewrite (stencil_sum_three _ _ _ _ 0%nat (j + 1)%nat 0 1); [lra| |lia..].
    intros k Hk. unfold stencil. cases_nat; simpl; lra.
  - rewrite (stencil_sum_three _ _ _ _ (j - 1)%nat 0%nat 1 0); [lra| |lia..].
    intros k Hk. unfold stencil. cases_nat; simpl; lra.
  - rewrite (stencil_sum_three _ _ _ _ (j - 1)%nat (j + 1)%nat 1 1);
      [lra| |lia..].
    intros k Hk. unfold stencil. cases_nat; simpl; lra.
  - lia.
  - rewrite (stencil_sum_three _ _ _ _ 1%nat (j + 1)%nat 1 1); [lra| |lia..].
    intros k Hk. unfold stencil. cases_nat; simpl; lra.
  - rewrite (stencil_sum_three _ _ _ _ (j - 1)%nat (n - 2)%nat 1 1);
      [lra| |lia..].
    intros k Hk. unfold stencil. cases_nat; simpl; lra.
  - rewrite (stencil_sum_three _ _ _ _ (j - 1)%nat (j + 1)%nat 1 1);
      [lra| |lia..].
    intros k Hk. unfold stencil. cases_nat; simpl; lra.
Qed.

Lemma imap_seq_lookup (f : nat -> R -> R) (l : list R) :
  imap f l = (fun k => f k (default 0 (l !! k))) <$> seq 0 (length l).
Proof.
  revert f. induction l as [|x l IH]; intros f; [reflexivity|].
  rewrite imap_cons, IH. cbn [length seq]. rewrite fmap_cons.
  f_equal. rewrite <- fmap_S_seq, <- list_fmap_compose. reflexivity.
Qed.

Lemma flatten_lookup (n : nat) (U : field) :
  Forall (fun r => length r = n) U ->
  forall i j, (j < n)%nat ->
    default 0 (flatten U !! (i * n + j)%nat) = value U i j.
Proof.
  unfold flatten, value, at_point.
  induction 1 as [|r U Hr HU IH]; intros i j Hj; [reflexivity|].
  cbn [concat]. destruct i as [|i].
  - rewrite lookup_app_l by lia. simpl. destruct (r !! j); reflexivity.
  - rewrite lookup_app_r by (rewrite Hr; lia).
    replace (S i * n + j - length r)%nat with (i * n + j)%nat
      by (rewrite Hr; lia).
    rewrite IH by exact Hj. reflexivity.
Qed.

Lemma total_square (g : nat -> R) (n m : nat) :
  total (g <$> seq 0 (m * n))
  = total ((fun i => total ((fun j => g (i * n + j)%nat) <$> seq 0 n))
             <$> seq 0 m).
Proof.
  induction m as [|m IH]; [reflexivity|].
  replace (S m * n)%nat with (m * n + n)%nat by lia.
  rewrite seq_app, seq_S, !fmap_app, !total_app, IH. cbn [fmap list_fmap total foldr].
  rewrite !Nat.add_0_l.
  replace (seq (m * n) n) with (Nat.add (m * n) <$> seq 0 n)
    by (rewrite fmap_add_seq; f_equal; lia).
  rewrite <- list_fmap_compose. unfold compose. lra.
Qed.

Lemma laplacian_at (D : matrix) (n : nat) (U : field) :
  nrows D = (n * n)%nat -> ncols D = (n * n)%nat -> square_shape n U ->
  exists L,
    laplacian D U = Ok L /\ square_shape n L
    /\ forall i j, (i < n)%nat -> (j < n)%nat ->
         at_point L i j
         = Some (total
                   ((fun i' =>
                       total ((fun j' =>
                                 IZR (entry D (i * n + j) (i' * n + j'))
                                 * value U i' j') <$> seq 0 n))
                      <$> seq 0 n)).
Proof.
  intros Hr Hc HU.
  destruct (laplacian_square D n U Hr Hc HU) as (L & HL & HLs).
  exists L. split; [exact HL|]. split; [exact HLs|].
  intros i j Hi Hj.
  unfold laplacian, matvec in HL.
  rewrite (shape_square n U HU) in HL.
  destruct HU as [HU1 HU2].
  rewrite (flatten_length n U HU2), HU1, Hc, Nat.eqb_refl in HL.
  cbn [rbind] in HL. unfold reshape in HL.
  rewrite length_fmap, length_seq, Hr, Nat.eqb_refl in HL.
  injection HL as <-.
  unfold at_point. rewrite list_lookup_fmap, lookup_seq_lt by exact Hi.
  cbn [fmap option_fmap option_map mbind option_bind].
  rewrite lookup_take_lt by exact Hj.
  rewrite lookup_drop, list_lookup_fmap, lookup_seq_lt by nia.
  cbn [fmap option_fmap option_map]. f_equal.
  rewrite imap_seq_lookup, (flatten_length n U HU2), HU1.
  change (foldr Rplus 0 ?l) with (total l).
  rewrite (total_square _ n n).
  apply total_ext. intros i' Hi'. apply total_ext. intros j' Hj'.
  apply elem_of_seq in Hj'. rewrite (flatten_lookup n U HU2) by lia.
  rewrite Nat.add_0_l. reflexivity.
Qed.

Lemma kronsum_apply (b : boundary) (n : nat) (u : nat -> nat -> R)
    (i j : nat) :
  (2 <= n)%nat -> (i < n)%nat -> (j < n)%nat ->
  total
    ((fun i' =>
        total ((fun j' =>
                  IZR (delta n i i' * stencil b n j j'
                       + stencil b n i i' * delta n j j')
                  * u i' j') <$> seq 0 n)) <$> seq 0 n)
  = second_difference b n (fun i' => u i' j) i
    + second_difference b n (fun j' => u i j') j.
Proof.
  intros Hn Hi Hj.
  rewrite (total_ext _
             (fun i' =>
                (if (i' =? i)%nat
                 then total ((fun j' => IZR (stencil b n j j') * u i' j')
                               <$> seq 0 n)
                 else 0)
                + IZR (stencil b n i i') * u i' j)).
  - rewrite total_plus, total_single, !stencil_sum by assumption.
    cases_nat. simpl. apply Rplus_comm.
  - intros i' Hi'. apply elem_of_seq in Hi'.
    rewrite (total_ext _
               (fun j' =>
                  IZR (delta n i i') * (IZR (stencil b n j j') * u i' j')
                  + (if (j' =? j)%nat
                     then IZR (stencil b n i i') * u i' j' else 0))).
    + rewrite total_plus, total_scale, total_single.
      unfold delta. cases_nat; simpl; lra.
    + intros j' Hj'. apply elem_of_seq in Hj'.
      rewrite plus_IZR, !mult_IZR. unfold delta. cases_nat; simpl; lra.
Qed.

(** The five-point formula at every grid point *)
Lemma laplacian_five_point (b : boundary) (N : Z) (D : matrix) (U : field) :
  (1 <= N)%Z -> D2 b N = Ok D -> square_shape (Z.to_nat (N + 1)) U ->
  exists L,
    laplacian D U = Ok L
    /\ square_shape (Z.to_nat (N + 1)) L
    /\ (forall i j : nat, (Z.of_nat i <= N)%Z -> (Z.of_nat j <= N)%Z ->
          at_point L i j = Some (five_point b (Z.to_nat (N + 1)) U i j)).
Proof.
  intros HN HD' HU.
  destruct (D2_ok b N HN) as (D' & HD & Hr & Hc & He).
  rewrite HD' in HD. injection HD as <-.
  destruct (laplacian_at D _ U Hr Hc HU) as (L & HL & HLs & Hat).
  exists L. split; [exact HL|]. split; [exact HLs|].
  set (n := Z.to_nat (N + 1)) in *.
  assert (Hn : (2 <= n)%nat) by (unfold n; lia).
  intros i j Hi Hj.
  rewrite Hat by (unfold n; lia). f_equal.
  unfold five_point. rewrite <- kronsum_apply by (unfold n; lia).
  apply total_ext. intros i' Hi'. apply total_ext. intros j' Hj'.
  apply elem_of_seq in Hi', Hj'. rewrite He. fold n.
  rewrite !Nat.div_add_l, !Nat.div_small, !Nat.add_0_r by lia.
  rewrite !(Nat.add_comm (_ * n)), !Nat.Div0.mod_add, !Nat.mod_small by lia.
  reflexivity.
Qed.

(** ** One step at a grid point *)

Lemma at_point_zip_with (f : R -> R -> R) (U V : field) (i j : nat) :
  at_point (zip_with (zip_with f) U V) i j
  = match at_point U i j, at_point V i j with
    | Some u, Some v => Some (f u v)
    | _, _ => None
    end.
Proof.
  unfold at_point. rewrite lookup_zip_with.
  destruct (U !! i) as [u|], (V !! i) as [v|]; simpl; try reflexivity.
  - rewrite lookup_zip_with.
    destruct (u !! j), (v !! j); reflexivity.
  - destruct (u !! j); reflexivity.
Qed.

Lemma at_point_fscale (a : R) (U : field) (i j : nat) :
  at_point (fscale a U) i j = Rmult a <$> at_point U i j.
Proof.
  unfold at_point, fscale. rewrite list_lookup_fmap.
  destruct (U !! i) as [u|]; simpl; [|reflexivity].
  rewrite list_lookup_fmap. reflexivity.
Qed.

Lemma at_point_square (n : nat) (U : field) (i j : nat) :
  square_shape n U -> (i < n)%nat -> (j < n)%nat ->
  at_point U i j = Some (value U i j).
Proof.
  intros [H1 H2] Hi Hj. unfold value, at_point.
  destruct (lookup_lt_is_Some_2 U i ltac:(lia)) as [u Hu]. rewrite Hu. simpl.
  rewrite Forall_lookup in H2.
  destruct (lookup_lt_is_Some_2 u j ltac:(rewrite (H2 _ _ Hu); lia))
    as [x Hx].
  rewrite Hx. reflexivity.
Qed.

Lemma zero_edges_at (n : nat) (U : field) (i j : nat) :
  square_shape n U -> (i < n)%nat -> (j < n)%nat ->
  at_point (zero_edges U) i j
  = Some (if on_edge n i j then 0 else value U i j).
Proof.
  intros HU Hi Hj. pose proof (at_point_square n U i j HU Hi Hj) as Hv.
  destruct HU as [H1 H2]. unfold at_point in *. unfold zero_edges.
  rewrite list_lookup_imap.
  destruct (U !! i) as [u|]; simpl in *; [|discriminate].
  rewrite list_lookup_imap, Hv. simpl. rewrite H1. reflexivity.
Qed.

Lemma field_ext (n : nat) (U V : field) :
  square_shape n U -> square_shape n V ->
  (forall i j, (i < n)%nat -> (j < n)%nat -> at_point U i j = at_point V i j) ->
  U = V.
Proof.
  intros [HU1 HU2] [HV1 HV2] H. apply list_eq. intros i.
  destruct (Nat.lt_ge_cases i n) as [Hi|Hi].
  - destruct (lookup_lt_is_Some_2 U i ltac:(lia)) as [u Hu].
    destruct (lookup_lt_is_Some_2 V i ltac:(lia)) as [v Hv].
    rewrite Hu, Hv. f_equal. apply list_eq. intros j.
    rewrite Forall_lookup in HU2, HV2.
    destruct (Nat.lt_ge_cases j n) as [Hj|Hj].
    + specialize (H i j Hi Hj). unfold at_point in H. rewrite Hu, Hv in H.
      exact H.
    + rewrite !lookup_ge_None_2; [reflexivity|..].
      * rewrite (HV2 _ _ Hv). lia.
      * rewrite (HU2 _ _ Hu). lia.
  - rewrite !lookup_ge_None_2 by lia. reflexivity.
Qed.

Lemma leapfrog_at (b : boundary) (N : Z) (D : matrix) (C : R)
    (Up Uc : field) :
  (1 <= N)%Z -> D2 b N = Ok D ->
  square_shape (Z.to_nat (N + 1)) Up -> square_shape (Z.to_nat (N + 1)) Uc ->
  exists Un,
    leapfrog b D C (Up, Uc) = Ok (Uc, Un)
    /\ square_shape (Z.to_nat (N + 1)) Un
    /\ forall i j : nat, (Z.of_nat i <= N)%Z -> (Z.of_nat j <= N)%Z ->
         value Un i j
         = match b with
           | Dirichlet =>
               if on_edge (Z.to_nat (N + 1)) i j then 0
               else 2 * value Uc i j - value Up i j
                    + C ^ 2 * five_point b (Z.to_nat (N + 1)) Uc i j
           | Neumann =>
               2 * value Uc i j - value Up i j
               + C ^ 2 * five_point b (Z.to_nat (N + 1)) Uc i j
           end.
Proof.
  intros HN HD HUp HUc.
  destruct (laplacian_five_point b N D Uc HN HD HUc) as (L & HL & HLs & HLat).
  set (n := Z.to_nat (N + 1)) in *.
  set (W := fadd (fsub (fscale 2 Uc) Up) (fscale (C ^ 2) L)).
  assert (HW : square_shape n W).
  { unfold W, fadd, fsub, fscale.
    apply zip_with_square; [apply zip_with_square|];
      try apply fmap_square; assumption. }
  assert (HWat : forall i j : nat, (i < n)%nat -> (j < n)%nat ->
            value W i j = 2 * value Uc i j - value Up i j
                          + C ^ 2 * five_point b n Uc i j).
  { intros i j Hi Hj. unfold value at 1. unfold W, fadd, fsub.
    rewrite !at_point_zip_with, !at_point_fscale.
    rewrite (at_point_square n Uc i j), (at_point_square n Up i j),
      HLat by (assumption || (unfold n in *; lia)).
    reflexivity. }
  exists (enforce b W). split.
  - unfold leapfrog. rewrite HL. reflexivity.
  - split; [apply enforce_square; exact HW|].
    intros i j Hi Hj. destruct b; simpl.
    + unfold value at 1. rewrite (zero_edges_at n) by (assumption || (unfold n; lia)).
      simpl. destruct (on_edge n i j); [reflexivity|].
      apply HWat; unfold n; lia.
    + apply HWat; unfold n; lia.
Qed.

(** ** What [lambdify] returns, point by point *)

Lemma lambdify_at (e : expr) (N : Z) (t : R) (i j : nat) (xi yj : R) :
  grid N !! i = Some xi -> grid N !! j = Some yj ->
  broadcast_at
    (lambdify e (fst (meshgrid_ij (grid N) (grid N)))
       (snd (meshgrid_ij (grid N) (grid N))) t) i j
  = Some (eval e xi yj t).
Proof.
  intros Hi Hj. destruct e as [v|f]; [reflexivity|].
  unfold lambdify, broadcast_at, at_point, meshgrid_ij. cbn [fst snd eval].
  rewrite lookup_zip_with, !list_lookup_fmap, Hi. simpl.
  rewrite lookup_zip_with, list_lookup_fmap, Hj. simpl. reflexivity.
Qed.

(** [l2_error] compares with the lambdified exact solution, whatever
    the mode numbers. *)
Lemma l2_error_compares (b : boundary) (N : Z) (c : R) (mx my : Z)
    (u : pyvalue) (t0 : R) (s : Solver) :
  self_c s = Some c -> self_mx s = Some mx -> self_my s = Some my ->
  self_xij s = Some (fst (meshgrid_ij (grid N) (grid N))) ->
  self_yij s = Some (snd (meshgrid_ij (grid N) (grid N))) ->
  exists E,
    l2_error b u t0 s = (Ok (sqrt (vmean (vsquare (vsub u E)))), s)
    /\ forall i j xi yj,
         grid N !! i = Some xi -> grid N !! j = Some yj ->
         broadcast_at E i j = Some (standing_wave b c mx my xi yj t0).
Proof.
  intros Hcs Hmx Hmy HX HY.
  destruct (ue_eval b c mx my s Hcs Hmx Hmy) as (e & He & Heval).
  exists (lambdify e (fst (meshgrid_ij (grid N) (grid N)))
            (snd (meshgrid_ij (grid N) (grid N))) t0).
  split.
  - unfold l2_error.
    erewrite bind_ok by (unfold getattr; rewrite Hmx; reflexivity).
    erewrite bind_ok by (unfold getattr; rewrite Hmy; reflexivity).
    erewrite bind_ok by exact He.
    erewrite bind_ok by (unfold getattr; rewrite HX; reflexivity).
    erewrite bind_ok by (unfold getattr; rewrite HY; reflexivity).
    reflexivity.
  - intros i j xi yj Hi Hj.
    rewrite (lambdify_at e N t0 i j xi yj Hi Hj), Heval. reflexivity.
Qed.

(** ** The binary64 value of pi *)



(** * Properties of the specification *)

(** [c * dt / dx = cfl] on the uniform grid *)
Lemma courant_number (N : Z) (cfl c : R) :
  (1 <= N)%Z -> c <> 0 -> c * step_size cfl c N / (1 / IZR N) = cfl.
Proof.
  intros HN Hc. unfold step_size.
  assert (IZR N <> 0) by (apply not_0_IZR; lia).
  rewrite Rmin_left by lra. field. split; assumption.
Qed.

Lemma leapfrog_unfold (b : boundary) (D : matrix) (C : R)
    (p q : field * field) :
  leapfrog b D C p = Ok q ->
  exists L,
    laplacian D (snd p) = Ok L
    /\ q = (snd p,
            enforce b (fadd (fsub (fscale 2 (snd p)) (fst p))
                         (fscale (C ^ 2) L))).
Proof.
  destruct p as [Up Uc]. unfold leapfrog. cbn [fst snd].
  destruct (laplacian D Uc) as [L|]; [|discriminate].
  unfold rbind. intros H. injection H as <-. exists L. auto.
Qed.

(** C1, as stated, fails: for mode numbers that make the exact solution
    a constant (here the Dirichlet mode (0, 3), identically zero)
    [lambdify] returns a number, and the first pass of the time loop
    raises [AttributeError] at [self.un.reshape(-1)]: no step is taken. *)
Lemma C1_constant_mode_takes_no_step :
  fst (call Dirichlet 2 1 (1/2) 1 0 3 (-1) new) = Raise AttributeError.
Proof.
  rewrite (call_constant Dirichlet 2 (1/2) 1 0 3);
    [reflexivity | lia | lra | simpl; tauto].
Qed.

(** C1, amended: for every run with N >= 1, Nt >= 1, cfl > 0, c > 0 and
    mode numbers that leave the exact solution a function of [x] or [y],
    the call goes through pairs (previous, current) [T 0 .. T Nt]: [T 0]
    is the initial pair; each [T (k+1)] comes from [T k] by
    U_next = 2*U_curr - U_prev + cfl^2 * (Laplacian U_curr) followed by the
    boundary enforcement of the class and the rotation, which at grid
    point (i, j) is the five-point formula (zero on the edges for the
    Dirichlet class); the instance ends with [T Nt] in [unm1] and [un];
    and [c*dt/dx = cfl]. *)
Theorem C1_leapfrog_recurrence (b : boundary) (N Nt : Z) (cfl c : R)
    (mx my store_data : Z) (s : Solver) :
  (1 <= N)%Z -> (1 <= Nt)%Z -> 0 < cfl -> 0 < c -> symbolic b mx my ->
  exists (D : matrix) (T : nat -> field * field) (out : output) (s' : Solver),
    D2 b N = Ok D
    /\ T 0%nat = (exact_field b N c mx my (- step_size cfl c N),
                  exact_field b N c mx my 0)
    /\ (forall k, exists L,
          laplacian D (snd (T k)) = Ok L
          /\ T (S k)
             = (snd (T k),
                enforce b (fadd (fsub (fscale 2 (snd (T k))) (fst (T k)))
                             (fscale (cfl ^ 2) L))))
    /\ (forall k (i j : nat), (Z.of_nat i <= N)%Z -> (Z.of_nat j <= N)%Z ->
          value (snd (T (S k))) i j
          = match b with
            | Dirichlet =>
                if on_edge (Z.to_nat (N + 1)) i j then 0
                else 2 * value (snd (T k)) i j - value (fst (T k)) i j
                     + cfl ^ 2
                       * five_point b (Z.to_nat (N + 1)) (snd (T k)) i j
            | Neumann =>
                2 * value (snd (T k)) i j - value (fst (T k)) i j
                + cfl ^ 2 * five_point b (Z.to_nat (N + 1)) (snd (T k)) i j
            end)
    /\ call b N Nt cfl c mx my store_data s = (Ok out, s')
    /\ self_unm1 s' = Some (Array (fst (T (Z.to_nat Nt))))
    /\ self_un s' = Some (Array (snd (T (Z.to_nat Nt))))
    /\ c * step_size cfl c N / (1 / IZR N) = cfl.
Proof.
  intros HN HNt Hcfl Hc Hsym.
  assert (Hc0 : c <> 0) by lra.
  destruct (call_run b N cfl c mx my HN Hc0 Hsym Nt store_data s)
    as (D & HD & Hshape & Hstep & Hcall).
  exists D,
    (trajectory b D cfl
       (exact_field b N c mx my (- step_size cfl c N),
        exact_field b N c mx my 0)).
  eexists. eexists.
  split; [exact HD|]. split; [reflexivity|].
  split; [|split; [|split; [exact Hcall|]]].
  - intros k. apply leapfrog_unfold with (C := cfl). apply Hstep.
  - intros k i j Hi Hj.
    destruct (Hshape k) as [HUp HUc].
    destruct (leapfrog_at b N D cfl _ _ HN HD HUp HUc)
      as (Un & HL & _ & Hat).
    rewrite <- surjective_pairing, Hstep in HL.
    assert (E : forall p q : field * field, Ok p = Ok q -> snd p = snd q)
      by (intros p q [= ->]; reflexivity).
    rewrite (E _ _ HL). apply Hat; assumption.
  - split; [reflexivity|]. split; [reflexivity|].
    apply courant_number; assumption.
Qed.

(** The recurrence on a 5 x 5 grid, three steps of the Dirichlet
    mode (1, 2) *)
Lemma C1_leapfrog_recurrence_witness :
  exists (D : matrix) (T : nat -> field * field) (out : output) (s' : Solver),
    D2 Dirichlet 4 = Ok D
    /\ T 0%nat = (exact_field Dirichlet 4 1 1 2 (- step_size (1/2) 1 4),
                  exact_field Dirichlet 4 1 1 2 0)
    /\ (forall k, exists L,
          laplacian D (snd (T k)) = Ok L
          /\ T (S k)
             = (snd (T k),
                enforce Dirichlet
                  (fadd (fsub (fscale 2 (snd (T k))) (fst (T k)))
                     (fscale ((1/2) ^ 2) L))))
    /\ (forall k (i j : nat), (Z.of_nat i <= 4)%Z -> (Z.of_nat j <= 4)%Z ->
          value (snd (T (S k))) i j
          = if on_edge (Z.to_nat (4 + 1)) i j then 0
            else 2 * value (snd (T k)) i j - value (fst (T k)) i j
                 + (1/2) ^ 2
                   * five_point Dirichlet (Z.to_nat (4 + 1)) (snd (T k)) i j)
    /\ call Dirichlet 4 3 (1/2) 1 1 2 (-1) new = (Ok out, s')
    /\ self_unm1 s' = Some (Array (fst (T (Z.to_nat 3))))
    /\ self_un s' = Some (Array (snd (T (Z.to_nat 3))))
    /\ 1 * step_size (1/2) 1 4 / (1 / IZR 4) = 1/2.
Proof.
  apply (C1_leapfrog_recurrence Dirichlet 4 3 (1/2) 1 1 2 (-1) new);
    [lia | lia | lra | lra | simpl; lia].
Defined.

(** Every valid call returns normally, with an output that is a function
    of the parameters alone. *)
Lemma call_valid (b : boundary) (N : Z) (cfl c : R) (mx my : Z) :
  (1 <= N)%Z -> c <> 0 -> symbolic b mx my ->
  exists D,
    D2 b N = Ok D /\
    let T := trajectory b D cfl
               (exact_field b N c mx my (- step_size cfl c N),
                exact_field b N c mx my 0) in
    (forall k, square_shape (Z.to_nat (N + 1)) (fst (T k))
               /\ square_shape (Z.to_nat (N + 1)) (snd (T k)))
    /\ (forall k, leapfrog b D cfl (T k) = Ok (T (S k)))
    /\ forall Nt store_data s, exists s',
         call b N Nt cfl c mx my store_data s
         = (Ok (call_output b N cfl c mx my T Nt store_data), s').
Proof.
  intros HN Hc Hsym.
  destruct (call_run b N cfl c mx my HN Hc Hsym 0 0 new)
    as (D & HD & HT & Hstep & _).
  exists D. split; [exact HD|]. intros T.
  split; [exact HT|]. split; [exact Hstep|].
  intros Nt store_data s.
  destruct (call_run b N cfl c mx my HN Hc Hsym Nt store_data s)
    as (D' & HD' & _ & _ & Hcall).
  rewrite HD in HD'. injection HD' as <-.
  eexists. exact Hcall.
Qed.

(** A call that takes no step returns in error mode, whatever the mode
    numbers. *)
Lemma call_without_steps (b : boundary) (N Nt : Z) (cfl c : R) (mx my : Z)
    (s : Solver) :
  (1 <= N)%Z -> (Nt <= 0)%Z -> c <> 0 ->
  fst (call b N Nt cfl c mx my (-1) s) = Ok (Pair (1 / IZR N) (Some [])).
Proof.
  intros HN HNt Hc.
  destruct (symbolic_dec b mx my) as [Hsym|Hconst].
  - destruct (call_valid b N cfl c mx my HN Hc Hsym) as (D & _ & _ & _ & Hcall).
    destruct (Hcall Nt (-1)%Z s) as [s' ->]. cbn [fst].
    unfold call_output.
    change (0 <? -1)%Z with false. change (-1 =? -1)%Z with true.
    replace (Z.to_nat Nt) with 0%nat by lia. reflexivity.
  - rewrite (call_constant b N cfl c mx my HN Hc Hconst).
    change (0 <? -1)%Z with false. change (-1 =? -1)%Z with true.
    destruct (Z.leb_spec 1 Nt); [lia|reflexivity].
Qed.

(** What a call returns or raises does not depend on the instance. *)
Lemma call_state_free (b : boundary) (N Nt : Z) (cfl c : R)
    (mx my store_data : Z) (s1 s2 : Solver) :
  fst (call b N Nt cfl c mx my store_data s1)
  = fst (call b N Nt cfl c mx my store_data s2).
Proof.
  destruct (Z_le_gt_dec 1 N) as [HN|HN];
    [destruct (Req_EM_T c 0) as [Hc|Hc];
     [|destruct (symbolic_dec b mx my) as [Hsym|Hconst]]|].
  - destruct (call_invalid b N Nt cfl c mx my store_data (or_intror Hc))
      as (e & He & _).
    rewrite (He s1), (He s2). reflexivity.
  - destruct (call_valid b N cfl c mx my HN Hc Hsym) as (D & _ & _ & _ & Hcall).
    destruct (Hcall Nt store_data s1) as [s1' ->].
    destruct (Hcall Nt store_data s2) as [s2' ->]. reflexivity.
  - rewrite !(call_constant b N cfl c mx my HN Hc Hconst). reflexivity.
  - assert (HN0 : (N <= 0)%Z) by lia.
    destruct (call_invalid b N Nt cfl c mx my store_data (or_introl HN0))
      as (e & He & _).
    rewrite (He s1), (He s2). reflexivity.
Qed.

(** A call that returns was made with a wave speed and mode numbers for
    which the exact solution is an array. *)
Lemma call_returns_data (b : boundary) (N Nt : Z) (cfl c : R)
    (mx my k : Z) (s s' : Solver) (data : gmap Z field) :
  (1 <= N)%Z -> (0 < k)%Z ->
  call b N Nt cfl c mx my k s = (Ok (Data data), s') ->
  c <> 0 /\ symbolic b mx my.
Proof.
  intros HN Hk Hcall. split.
  - intros Hc.
    destruct (call_invalid b N Nt cfl c mx my k (or_intror Hc))
      as (e & He & _).
    specialize (He s). rewrite Hcall in He. discriminate.
  - destruct (symbolic_dec b mx my) as [Hsym|Hconst]; [exact Hsym|exfalso].
    destruct (Req_EM_T c 0) as [Hc|Hc].
    + destruct (call_invalid b N Nt cfl c mx my k (or_intror Hc))
        as (e & He & _).
      specialize (He s). rewrite Hcall in He. discriminate.
    + pose proof (call_constant b N cfl c mx my HN Hc Hconst Nt k s) as H.
      rewrite Hcall in H. destruct (Z.ltb_spec 0 k); [|lia].
      discriminate.
Qed.

Lemma error_history_lookup (b : boundary) (N : Z) (cfl c : R) (mx my : Z)
    (T : nat -> field * field) (Nt n : Z) :
  (1 <= n <= Nt)%Z ->
  (error_at b N cfl c mx my T <$> seq 1 (Z.to_nat Nt)) !! Z.to_nat (n - 1)
  = Some (rms_diff (snd (T (Z.to_nat n)))
            (exact_field b N c mx my (IZR n * step_size cfl c N))).
Proof.
  intros Hn. rewrite list_lookup_fmap, lookup_seq_lt by lia. simpl.
  unfold error_at.
  replace (S (Z.to_nat (n - 1))) with (Z.to_nat n) by lia.
  rewrite Z2Nat.id by lia. reflexivity.
Qed.

(** C2, as stated, fails: for mode numbers that make the exact solution
    a constant (the Dirichlet mode (0, 3)) neither mode returns: error
    mode raises [AttributeError] at [self.un.reshape(-1)], snapshot mode
    at [self.unm1.copy()]. *)
Lemma C2_constant_mode_returns_nothing :
  fst (call Dirichlet 2 1 (1/2) 1 0 3 (-1) new) = Raise AttributeError
  /\ fst (call Dirichlet 2 1 (1/2) 1 0 3 1 new) = Raise AttributeError.
Proof.
  split; rewrite (call_constant Dirichlet 2 (1/2) 1 0 3);
    first [reflexivity | lia | lra | simpl; tauto].
Qed.

(** C2, amended: for N >= 1 and Nt >= 1, a wave speed the time step can
    be divided by and mode numbers that leave the exact solution a
    function of [x] or [y], a call with [store_data = -1] returns the pair
    [(dx, errs)]: [errs] has length Nt and its entry n is the
    root-mean-square difference between the field after step n and the
    exact field at time n*dt; a call with [store_data = k > 0] returns a
    dictionary whose keys are 0 and the n in [1, Nt] with n mod k = 0. *)
Theorem C2_mode_exclusivity (b : boundary) (N Nt : Z) (cfl c : R)
    (mx my : Z) (s : Solver) :
  (1 <= N)%Z -> (1 <= Nt)%Z -> c <> 0 -> symbolic b mx my ->
  exists (D : matrix) (T : nat -> field * field),
    D2 b N = Ok D
    /\ T 0%nat = (exact_field b N c mx my (- step_size cfl c N),
                  exact_field b N c mx my 0)
    /\ (forall k, leapfrog b D cfl (T k) = Ok (T (S k)))
    /\ (exists errs s',
          call b N Nt cfl c mx my (-1) s
          = (Ok (Pair (1 / IZR N) (Some errs)), s')
          /\ Z.of_nat (length errs) = Nt
          /\ forall n, (1 <= n <= Nt)%Z ->
               errs !! Z.to_nat (n - 1)
               = Some (rms_diff (snd (T (Z.to_nat n)))
                         (exact_field b N c mx my
                            (IZR n * step_size cfl c N))))
    /\ (forall k, (0 < k)%Z ->
          exists data s',
            call b N Nt cfl c mx my k s = (Ok (Data data), s')
            /\ forall m, m ∈ dom data
                 <-> m = 0%Z \/ ((1 <= m <= Nt)%Z /\ (m mod k = 0)%Z)).
Proof.
  intros HN HNt Hc Hsym.
  destruct (call_valid b N cfl c mx my HN Hc Hsym)
    as (D & HD & _ & Hstep & Hcall).
  exists D,
    (trajectory b D cfl
       (exact_field b N c mx my (- step_size cfl c N),
        exact_field b N c mx my 0)).
  split; [exact HD|]. split; [reflexivity|].
  split; [exact Hstep|]. split.
  - destruct (Hcall Nt (-1)%Z s) as [s' Hs'].
    eexists. exists s'. split; [exact Hs'|]. split.
    + rewrite length_fmap, length_seq. lia.
    + intros n Hn. apply error_history_lookup. exact Hn.
  - intros k Hk. destruct (Hcall Nt k s) as [s' Hs'].
    unfold call_output in Hs'.
    destruct (Z.ltb_spec 0 k) as [_|]; [|lia].
    eexists. exists s'. split; [exact Hs'|].
    intros m. rewrite snapshots_dom, dom_singleton_L, elem_of_singleton.
    split.
    + intros [->|(j & Hj & -> & Hmod)]; [left; reflexivity|].
      apply elem_of_seq in Hj. right. split; [lia|exact Hmod].
    + intros [->|[Hm Hmod]]; [left; reflexivity|].
      right. exists (Z.to_nat m). split; [apply elem_of_seq; lia|].
      split; [lia|exact Hmod].
Qed.

(** Both modes on a 3 x 3 Neumann grid, four steps *)
Lemma C2_mode_exclusivity_witness :
  exists (D : matrix) (T : nat -> field * field),
    D2 Neumann 2 = Ok D
    /\ T 0%nat = (exact_field Neumann 2 1 2 3 (- step_size (1/2) 1 2),
                  exact_field Neumann 2 1 2 3 0)
    /\ (forall k, leapfrog Neumann D (1/2) (T k) = Ok (T (S k)))
    /\ (exists errs s',
          call Neumann 2 4 (1/2) 1 2 3 (-1) new
          = (Ok (Pair (1 / IZR 2) (Some errs)), s')
          /\ Z.of_nat (length errs) = 4%Z
          /\ forall n, (1 <= n <= 4)%Z ->
               errs !! Z.to_nat (n - 1)
               = Some (rms_diff (snd (T (Z.to_nat n)))
                         (exact_field Neumann 2 1 2 3
                            (IZR n * step_size (1/2) 1 2))))
    /\ (forall k, (0 < k)%Z ->
          exists data s',
            call Neumann 2 4 (1/2) 1 2 3 k new = (Ok (Data data), s')
            /\ forall m, m ∈ dom data
                 <-> m = 0%Z \/ ((1 <= m <= 4)%Z /\ (m mod k = 0)%Z)).
Proof.
  apply (C2_mode_exclusivity Neumann 2 4 (1/2) 1 2 3 new);
    [lia | lia | lra | simpl; lia].
Defined.

(** C4, as stated, fails: with three points per axis the Neumann operator
    has the reflected entry 2 in row 0, column 1, facing the interior
    entry 1 in row 1, column 0. *)
Lemma C4_Neumann_operator_not_symmetric :
  exists D, D2 Neumann 2 = Ok D /\ ~ symmetric D.
Proof.
  destruct (D2_ok Neumann 2 ltac:(lia)) as (D & HD & Hr & Hc & _).
  exists D. split; [exact HD|]. intros Hsym.
  destruct (D2_Neumann_asymmetric 2 D ltac:(lia) HD) as [E1 E2].
  specialize (Hsym 0%nat 1%nat). rewrite Hr, Hc in Hsym.
  simpl in Hsym. specialize (Hsym ltac:(lia) ltac:(lia)).
  rewrite E1, E2 in Hsym. discriminate.
Qed.

(** C4, amended: for every N >= 1 the Dirichlet operator built by [D2] is
    symmetric; the Neumann operator is symmetric exactly when N = 1; for
    both classes every row has at most 5 nonzero entries, and the row of a
    grid point on an edge has at most 4. *)
Theorem C4_operator_symmetry_and_sparsity (N : Z) :
  (1 <= N)%Z ->
  (exists D, D2 Dirichlet N = Ok D /\ symmetric D)
  /\ (exists D, D2 Neumann N = Ok D /\ (symmetric D <-> N = 1%Z))
  /\ (forall b, exists D, D2 b N = Ok D /\
        forall r, (r < nrows D)%nat ->
          (nnz_row D r <= 5)%nat
          /\ (boundary_row (Z.to_nat (N + 1)) r -> (nnz_row D r <= 4)%nat)).
Proof.
  intros HN. split; [apply D2_Dirichlet_symmetric, HN|]. split.
  - destruct (D2_ok Neumann N HN) as (D & HD & Hr & Hc & _).
    exists D. split; [exact HD|]. split.
    + intros Hsym. destruct (Z.eq_dec N 1%Z) as [E|E]; [exact E|exfalso].
      destruct (D2_Neumann_asymmetric N D ltac:(lia) HD) as [E1 E2].
      specialize (Hsym 0%nat 1%nat). rewrite Hr, Hc in Hsym.
      rewrite E1, E2 in Hsym.
      assert (2 = 1)%Z; [apply Hsym; nia|discriminate].
    + intros ->. apply D2_Neumann_1_symmetric, HD.
  - intros b. apply D2_nnz, HN.
Qed.

(** The operators with three points per axis *)
Lemma C4_operator_symmetry_and_sparsity_witness :
  (exists D, D2 Dirichlet 2 = Ok D /\ symmetric D)
  /\ (exists D, D2 Neumann 2 = Ok D /\ (symmetric D <-> 2%Z = 1%Z))
  /\ (forall b, exists D, D2 b 2 = Ok D /\
        forall r, (r < nrows D)%nat ->
          (nnz_row D r <= 5)%nat
          /\ (boundary_row (Z.to_nat (2 + 1)) r -> (nnz_row D r <= 4)%nat)).
Proof. apply (C4_operator_symmetry_and_sparsity 2). lia. Defined.

(** C5, as stated, fails: with Nt = 0 (and N = 1) the call raises nothing;
    the time loop is empty and the call returns the spacing with an empty
    error sequence. *)
Lemma C5_zero_steps_is_not_rejected :
  fst (call Dirichlet 1 0 (1/2) 1 3 3 (-1) new) = Ok (Pair (1 / 1) (Some [])).
Proof.
  apply (call_without_steps Dirichlet 1 0 (1/2) 1 3 3 new); [lia | lia | lra].
Qed.

(** C5, amended: a call with N <= 0 raises an exception (the division by
    zero of [create_mesh] for N = 0, a [ValueError] of the array
    construction for N < -1) and so returns neither snapshots nor errors;
    a call with N >= 1 and Nt <= 0 is not rejected: the time loop is empty
    and the call returns [(dx, [])] in error mode and, for mode numbers
    that leave the exact solution a function of [x] or [y], the
    dictionary holding the step-0 field alone in snapshot mode. *)
Theorem C5_invalid_resolution_raises_empty_run_returns (b : boundary)
    (N Nt : Z) (cfl c : R) (mx my store_data : Z) (s : Solver) :
  ((N <= 0)%Z ->
   exists e,
     fst (call b N Nt cfl c mx my store_data s) = Raise e
     /\ (N = 0%Z -> e = ZeroDivisionError)
     /\ ((N < -1)%Z -> e = ValueError))
  /\ ((1 <= N)%Z -> (Nt <= 0)%Z -> c <> 0 ->
      fst (call b N Nt cfl c mx my (-1) s) = Ok (Pair (1 / IZR N) (Some []))
      /\ ((0 < store_data)%Z -> symbolic b mx my ->
          fst (call b N Nt cfl c mx my store_data s)
          = Ok (Data {[0%Z := exact_field b N c mx my
                                (- step_size cfl c N)]}))).
Proof.
  split.
  - intros HN.
    destruct (call_invalid b N Nt cfl c mx my store_data (or_introl HN))
      as (e & He & H0 & Hneg).
    exists e. split; [apply He|]. split; assumption.
  - intros HN HNt Hc. split.
    + apply call_without_steps; assumption.
    + intros Hk Hsym.
      destruct (call_valid b N cfl c mx my HN Hc Hsym)
        as (D & _ & _ & _ & Hcall).
      destruct (Hcall Nt store_data s) as [s' ->]. cbn [fst].
      unfold call_output. destruct (Z.ltb_spec 0 store_data); [|lia].
      replace (Z.to_nat Nt) with 0%nat by lia. reflexivity.
Qed.

(** A run with N = 0 and runs with Nt = 0 *)
Lemma C5_invalid_resolution_raises_empty_run_returns_witness :
  (exists e,
     fst (call Neumann 0 10 (1/2) 1 3 3 (-1) new) = Raise e
     /\ (0%Z = 0%Z -> e = ZeroDivisionError)
     /\ ((0 < -1)%Z -> e = ValueError))
  /\ fst (call Neumann 8 0 (1/2) 1 3 3 (-1) new)
     = Ok (Pair (1 / IZR 8) (Some []))
  /\ fst (call Neumann 8 0 (1/2) 1 3 3 2 new)
     = Ok (Data {[0%Z := exact_field Neumann 8 1 3 3
                           (- step_size (1/2) 1 8)]}).
Proof.
  split.
  - apply (C5_invalid_resolution_raises_empty_run_returns
             Neumann 0 10 (1/2) 1 3 3 (-1) new). lia.
  - destruct (C5_invalid_resolution_raises_empty_run_returns
                Neumann 8 0 (1/2) 1 3 3 2 new) as [_ H].
    destruct H as [H1 H2]; [lia | lia | lra |].
    split; [exact H1|]. apply H2; [lia | simpl; lia].
Defined.




(** C7: for every mode pair the expression [ue] returns denotes
    sin(mx*pi*x)*sin(my*pi*y)*cos(w*t) for the Dirichlet class and
    cos(mx*pi*x)*cos(my*pi*y)*cos(w*t) for the Neumann class, with
    w = c*pi*sqrt(mx^2 + my^2) read from the instance; [initialize]
    evaluates it at every grid point at the times 0 and -dt, and
    [l2_error], given a mesh-shaped array, compares it with the same
    expression evaluated at the time of the comparison. *)
Theorem C7_exact_standing_wave (b : boundary) (N : Z) (cfl c : R)
    (mx my : Z) (s : Solver) :
  (1 <= N)%Z -> 0 < c ->
  let wv := c * PI * sqrt (IZR (mx ^ 2 + my ^ 2)) in
  let exact : R -> R -> R -> R :=
    match b with
    | Dirichlet => fun x y t =>
        sin (IZR mx * PI * x) * sin (IZR my * PI * y) * cos (wv * t)
    | Neumann => fun x y t =>
        cos (IZR mx * PI * x) * cos (IZR my * PI * y) * cos (wv * t)
    end in
  let dt := step_size cfl c N in
  (forall s0, self_c s0 = Some c -> self_mx s0 = Some mx ->
     self_my s0 = Some my ->
     fst (w s0) = Ok wv
     /\ exists e, fst (ue b mx my s0) = Ok e
          /\ forall x y t, eval e x y t = exact x y t)
  /\ (self_cfl s = Some cfl -> self_c s = Some c ->
      exists un unm1 s',
        initialize b N mx my s = (Ok (un, unm1), s')
        /\ self_un s' = Some un /\ self_unm1 s' = Some unm1
        /\ (forall i j xi yj,
              grid N !! i = Some xi -> grid N !! j = Some yj ->
              broadcast_at un i j = Some (exact xi yj 0)
              /\ broadcast_at unm1 i j = Some (exact xi yj (- dt)))
        /\ forall (U : field) (t0 : R),
             square_shape (Z.to_nat (N + 1)) U ->
             exists E,
               l2_error b (Array U) t0 s'
               = (Ok (sqrt (vmean (vsquare (vsub (Array U) E)))), s')
               /\ forall i j xi yj,
                    grid N !! i = Some xi -> grid N !! j = Some yj ->
                    broadcast_at E i j = Some (exact xi yj t0)).
Proof.
  intros HN Hc wv exact dt.
  assert (Hc0 : c <> 0) by lra.
  assert (Eexact : exact = standing_wave b c mx my)
    by (destruct b; reflexivity).
  rewrite Eexact. split.
  - intros s0 H1 H2 H3. split.
    + rewrite (w_run c mx my s0 H1 H2 H3). reflexivity.
    + destruct (ue_eval b c mx my s0 H1 H2 H3) as (e & He & Heval).
      exists e. rewrite He. split; [reflexivity|exact Heval].
  - intros Hcfl Hcs.
    destruct (symbolic_dec b mx my) as [Hsym|Hconst].
    + rewrite (initialize_run b N cfl c mx my HN Hc0 Hsym s Hcfl Hcs).
      do 3 eexists. split; [reflexivity|].
      split; [reflexivity|]. split; [reflexivity|]. split.
      * intros i j xi yj Hi Hj. cbn [broadcast_at].
        rewrite !(exact_field_at _ _ _ _ _ _ _ _ _ _ Hi Hj). auto.
      * intros U t0 _.
        apply (l2_error_compares b N c mx my); reflexivity.
    + destruct (initialize_constant b N cfl c mx my HN Hc0 Hconst s Hcfl Hcs)
        as (s' & Hi & Hm1 & Hun & _ & _ & H1 & H2 & H3 & HX & HY).
      rewrite Hi. do 3 eexists. split; [reflexivity|].
      split; [exact Hun|]. split; [exact Hm1|].
      assert (Hv : forall x y t,
                standing_wave b c mx my x y t
                = standing_wave b c mx my 0 0 0).
      { intros x y t.
        destruct (ue_eval b c mx my s' H1 H2 H3) as (e & He & Heval).
        rewrite (ue_number b c mx my s' H1 H2 H3 Hconst) in He.
        injection He as <-. exact (eq_sym (Heval x y t)). }
      split.
      * intros i j xi yj _ _. cbn [broadcast_at].
        rewrite (Hv xi yj 0), (Hv xi yj (- dt)). auto.
      * intros U t0 _.
        apply (l2_error_compares b N c mx my); assumption.
Qed.

(** The Neumann mode (2, 3) with unit wave speed on a 3 x 3 grid *)
Lemma C7_exact_standing_wave_witness :
  let wv := 1 * PI * sqrt (IZR (2 ^ 2 + 3 ^ 2)) in
  let exact : R -> R -> R -> R := fun x y t =>
    cos (IZR 2 * PI * x) * cos (IZR 3 * PI * y) * cos (wv * t) in
  let dt := step_size (1/2) 1 2 in
  let s := snd (set_c 1 (snd (set_cfl (1/2) new))) in
  (forall s0, self_c s0 = Some 1 -> self_mx s0 = Some 2%Z ->
     self_my s0 = Some 3%Z ->
     fst (w s0) = Ok wv
     /\ exists e, fst (ue Neumann 2 3 s0) = Ok e
          /\ forall x y t, eval e x y t = exact x y t)
  /\ (self_cfl s = Some (1/2) -> self_c s = Some 1 ->
      exists un unm1 s',
        initialize Neumann 2 2 3 s = (Ok (un, unm1), s')
        /\ self_un s' = Some un /\ self_unm1 s' = Some unm1
        /\ (forall i j xi yj,
              grid 2 !! i = Some xi -> grid 2 !! j = Some yj ->
              broadcast_at un i j = Some (exact xi yj 0)
              /\ broadcast_at unm1 i j = Some (exact xi yj (- dt)))
        /\ forall (U : field) (t0 : R),
             square_shape (Z.to_nat (2 + 1)) U ->
             exists E,
               l2_error Neumann (Array U) t0 s'
               = (Ok (sqrt (vmean (vsquare (vsub (Array U) E)))), s')
               /\ forall i j xi yj,
                    grid 2 !! i = Some xi -> grid 2 !! j = Some yj ->
                    broadcast_at E i j = Some (exact xi yj t0)).
Proof.
  apply (C7_exact_standing_wave Neumann 2 (1/2) 1 2 3
           (snd (set_c 1 (snd (set_cfl (1/2) new))))); [lia | lra].
Defined.

(** ** The convergence driver *)

Lemma getitem_last (xs : list R) (x : R) :
  last xs = Some x -> getitem xs (-1) = Ok x.
Proof.
  intros Hx. unfold getitem.
  assert (Hlen : (0 < length xs)%nat).
  { destruct xs; [discriminate|simpl; lia]. }
  rewrite index_neg by lia. simpl.
  rewrite last_lookup in Hx.
  replace (Z.to_nat (-1 + Z.of_nat (length xs))) with (pred (length xs)) by lia.
  rewrite Hx. reflexivity.
Qed.

Lemma getitem_lookup (xs : list R) (i : Z) (x : R) :
  (0 <= i)%Z -> xs !! Z.to_nat i = Some x -> getitem xs i = Ok x.
Proof.
  intros Hi Hx. unfold getitem.
  apply lookup_lt_Some in Hx as Hlt.
  rewrite index_nonneg by lia. simpl. rewrite Hx. reflexivity.
Qed.

Lemma getitem_fmap_seq (g : nat -> R) (len : nat) (i : Z) :
  (0 <= i < Z.of_nat len)%Z ->
  getitem (g <$> seq 0 len) i = Ok (g (Z.to_nat i)).
Proof.
  intros Hi. apply getitem_lookup; [lia|].
  rewrite list_lookup_fmap, lookup_seq_lt by lia. reflexivity.
Qed.

Lemma call_error_mode (b : boundary) (N Nt : Z) (cfl c : R) (mx my : Z) :
  (1 <= N)%Z -> (1 <= Nt)%Z -> c <> 0 -> symbolic b mx my ->
  exists errs,
    (forall s, exists s',
        call b N Nt cfl c mx my (-1) s
        = (Ok (Pair (1 / IZR N) (Some errs)), s'))
    /\ Z.of_nat (length errs) = Nt
    /\ last errs = Some (final_error b N Nt cfl c mx my).
Proof.
  intros HN HNt Hc Hsym.
  destruct (call_valid b N cfl c mx my HN Hc Hsym) as (D & _ & _ & _ & Hcall).
  eexists. split; [intros s; apply (Hcall Nt (-1)%Z s)|].
  split; [rewrite length_fmap, length_seq; lia|].
  unfold final_error. destruct (Hcall Nt (-1)%Z new) as [s' ->].
  unfold call_output.
  change (0 <? -1)%Z with false. change (-1 =? -1)%Z with true. cbn [fst].
  destruct (last _) as [e|] eqn:El; [reflexivity|].
  apply last_None in El. apply (f_equal length) in El.
  rewrite length_fmap, length_seq in El. simpl in El. lia.
Qed.

Section Levels.

Variable b : boundary.
Variables (cfl : R) (mx my : Z).
Hypothesis Hsym : symbolic b mx my.

Lemma level_step_run (i : Z) (v : levels) (s : Solver) :
  (1 <= lv_N0 v)%Z -> (1 <= lv_Nt v)%Z ->
  exists s',
    level_step b cfl mx my i v s
    = (Ok {| lv_E := lv_E v
               ++ [final_error b (lv_N0 v) (lv_Nt v) cfl 1 mx my];
             lv_h := lv_h v ++ [1 / IZR (lv_N0 v)];
             lv_N0 := lv_N0 v * 2; lv_Nt := lv_Nt v * 2; lv_m := i |},
       s').
Proof.
  intros HN HNt.
  destruct (call_error_mode b (lv_N0 v) (lv_Nt v) cfl 1 mx my HN HNt
              ltac:(lra) Hsym) as (errs & Hcall & Hlen & Hlast).
  destruct (Hcall s) as [s' Hs'].
  exists s'. unfold level_step.
  erewrite bind_ok by exact Hs'.
  erewrite bind_ok by reflexivity. cbv beta iota. unfold last_entry.
  rewrite (getitem_last _ _ Hlast).
  erewrite bind_ok by reflexivity. reflexivity.
Qed.

Lemma levels_loop (len : nat) :
  forall (j : nat) (v : levels) (s : Solver),
    (1 <= lv_N0 v)%Z -> (1 <= lv_Nt v)%Z ->
    exists s',
      for_each (Z.of_nat <$> seq j len) (level_step b cfl mx my) v s
      = (Ok {| lv_E := lv_E v
                 ++ ((fun i => final_error b (lv_N0 v * 2 ^ Z.of_nat i)
                                 (lv_Nt v * 2 ^ Z.of_nat i) cfl 1 mx my)
                       <$> seq 0 len);
               lv_h := lv_h v
                 ++ ((fun i => 1 / IZR (lv_N0 v * 2 ^ Z.of_nat i))
                       <$> seq 0 len);
               lv_N0 := lv_N0 v * 2 ^ Z.of_nat len;
               lv_Nt := lv_Nt v * 2 ^ Z.of_nat len;
               lv_m := match len with
                       | O => lv_m v
                       | S l => Z.of_nat (j + l)
                       end |},
         s').
Proof.
  induction len as [|len IH]; intros j v s HN HNt.
  - exists s. simpl. unfold ret. rewrite !app_nil_r, !Z.mul_1_r.
    destruct v; reflexivity.
  - change (seq j (S len)) with (j :: seq (S j) len).
    rewrite fmap_cons. cbn [for_each].
    destruct (level_step_run (Z.of_nat j) v s HN HNt) as [s1 Hs1].
    erewrite bind_ok by exact Hs1.
    match goal with
    | |- context [for_each _ _ ?v1 s1] =>
        destruct (IH (S j) v1 s1) as [s' Hs']; cbn [lv_N0 lv_Nt]; try lia
    end.
    exists s'. rewrite Hs'.
    cbn [lv_E lv_h lv_N0 lv_Nt lv_m].
    assert (Epow : forall i : nat,
              (2 * 2 ^ Z.of_nat i = 2 ^ Z.of_nat (S i))%Z).
    { intros i. rewrite Nat2Z.inj_succ, Z.pow_succ_r by lia. reflexivity. }
    assert (Eseq : forall (A : Type) (g : nat -> A),
              g <$> seq 0 (S len)
              = g 0%nat :: ((fun i => g (S i)) <$> seq 0 len)).
    { intros A g. change (seq 0 (S len)) with (0%nat :: seq 1 len).
      rewrite fmap_cons, <- fmap_S_seq, <- list_fmap_compose. reflexivity. }
    rewrite !Eseq, <- !app_assoc. cbn [app].
    change (2 ^ Z.of_nat 0)%Z with 1%Z. rewrite !Z.mul_1_r.
    assert (EN : forall (x : Z) (i : nat),
              (x * 2 * 2 ^ Z.of_nat i = x * 2 ^ Z.of_nat (S i))%Z).
    { intros x i. rewrite <- Z.mul_assoc, Epow. reflexivity. }
    rewrite !EN.
    assert (EE : ((fun i : nat =>
                     final_error b (lv_N0 v * 2 * 2 ^ Z.of_nat i)
                       (lv_Nt v * 2 * 2 ^ Z.of_nat i) cfl 1 mx my)
                    <$> seq 0 len)
                 = ((fun i : nat =>
                       final_error b (lv_N0 v * 2 ^ Z.of_nat (S i))
                         (lv_Nt v * 2 ^ Z.of_nat (S i)) cfl 1 mx my)
                      <$> seq 0 len)).
    { apply list_fmap_ext. intros _ i _. rewrite !EN. reflexivity. }
    assert (Eh : ((fun i : nat => 1 / IZR (lv_N0 v * 2 * 2 ^ Z.of_nat i))
                    <$> seq 0 len)
                 = ((fun i : nat => 1 / IZR (lv_N0 v * 2 ^ Z.of_nat (S i)))
                      <$> seq 0 len)).
    { apply list_fmap_ext. intros _ i _. rewrite !EN. reflexivity. }
    rewrite EE, Eh.
    replace (match len with
             | O => Z.of_nat j
             | S l => Z.of_nat (S j + l)
             end) with (Z.of_nat (j + len))
      by (destruct len; f_equal; lia).
    reflexivity.
Qed.

End Levels.

Lemma comprehension_fmap {A X} (f : X -> result A) (g : X -> A)
    (xs : list X) :
  (forall x, x ∈ xs -> f x = Ok (g x)) ->
  comprehension f xs = Ok (g <$> xs).
Proof.
  induction xs as [|x xs IH]; intros H; simpl; [reflexivity|].
  rewrite (H x) by left. simpl.
  rewrite IH by (intros y Hy; apply H; right; exact Hy). reflexivity.
Qed.

Lemma level_h_nonzero (i : nat) : level_h i <> 0.
Proof.
  unfold level_h.
  assert (0 < 8 * 2 ^ Z.of_nat i)%Z by (apply Z.mul_pos_pos; lia).
  assert (0 < IZR (8 * 2 ^ Z.of_nat i)) by (apply IZR_lt; assumption).
  apply Rgt_not_eq. apply Rdiv_lt_0_compat; lra.
Qed.

Lemma convergence_rates_run (b : boundary) (m : Z) (cfl : R) (Nt mx my : Z)
    (s : Solver) :
  (1 <= m)%Z -> (1 <= Nt)%Z -> symbolic b mx my ->
  exists s',
    convergence_rates b m cfl Nt mx my s
    = (Ok (level_r b cfl Nt mx my <$> seq 1 (Z.to_nat m - 1),
           level_E b cfl Nt mx my <$> seq 0 (Z.to_nat m),
           level_h <$> seq 0 (Z.to_nat m)),
       s').
Proof.
  intros Hm HNt Hsym. unfold convergence_rates.
  assert (Er : range 0 m = Z.of_nat <$> seq 0 (Z.to_nat m)).
  { unfold range. rewrite <- (seqZ_of_nat 0), Z2Nat.id by lia.
    f_equal. lia. }
  rewrite Er.
  destruct (levels_loop b cfl mx my Hsym (Z.to_nat m) 0
              {| lv_E := []; lv_h := []; lv_N0 := 8; lv_Nt := Nt; lv_m := m |}
              s ltac:(simpl; lia) ltac:(simpl; lia)) as [s' Hs'].
  exists s'. erewrite bind_ok by exact Hs'.
  cbn [lv_E lv_h lv_N0 lv_Nt lv_m app].
  fold (level_E b cfl Nt mx my). fold level_h.
  destruct (Z.to_nat m) as [|l] eqn:El; [lia|].
  replace (S l - 1)%nat with l by lia.
  assert (Er' : range 1 (Z.of_nat (0 + l) + 1) = Z.of_nat <$> seq 1 l).
  { unfold range. rewrite <- (seqZ_of_nat 1). f_equal. lia. }
  rewrite Er'.
  rewrite (comprehension_fmap _ (fun i => level_r b cfl Nt mx my (Z.to_nat i))).
  - erewrite bind_ok by reflexivity. unfold ret.
    rewrite <- list_fmap_compose.
    assert (Ec : forall xs : list nat,
              ((fun i : Z => level_r b cfl Nt mx my (Z.to_nat i)) ∘ Z.of_nat)
                <$> xs
              = level_r b cfl Nt mx my <$> xs).
    { intros xs. apply list_fmap_ext. intros _ i _. simpl.
      rewrite Nat2Z.id. reflexivity. }
    rewrite Ec. reflexivity.
  - intros i Hi. apply list_elem_of_fmap in Hi as (k & -> & Hk).
    apply elem_of_seq in Hk. unfold order.
    rewrite !getitem_fmap_seq by lia. cbn [rbind].
    replace (Z.to_nat (Z.of_nat k - 1)) with (k - 1)%nat by lia.
    rewrite Nat2Z.id. unfold pydiv.
    destruct (Req_EM_T (level_h k) 0) as [E|_];
      [exfalso; exact (level_h_nonzero k E)|].
    cbn [rbind]. reflexivity.
Qed.

(** C8, as stated, fails: for mode numbers that make the exact solution
    a constant (the Dirichlet mode (0, 3)) the run of the first level
    raises [AttributeError] at [self.un.reshape(-1)], and
    [convergence_rates] returns nothing. *)
Lemma C8_constant_mode_raises :
  fst (convergence_rates Dirichlet 2 (1/10) 10 0 3 new)
  = Raise AttributeError.
Proof.
  unfold convergence_rates. apply bind_raise.
  change (range 0 2) with [0%Z; 1%Z]. cbn [for_each].
  apply bind_raise. unfold level_step. apply bind_raise. cbn [lv_N0 lv_Nt].
  rewrite (call_constant Dirichlet 8 (1/10) 1 0 3);
    [reflexivity | lia | lra | simpl; tauto].
Qed.

(** C8, amended: for [m >= 2] levels, a baseline step count Nt >= 1 and
    mode numbers that leave the exact solution a function of [x] or [y],
    [convergence_rates] returns [(r, E, h)] with [E] and [h] of length m
    and [r] of length m - 1; level i runs the solver in error mode with
    N = 8 * 2^i and Nt * 2^i steps, [E[i]] is the last entry of the error
    sequence of that run and [h[i]] its spacing; and
    [r[i-1] = ln (E[i-1] / E[i]) / ln (h[i-1] / h[i])]. *)
Theorem C8_convergence_rates (b : boundary) (m : Z) (cfl : R)
    (Nt mx my : Z) (s : Solver) :
  (2 <= m)%Z -> (1 <= Nt)%Z -> symbolic b mx my ->
  exists (r E h : list R) (s' : Solver),
    convergence_rates b m cfl Nt mx my s = (Ok (r, E, h), s')
    /\ Z.of_nat (length E) = m
    /\ Z.of_nat (length h) = m
    /\ Z.of_nat (length r) = (m - 1)%Z
    /\ (forall i : nat, (Z.of_nat i < m)%Z ->
          exists errs e,
            (forall s0,
               fst (call b (8 * 2 ^ Z.of_nat i) (Nt * 2 ^ Z.of_nat i)
                      cfl 1 mx my (-1) s0)
               = Ok (Pair (1 / IZR (8 * 2 ^ Z.of_nat i)) (Some errs)))
            /\ Z.of_nat (length errs) = (Nt * 2 ^ Z.of_nat i)%Z
            /\ last errs = Some e
            /\ E !! i = Some e
            /\ h !! i = Some (1 / IZR (8 * 2 ^ Z.of_nat i)))
    /\ (forall i : nat, (1 <= i)%nat -> (Z.of_nat i < m)%Z ->
          exists Ea Eb ha hb,
            E !! (i - 1)%nat = Some Ea /\ E !! i = Some Eb
            /\ h !! (i - 1)%nat = Some ha /\ h !! i = Some hb
            /\ r !! (i - 1)%nat = Some (ln (Ea / Eb) / ln (ha / hb))).
Proof.
  intros Hm HNt Hsym.
  destruct (convergence_rates_run b m cfl Nt mx my s ltac:(lia) HNt Hsym)
    as [s' Hs'].
  do 3 eexists. exists s'. split; [exact Hs'|].
  rewrite !length_fmap, !length_seq.
  split; [lia|]. split; [lia|]. split; [lia|]. split.
  - intros i Hi.
    assert (HN : (1 <= 8 * 2 ^ Z.of_nat i)%Z).
    { assert (0 < 2 ^ Z.of_nat i)%Z by (apply Z.pow_pos_nonneg; lia). lia. }
    assert (HNti : (1 <= Nt * 2 ^ Z.of_nat i)%Z).
    { assert (0 < 2 ^ Z.of_nat i)%Z by (apply Z.pow_pos_nonneg; lia). nia. }
    destruct (call_error_mode b _ _ cfl 1 mx my HN HNti ltac:(lra) Hsym)
      as (errs & Hcall & Hlen & Hlast).
    exists errs. eexists. split; [|split; [exact Hlen|split; [exact Hlast|]]].
    + intros s0. destruct (Hcall s0) as [s0' ->]. reflexivity.
    + rewrite !list_lookup_fmap, !lookup_seq_lt by lia. split; reflexivity.
  - intros i Hi1 Hi.
    exists (level_E b cfl Nt mx my (i - 1)), (level_E b cfl Nt mx my i),
      (level_h (i - 1)), (level_h i).
    rewrite !list_lookup_fmap, !lookup_seq_lt by lia. simpl.
    replace (S (i - 1)) with i by lia.
    repeat split.
Qed.

(** The study the tests run: four levels from Nt = 10, cfl = 0.1 *)
Lemma C8_convergence_rates_witness :
  exists (r E h : list R) (s' : Solver),
    convergence_rates Dirichlet 4 (1/10) 10 2 3 new = (Ok (r, E, h), s')
    /\ Z.of_nat (length E) = 4%Z
    /\ Z.of_nat (length h) = 4%Z
    /\ Z.of_nat (length r) = (4 - 1)%Z
    /\ (forall i : nat, (Z.of_nat i < 4)%Z ->
          exists errs e,
            (forall s0,
               fst (call Dirichlet (8 * 2 ^ Z.of_nat i) (10 * 2 ^ Z.of_nat i)
                      (1/10) 1 2 3 (-1) s0)
               = Ok (Pair (1 / IZR (8 * 2 ^ Z.of_nat i)) (Some errs)))
            /\ Z.of_nat (length errs) = (10 * 2 ^ Z.of_nat i)%Z
            /\ last errs = Some e
            /\ E !! i = Some e
            /\ h !! i = Some (1 / IZR (8 * 2 ^ Z.of_nat i)))
    /\ (forall i : nat, (1 <= i)%nat -> (Z.of_nat i < 4)%Z ->
          exists Ea Eb ha hb,
            E !! (i - 1)%nat = Some Ea /\ E !! i = Some Eb
            /\ h !! (i - 1)%nat = Some ha /\ h !! i = Some hb
            /\ r !! (i - 1)%nat = Some (ln (Ea / Eb) / ln (ha / hb))).
Proof.
  apply (C8_convergence_rates Dirichlet 4 (1/10) 10 2 3 new);
    [lia | lia | simpl; lia].
Defined.

(** C9: what a call returns (or raises) is a function of its parameters
    alone: it does not depend on the state the instance is in, so two
    calls with the same parameters agree, also on an instance that has
    completed other runs before. *)
Theorem C9_call_independent_of_instance_state (b : boundary) (N Nt : Z)
    (cfl c : R) (mx my store_data : Z) :
  (forall s1 s2,
     fst (call b N Nt cfl c mx my store_data s1)
     = fst (call b N Nt cfl c mx my store_data s2))
  /\ (forall N' Nt' cfl' c' mx' my' store_data' s,
        fst (call b N Nt cfl c mx my store_data
               (snd (call b N' Nt' cfl' c' mx' my' store_data' s)))
        = fst (call b N Nt cfl c mx my store_data new)).
Proof.
  split; intros; apply call_state_free.
Qed.

(** C10: in snapshot mode the field stored under key 0 of the returned
    dictionary is the initialization field U^{n-1}, the field [initialize]
    leaves in [unm1]: the exact standing wave at time -dt at every grid
    point.  A dictionary is returned for the mode numbers that leave the
    exact solution a function of [x] or [y]. *)
Theorem C10_snapshot_zero_is_previous_level (b : boundary) (N Nt : Z)
    (cfl c : R) (mx my k : Z) (s : Solver) :
  (1 <= N)%Z -> c <> 0 -> (0 < k)%Z ->
  (symbolic b mx my ->
   exists data s', call b N Nt cfl c mx my k s = (Ok (Data data), s'))
  /\ forall data s',
       call b N Nt cfl c mx my k s = (Ok (Data data), s') ->
       data !! 0%Z = Some (exact_field b N c mx my (- step_size cfl c N))
       /\ self_unm1 (snd (initialize b N mx my
                            (snd (set_c c (snd (set_cfl cfl s))))))
          = Some (Array (exact_field b N c mx my (- step_size cfl c N)))
       /\ forall i j xi yj,
            grid N !! i = Some xi -> grid N !! j = Some yj ->
            at_point (exact_field b N c mx my (- step_size cfl c N)) i j
            = Some (standing_wave b c mx my xi yj (- step_size cfl c N)).
Proof.
  intros HN Hc Hk.
  assert (Hret : symbolic b mx my ->
            exists data s',
              call b N Nt cfl c mx my k s = (Ok (Data data), s')
              /\ data !! 0%Z
                 = Some (exact_field b N c mx my (- step_size cfl c N))).
  { intros Hsym.
    destruct (call_valid b N cfl c mx my HN Hc Hsym)
      as (D & HD & _ & _ & Hcall).
    destruct (Hcall Nt k s) as [s' Hs']. unfold call_output in Hs'.
    destruct (Z.ltb_spec 0 k) as [_|]; [|lia].
    eexists. exists s'. split; [exact Hs'|].
    rewrite snapshots_lookup_other.
    - apply lookup_singleton_eq.
    - intros m Hm. apply elem_of_seq in Hm. lia. }
  split.
  - intros Hsym. destruct (Hret Hsym) as (data & s' & Hcall & _). eauto.
  - intros data s' Hcall.
    destruct (call_returns_data b N Nt cfl c mx my k s s' data HN Hk Hcall)
      as [_ Hsym].
    destruct (Hret Hsym) as (data' & s'' & Hcall' & H0).
    rewrite Hcall in Hcall'. injection Hcall' as <- _.
    split; [exact H0|]. split.
    + rewrite (initialize_run b N cfl c mx my HN Hc Hsym) by reflexivity.
      reflexivity.
    + intros i j xi yj Hi Hj. apply exact_field_at; assumption.
Qed.

(** Step 0 of the Neumann mode (1, 0) on the 2 x 2 grid, where the
    fields at the times -dt and 0 differ *)
Lemma C10_snapshot_zero_is_previous_level_witness :
  (symbolic Neumann 1 0 ->
   exists data s', call Neumann 1 4 1 1 1 0 2 new = (Ok (Data data), s'))
  /\ forall data s',
       call Neumann 1 4 1 1 1 0 2 new = (Ok (Data data), s') ->
       data !! 0%Z = Some (exact_field Neumann 1 1 1 0 (- step_size 1 1 1))
       /\ self_unm1 (snd (initialize Neumann 1 1 0
                            (snd (set_c 1 (snd (set_cfl 1 new))))))
          = Some (Array (exact_field Neumann 1 1 1 0 (- step_size 1 1 1)))
       /\ forall i j xi yj,
            grid 1 !! i = Some xi -> grid 1 !! j = Some yj ->
            at_point (exact_field Neumann 1 1 1 0 (- step_size 1 1 1)) i j
            = Some (standing_wave Neumann 1 1 0 xi yj (- step_size 1 1 1)).
Proof.
  apply (C10_snapshot_zero_is_previous_level Neumann 1 4 1 1 1 0 2 new);
    [lia | lra | lia].
Defined.

(** The field stored at step 0 is in general not the field at time 0:
    for the Neumann mode (1, 0) with N = 1 and cfl = c = 1 the corner
    value is -1 at time -dt and 1 at time 0. *)
Example snapshot_zero_differs_from_initial_time :
  at_point (exact_field Neumann 1 1 1 0 (- step_size 1 1 1)) 0 0 = Some (-1)
  /\ at_point (exact_field Neumann 1 1 1 0 0) 0 0 = Some 1.
Proof.
  assert (Hg : grid 1 !! 0%nat = Some 0) by (apply grid_first; lia).
  rewrite !(exact_field_at _ _ _ _ _ _ _ _ _ _ Hg Hg).
  unfold standing_wave, omega, step_size.
  rewrite !Rmult_0_r, cos_0.
  change (1 ^ 2 + 0 ^ 2)%Z with 1%Z.
  rewrite sqrt_1, Rmin_left by lra.
  replace (1 * PI * 1 * - (1 * (1 / 1) / 1)) with (- PI) by field.
  rewrite cos_neg, cos_PI. split; f_equal; lra.
Qed.

(** * Further properties of the code *)

(** Where a statement below runs the solver on mode numbers of its own
    choice, these are taken [symbolic]: the exact solution then depends
    on [x] or [y], and [lambdify] returns arrays of the shape of the
    mesh. *)

(** ** The operator: where [D2] is defined *)

Lemma D2_negative (b : boundary) (N : Z) :
  (N < 0)%Z -> D2 b N = Raise ValueError.
Proof.
  intros HN. unfold D2, Dx2_diags, ones.
  destruct (Z.ltb_spec (N + 1) 0); [destruct b; reflexivity|].
  destruct (Z.eqb_spec (N + 1) 0); [destruct b; reflexivity|lia].
Qed.

(** X1: [D2] of the Dirichlet class returns a matrix exactly for N >= 0
    and [D2] of the Neumann class exactly for N >= 1; the matrix is square
    of side (N+1)^2; a negative N raises [ValueError], and for N = 0 the
    Neumann assignment [Dx2[0, 1] = 2] raises [IndexError] while the
    Dirichlet class returns the 1 x 1 matrix [-4]. *)
Theorem X1_D2_domain (b : boundary) (N : Z) :
  ((exists D, D2 b N = Ok D)
   <-> (match b with Dirichlet => 0 | Neumann => 1 end <= N)%Z)
  /\ (forall D, D2 b N = Ok D ->
        nrows D = (Z.to_nat (N + 1) * Z.to_nat (N + 1))%nat
        /\ ncols D = (Z.to_nat (N + 1) * Z.to_nat (N + 1))%nat)
  /\ ((N < 0)%Z -> D2 b N = Raise ValueError)
  /\ (N = 0%Z ->
      D2 Neumann N = Raise IndexError
      /\ exists D, D2 Dirichlet N = Ok D /\ to_lists D = [[-4]]%Z).
Proof.
  assert (H0 : D2 Neumann 0 = Raise IndexError) by reflexivity.
  assert (H0' : exists D, D2 Dirichlet 0 = Ok D
                  /\ nrows D = 1%nat /\ ncols D = 1%nat
                  /\ to_lists D = [[-4]]%Z).
  { eexists. split; [reflexivity|]. repeat split. }
  split; [|split; [|split; [apply D2_negative|]]].
  - split.
    + intros [D HD].
      destruct (Z.lt_ge_cases N 0) as [Hneg|Hnn];
        [rewrite D2_negative in HD by exact Hneg; discriminate|].
      destruct b; [exact Hnn|].
      destruct (Z.eq_dec N 0%Z) as [->|]; [|lia].
      rewrite H0 in HD. discriminate.
    + intros HN. destruct (Z.eq_dec N 0%Z) as [->|HN0].
      * destruct b; [|lia]. destruct H0' as (D & HD & _). eauto.
      * destruct (D2_ok b N) as (D & HD & _); [destruct b; lia|eauto].
  - intros D HD.
    destruct (Z.lt_ge_cases N 0) as [Hneg|Hnn];
      [rewrite D2_negative in HD by exact Hneg; discriminate|].
    destruct (Z.eq_dec N 0%Z) as [->|HN0].
    + destruct b; [|rewrite H0 in HD; discriminate].
      destruct H0' as (D' & HD' & Hr & Hc & _).
      rewrite HD in HD'. injection HD' as <-. auto.
    + destruct (D2_ok b N ltac:(lia)) as (D' & HD' & Hr & Hc & _).
      rewrite HD in HD'. injection HD' as <-. auto.
  - intros ->. split; [exact H0|].
    destruct H0' as (D & HD & _ & _ & HL). eauto.
Qed.

(** ** Snapshots and the instance after a call *)

Lemma snapshots_lookup_member (store_data : Z) (T : nat -> field * field)
    (ms : list nat) :
  forall (d : gmap Z field) (m : nat),
    NoDup ms -> m ∈ ms -> (Z.of_nat m mod store_data = 0)%Z ->
    foldl (snapshot_pass store_data T) d ms !! Z.of_nat m = Some (snd (T m)).
Proof.
  induction ms as [|x ms IH]; intros d m Hnd Hm Hmod.
  - apply elem_of_nil in Hm. contradiction.
  - apply NoDup_cons in Hnd as [Hx Hnd]. simpl.
    apply elem_of_cons in Hm as [->|Hm].
    + rewrite snapshots_lookup_other.
      * unfold snapshot_pass. rewrite Hmod. simpl. apply lookup_insert_eq.
      * intros m' Hm' E. apply Nat2Z.inj in E. subst. contradiction.
    + apply IH; assumption.
Qed.

Lemma div_step (n k : Z) :
  (0 <= n)%Z -> (0 < k)%Z ->
  ((n + 1) / k = if ((n + 1) mod k =? 0) then n / k + 1 else n / k)%Z.
Proof.
  intros Hn Hk.
  pose proof (Z.div_mod (n + 1) k ltac:(lia)) as E.
  pose proof (Z.mod_pos_bound (n + 1) k Hk) as B.
  destruct (Z.eqb_spec ((n + 1) mod k) 0) as [E0|E0].
  - assert (n / k = (n + 1) / k - 1)%Z; [|lia].
    symmetry. apply (Z.div_unique n k _ (k - 1)); [lia|]. lia.
  - apply (Z.div_unique n k _ ((n + 1) mod k - 1)); lia.
Qed.

Lemma snapshots_size (k : Z) (T : nat -> field * field) (U : field) (n : nat) :
  (0 < k)%Z ->
  Z.of_nat (size (foldl (snapshot_pass k T) {[0%Z := U]} (seq 1 n)))
  = (1 + Z.of_nat n / k)%Z.
Proof.
  intros Hk. induction n as [|n IH].
  - simpl. rewrite map_size_singleton. rewrite Z.div_0_l by lia. reflexivity.
  - rewrite seq_S, foldl_app. simpl. unfold snapshot_pass at 1.
    replace (Z.of_nat (S n)) with (Z.of_nat n + 1)%Z by lia.
    rewrite div_step by lia.
    replace (Z.of_nat (1 + n)) with (Z.of_nat n + 1)%Z by lia.
    destruct (Z.eqb_spec ((Z.of_nat n + 1) mod k) 0) as [E|E]; [|exact IH].
    rewrite map_size_insert_None; [lia|].
    apply not_elem_of_dom. rewrite snapshots_dom, dom_singleton_L.
    intros [H|(m & Hm & Hk' & _)].
    + apply elem_of_singleton in H. lia.
    + apply elem_of_seq in Hm. lia.
Qed.

(** X2: in snapshot mode the field stored under a key n >= 1 is the
    current field after time step n, an (N+1) x (N+1) array. *)
Theorem X2_snapshot_holds_the_field_after_its_step (b : boundary)
    (N Nt : Z) (cfl c : R) (mx my k n : Z) (s : Solver) :
  (1 <= N)%Z -> c <> 0 -> symbolic b mx my -> (0 < k)%Z ->
  (1 <= n <= Nt)%Z -> (n mod k = 0)%Z ->
  exists (D : matrix) (T : nat -> field * field) data s',
    D2 b N = Ok D
    /\ T 0%nat = (exact_field b N c mx my (- step_size cfl c N),
                  exact_field b N c mx my 0)
    /\ (forall j, leapfrog b D cfl (T j) = Ok (T (S j)))
    /\ call b N Nt cfl c mx my k s = (Ok (Data data), s')
    /\ data !! n = Some (snd (T (Z.to_nat n)))
    /\ square_shape (Z.to_nat (N + 1)) (snd (T (Z.to_nat n))).
Proof.
  intros HN Hc Hsym Hk Hn Hmod.
  destruct (call_valid b N cfl c mx my HN Hc Hsym) as (D & HD & Hsh & Hstep & Hcall).
  destruct (Hcall Nt k s) as [s' Hs']. unfold call_output in Hs'.
  destruct (Z.ltb_spec 0 k) as [_|]; [|lia].
  exists D,
    (trajectory b D cfl
       (exact_field b N c mx my (- step_size cfl c N),
        exact_field b N c mx my 0)).
  eexists. exists s'.
  split; [exact HD|]. split; [reflexivity|]. split; [exact Hstep|].
  split; [exact Hs'|]. split; [|apply Hsh].
  rewrite <- (Z2Nat.id n) at 1 by lia.
  apply snapshots_lookup_member.
  - apply NoDup_seq.
  - apply elem_of_seq. lia.
  - rewrite Z2Nat.id by lia. exact Hmod.
Qed.

(** Stored every second step of four: the entry of step 2 *)
Lemma X2_snapshot_holds_the_field_after_its_step_witness :
  exists (D : matrix) (T : nat -> field * field) data s',
    D2 Neumann 2 = Ok D
    /\ T 0%nat = (exact_field Neumann 2 1 2 3 (- step_size (1/2) 1 2),
                  exact_field Neumann 2 1 2 3 0)
    /\ (forall j, leapfrog Neumann D (1/2) (T j) = Ok (T (S j)))
    /\ call Neumann 2 4 (1/2) 1 2 3 2 new = (Ok (Data data), s')
    /\ data !! 2%Z = Some (snd (T (Z.to_nat 2)))
    /\ square_shape (Z.to_nat (2 + 1)) (snd (T (Z.to_nat 2))).
Proof.
  apply (X2_snapshot_holds_the_field_after_its_step
           Neumann 2 4 (1/2) 1 2 3 2 2 new);
    [lia | lra | simpl; lia | lia | lia | reflexivity].
Defined.

(** X3: in snapshot mode with interval k > 0 the returned dictionary
    holds 1 + floor(Nt / k) fields (one field when Nt <= 0). *)
Theorem X3_snapshot_count (b : boundary) (N Nt : Z) (cfl c : R)
    (mx my k : Z) (s : Solver) :
  (1 <= N)%Z -> c <> 0 -> symbolic b mx my -> (0 < k)%Z ->
  exists data s',
    call b N Nt cfl c mx my k s = (Ok (Data data), s')
    /\ Z.of_nat (size data) = (1 + Z.max 0 Nt / k)%Z.
Proof.
  intros HN Hc Hsym Hk.
  destruct (call_valid b N cfl c mx my HN Hc Hsym) as (D & _ & _ & _ & Hcall).
  destruct (Hcall Nt k s) as [s' Hs']. unfold call_output in Hs'.
  destruct (Z.ltb_spec 0 k) as [_|]; [|lia].
  eexists. exists s'. split; [exact Hs'|].
  rewrite snapshots_size by exact Hk. f_equal. f_equal. lia.
Qed.

(** The scripts' run: 120 steps stored every second step *)
Lemma X3_snapshot_count_witness :
  exists data s',
    call Neumann 60 120 (1/2) 1 2 3 2 new = (Ok (Data data), s')
    /\ Z.of_nat (size data) = (1 + Z.max 0 120 / 2)%Z.
Proof.
  apply (X3_snapshot_count Neumann 60 120 (1/2) 1 2 3 2 new);
    [lia | lra | simpl; lia | lia].
Defined.

(** X4: with a [store_data] that is neither positive nor -1 the call
    still runs and returns the pair [(dx, np.array(None))]: no snapshot
    dictionary and no error sequence. *)
Theorem X4_unsupported_store_data (b : boundary) (N Nt : Z) (cfl c : R)
    (mx my store_data : Z) (s : Solver) :
  (1 <= N)%Z -> c <> 0 -> symbolic b mx my ->
  (store_data <= 0)%Z -> store_data <> (-1)%Z ->
  fst (call b N Nt cfl c mx my store_data s) = Ok (Pair (1 / IZR N) None).
Proof.
  intros HN Hc Hsym Hsd Hne.
  destruct (call_valid b N cfl c mx my HN Hc Hsym) as (D & _ & _ & _ & Hcall).
  destruct (Hcall Nt store_data s) as [s' ->]. cbn [fst].
  unfold call_output.
  destruct (Z.ltb_spec 0 store_data); [lia|].
  destruct (Z.eqb_spec store_data (-1)); [contradiction|]. reflexivity.
Qed.

(** [store_data = 0] *)
Lemma X4_unsupported_store_data_witness :
  fst (call Dirichlet 8 10 (1/2) 1 3 3 0 new) = Ok (Pair (1 / IZR 8) None).
Proof.
  apply (X4_unsupported_store_data Dirichlet 8 10 (1/2) 1 3 3 0 new);
    [lia | lra | simpl; lia | lia | lia].
Defined.

(** The instance a valid call leaves behind *)
Lemma call_final_state (b : boundary) (N Nt : Z) (cfl c : R) (mx my sd : Z)
    (s : Solver) :
  (1 <= N)%Z -> c <> 0 -> symbolic b mx my ->
  exists D Up Uc,
    D2 b N = Ok D
    /\ (Up, Uc)
       = trajectory b D cfl
           (exact_field b N c mx my (- step_size cfl c N),
            exact_field b N c mx my 0) (Z.to_nat Nt)
    /\ snd (call b N Nt cfl c mx my sd s)
       = run_state cfl c N mx my Up Uc
           (match Z.to_nat Nt with
            | O => self_unp1 s
            | S _ => Some (Array Uc)
            end).
Proof.
  intros HN Hc Hsym.
  destruct (call_run b N cfl c mx my HN Hc Hsym Nt sd s)
    as (D & HD & _ & _ & Hcall).
  exists D. do 2 eexists. split; [exact HD|].
  split; [symmetry; apply surjective_pairing|]. rewrite Hcall. reflexivity.
Qed.

(** X5: what a call records does not influence what it computes: the
    instance a call leaves behind is the same for every [store_data];
    it holds the parameters of the call and [dx = dy = 1/N]; after at
    least one step [unp1] and [un] hold the same field, and without a
    step [unp1] is left as it was. *)
Theorem X5_instance_after_a_call (b : boundary) (N Nt : Z) (cfl c : R)
    (mx my : Z) (s : Solver) :
  (1 <= N)%Z -> c <> 0 -> symbolic b mx my ->
  (forall sd1 sd2,
     snd (call b N Nt cfl c mx my sd1 s) = snd (call b N Nt cfl c mx my sd2 s))
  /\ forall sd,
       let s' := snd (call b N Nt cfl c mx my sd s) in
       self_dx s' = Some (1 / IZR N) /\ self_dy s' = Some (1 / IZR N)
       /\ self_cfl s' = Some cfl /\ self_c s' = Some c
       /\ self_mx s' = Some mx /\ self_my s' = Some my
       /\ ((1 <= Nt)%Z -> self_unp1 s' = self_un s')
       /\ ((Nt <= 0)%Z -> self_unp1 s' = self_unp1 s).
Proof.
  intros HN Hc Hsym. split.
  - intros sd1 sd2.
    destruct (call_final_state b N Nt cfl c mx my sd1 s HN Hc Hsym)
      as (D1 & Up1 & Uc1 & HD1 & HT1 & ->).
    destruct (call_final_state b N Nt cfl c mx my sd2 s HN Hc Hsym)
      as (D2' & Up2 & Uc2 & HD2 & HT2 & ->).
    rewrite HD1 in HD2. injection HD2 as <-. rewrite <- HT1 in HT2.
    injection HT2 as <- <-. reflexivity.
  - intros sd s'. subst s'.
    destruct (call_final_state b N Nt cfl c mx my sd s HN Hc Hsym)
      as (D & Up & Uc & _ & _ & ->).
    cbn [run_state self_dx self_dy self_cfl self_c self_mx self_my
         self_unp1 self_un].
    repeat split.
    + intros HNt. destruct (Z.to_nat Nt) eqn:E; [lia|reflexivity].
    + intros HNt. replace (Z.to_nat Nt) with 0%nat by lia. reflexivity.
Qed.

(** A Dirichlet run of ten steps *)
Lemma X5_instance_after_a_call_witness :
  (forall sd1 sd2,
     snd (call Dirichlet 8 10 (1/2) 1 2 3 sd1 new)
     = snd (call Dirichlet 8 10 (1/2) 1 2 3 sd2 new))
  /\ forall sd,
       let s' := snd (call Dirichlet 8 10 (1/2) 1 2 3 sd new) in
       self_dx s' = Some (1 / IZR 8) /\ self_dy s' = Some (1 / IZR 8)
       /\ self_cfl s' = Some (1/2) /\ self_c s' = Some 1
       /\ self_mx s' = Some 2%Z /\ self_my s' = Some 3%Z
       /\ ((1 <= 10)%Z -> self_unp1 s' = self_un s')
       /\ ((10 <= 0)%Z -> self_unp1 s' = self_unp1 new).
Proof.
  apply (X5_instance_after_a_call Dirichlet 8 10 (1/2) 1 2 3 new);
    [lia | lra | simpl; lia].
Defined.

(** ** The five-point formula *)

(** X6: the product [D2 @ un.reshape(-1)], reshaped to the grid, is the
    five-point formula: at every grid point the sum of the second
    differences of the field along the two axes, a neighbour outside the
    grid counting as zero for the Dirichlet operator and being replaced
    by the neighbour inside for the Neumann operator.  At an interior
    point both operators give
    [U[i-1,j] + U[i+1,j] + U[i,j-1] + U[i,j+1] - 4 U[i,j]]. *)
Theorem X6_laplacian_is_five_point (b : boundary) (N : Z) (U : field) :
  (1 <= N)%Z -> square_shape (Z.to_nat (N + 1)) U ->
  exists D L,
    D2 b N = Ok D /\ laplacian D U = Ok L
    /\ square_shape (Z.to_nat (N + 1)) L
    /\ (forall i j : nat, (Z.of_nat i <= N)%Z -> (Z.of_nat j <= N)%Z ->
          at_point L i j = Some (five_point b (Z.to_nat (N + 1)) U i j))
    /\ (forall i j : nat,
          (1 <= Z.of_nat i < N)%Z -> (1 <= Z.of_nat j < N)%Z ->
          at_point L i j
          = Some (value U (i - 1) j + value U (i + 1) j
                  + value U i (j - 1) + value U i (j + 1)
                  - 4 * value U i j)).
Proof.
  intros HN HU.
  destruct (D2_ok b N HN) as (D & HD & _).
  destruct (laplacian_five_point b N D U HN HD HU) as (L & HL & HLs & H5).
  exists D, L. split; [exact HD|]. split; [exact HL|]. split; [exact HLs|].
  split; [exact H5|].
  intros i j Hi Hj. rewrite H5 by lia. f_equal.
  unfold five_point, second_difference.
  destruct (Nat.eqb_spec i 0); [lia|]. destruct (Nat.eqb_spec j 0); [lia|].
  destruct (Nat.eqb_spec i (Z.to_nat (N + 1) - 1)); [lia|].
  destruct (Nat.eqb_spec j (Z.to_nat (N + 1) - 1)); [lia|].
  destruct b; lra.
Qed.

(** A 3 x 3 field under the Neumann operator *)
Lemma X6_laplacian_is_five_point_witness :
  exists D L,
    D2 Neumann 2 = Ok D
    /\ laplacian D [[1; 2; 3]; [4; 5; 6]; [7; 8; 10]] = Ok L
    /\ square_shape (Z.to_nat (2 + 1)) L
    /\ (forall i j : nat, (Z.of_nat i <= 2)%Z -> (Z.of_nat j <= 2)%Z ->
          at_point L i j
          = Some (five_point Neumann (Z.to_nat (2 + 1))
                    [[1; 2; 3]; [4; 5; 6]; [7; 8; 10]] i j))
    /\ (forall i j : nat,
          (1 <= Z.of_nat i < 2)%Z -> (1 <= Z.of_nat j < 2)%Z ->
          at_point L i j
          = Some (value [[1; 2; 3]; [4; 5; 6]; [7; 8; 10]] (i - 1) j
                  + value [[1; 2; 3]; [4; 5; 6]; [7; 8; 10]] (i + 1) j
                  + value [[1; 2; 3]; [4; 5; 6]; [7; 8; 10]] i (j - 1)
                  + value [[1; 2; 3]; [4; 5; 6]; [7; 8; 10]] i (j + 1)
                  - 4 * value [[1; 2; 3]; [4; 5; 6]; [7; 8; 10]] i j)).
Proof.
  apply (X6_laplacian_is_five_point Neumann 2
           [[1; 2; 3]; [4; 5; 6]; [7; 8; 10]]); [lia|].
  split; [reflexivity|]. repeat constructor.
Defined.

(** ** The error norm *)

Lemma total_nonneg (xs : list R) : Forall (Rle 0) xs -> 0 <= total xs.
Proof. unfold total. induction 1; simpl; lra. Qed.

Lemma total_zero_all (xs : list R) :
  Forall (Rle 0) xs -> total xs = 0 -> Forall (eq 0) xs.
Proof.
  unfold total. induction 1 as [|x xs Hx Hxs IH]; simpl; intros E.
  - constructor.
  - pose proof (total_nonneg xs Hxs) as Hp. unfold total in Hp.
    constructor; [lra|]. apply IH. lra.
Qed.

Lemma squares_nonneg (U V : field) :
  Forall (Rle 0) (flatten (fsquare (fsub U V))).
Proof.
  unfold flatten, fsquare. apply Forall_concat, Forall_fmap, Forall_forall.
  intros r _. simpl. apply Forall_fmap, Forall_forall. intros x _. simpl.
  nra.
Qed.

Lemma row_diff_zero (u v : list R) :
  length u = length v ->
  Forall (eq 0) ((fun x => x ^ 2) <$> zip_with Rminus u v) -> u = v.
Proof.
  revert v. induction u as [|x u IH]; intros [|y v] Hl H; simpl in *;
    try discriminate; [reflexivity|].
  inversion H as [|? ? Hxy Hrest]; subst.
  f_equal; [nra|]. apply IH; [lia|exact Hrest].
Qed.

Lemma rows_diff_zero (m : nat) (U V : field) :
  length U = length V ->
  Forall (fun r => length r = m) U -> Forall (fun r => length r = m) V ->
  Forall (eq 0) (flatten (fsquare (fsub U V))) -> U = V.
Proof.
  revert V. induction U as [|u U IH]; intros [|v V] HL HU HV H;
    try (simpl in HL; discriminate); [reflexivity|].
  simpl in HL.
  inversion HU as [|? ? Hu HU']; subst.
  inversion HV as [|? ? Hv HV']; subst.
  unfold flatten, fsquare, fsub in H.
  cbn [zip_with] in H. rewrite fmap_cons in H. cbn [concat] in H.
  apply Forall_app in H as [H1 H2].
  f_equal.
  - apply row_diff_zero; [lia|exact H1].
  - apply IH; [lia|assumption..].
Qed.

Lemma rms_diff_nonneg (U V : field) : 0 <= rms_diff U V.
Proof. unfold rms_diff. apply sqrt_pos. Qed.

Lemma rms_diff_refl (U : field) : rms_diff U U = 0.
Proof.
  unfold rms_diff, mean.
  assert (E : total (flatten (fsquare (fsub U U))) = 0).
  { unfold flatten, fsquare, fsub, total.
    induction U as [|u U IH]; [reflexivity|].
    cbn [zip_with]. rewrite fmap_cons. cbn [concat].
    rewrite foldr_app, IH. clear IH.
    induction u as [|x u IH]; [reflexivity|].
    cbn [zip_with]. rewrite fmap_cons. cbn [foldr]. rewrite IH. lra. }
  unfold total in E. rewrite E. unfold Rdiv. rewrite Rmult_0_l. apply sqrt_0.
Qed.

Lemma rms_diff_zero (n : nat) (U V : field) :
  (1 <= n)%nat -> square_shape n U -> square_shape n V ->
  rms_diff U V = 0 <-> U = V.
Proof.
  intros Hn HU HV. split; [|intros ->; apply rms_diff_refl].
  intros E. destruct HU as [HU1 HU2], HV as [HV1 HV2].
  apply (rows_diff_zero n); [lia|assumption..|].
  apply total_zero_all; [apply squares_nonneg|].
  unfold rms_diff, mean in E.
  change (foldr Rplus 0 ?l) with (total l) in E.
  pose proof (squares_nonneg U V) as Hs.
  pose proof (total_nonneg _ Hs) as Ht.
  assert (Hlen : length (flatten (fsquare (fsub U V))) = (n * n)%nat).
  { rewrite (flatten_length n).
    - unfold fsquare, fsub. rewrite length_fmap, length_zip_with. lia.
    - unfold fsquare, fsub. apply Forall_fmap, Forall_lookup.
      intros i r Hr. apply lookup_zip_with_Some in Hr as (u & v & -> & Hu & Hv).
      simpl. rewrite length_fmap, length_zip_with.
      rewrite Forall_lookup in HU2, HV2.
      rewrite (HU2 _ _ Hu), (HV2 _ _ Hv). lia. }
  rewrite Hlen in E.
  assert (Hpos : 0 < INR (n * n)) by (apply lt_0_INR; nia).
  apply sqrt_eq_0 in E.
  - apply (Rmult_eq_compat_r (INR (n * n))) in E.
    unfold Rdiv in E. rewrite Rmult_assoc, Rinv_l, Rmult_1_r, Rmult_0_l in E
      by lra. exact E.
  - unfold Rdiv. apply Rmult_le_pos; [exact Ht|].
    left. apply Rinv_0_lt_compat. exact Hpos.
Qed.

(** X7: on the instance a call leaves behind, [l2_error(u, t0)] for an
    [(N+1) x (N+1)] array [u] returns a non-negative number, which is
    zero exactly when [u] equals the exact standing wave on the mesh at
    time [t0]; the instance is not modified.  On a new instance, which
    has no mode numbers yet, the method raises [AttributeError]. *)
Theorem X7_l2_error_zero_iff_exact (b : boundary) (N Nt : Z) (cfl c : R)
    (mx my sd : Z) (s : Solver) (u : field) (t0 : R) :
  (1 <= N)%Z -> c <> 0 -> symbolic b mx my ->
  square_shape (Z.to_nat (N + 1)) u ->
  (let s' := snd (call b N Nt cfl c mx my sd s) in
   exists e,
     l2_error b (Array u) t0 s' = (Ok e, s')
     /\ 0 <= e
     /\ (e = 0 <-> u = exact_field b N c mx my t0))
  /\ l2_error b (Array u) t0 new = (Raise AttributeError, new).
Proof.
  intros HN Hc Hsym Hu. split; [|reflexivity].
  intros s'. subst s'.
  destruct (call_final_state b N Nt cfl c mx my sd s HN Hc Hsym)
    as (D & Up & Uc & _ & _ & ->).
  eexists. split; [apply l2_error_run; assumption|].
  split; [apply rms_diff_nonneg|].
  apply (rms_diff_zero (Z.to_nat (N + 1))); [lia|exact Hu|].
  apply exact_field_square.
Qed.

(** A 3 x 3 array against a Neumann run *)
Lemma X7_l2_error_zero_iff_exact_witness :
  (let s' := snd (call Neumann 2 4 (1/2) 1 2 3 2 new) in
   exists e,
     l2_error Neumann (Array [[1; 2; 3]; [4; 5; 6]; [7; 8; 10]]) (1/4) s'
     = (Ok e, s')
     /\ 0 <= e
     /\ (e = 0 <-> [[1; 2; 3]; [4; 5; 6]; [7; 8; 10]]
                   = exact_field Neumann 2 1 2 3 (1/4)))
  /\ l2_error Neumann (Array [[1; 2; 3]; [4; 5; 6]; [7; 8; 10]]) (1/4) new
     = (Raise AttributeError, new).
Proof.
  apply (X7_l2_error_zero_iff_exact Neumann 2 4 (1/2) 1 2 3 2 new
           [[1; 2; 3]; [4; 5; 6]; [7; 8; 10]] (1/4));
    [lia | lra | simpl; lia |].
  split; [reflexivity|]. repeat constructor.
Defined.

(** ** The mesh *)

Lemma grid_value (N : Z) (i : nat) :
  (1 <= N)%Z -> (Z.of_nat i <= N)%Z -> grid N !! i = Some (INR i / IZR N).
Proof.
  intros HN Hi. rewrite grid_lookup by lia. f_equal.
  replace (N + 1 - 1)%Z with N by lia.
  assert (IZR N <> 0) by (apply not_0_IZR; lia). field. assumption.
Qed.

Lemma meshgrid_at (x y : list R) (i j : nat) (xi yj : R) :
  x !! i = Some xi -> y !! j = Some yj ->
  at_point (fst (meshgrid_ij x y)) i j = Some xi
  /\ at_point (snd (meshgrid_ij x y)) i j = Some yj.
Proof.
  intros Hi Hj. unfold at_point, meshgrid_ij. cbn [fst snd].
  rewrite !list_lookup_fmap, Hi. simpl.
  rewrite list_lookup_fmap, Hj. simpl. split; reflexivity.
Qed.

Lemma meshgrid_square (x y : list R) :
  length x = length y ->
  square_shape (length x) (fst (meshgrid_ij x y))
  /\ square_shape (length x) (snd (meshgrid_ij x y)).
Proof.
  intros E. unfold meshgrid_ij, square_shape. cbn [fst snd].
  rewrite !length_fmap. repeat split.
  - apply Forall_fmap, Forall_forall. intros r _. simpl.
    rewrite length_fmap. lia.
  - apply Forall_fmap, Forall_forall. intros r _. simpl. lia.
Qed.

(** X8: for N >= 1 [create_mesh] sets [dx = dy = 1/N] and two
    [(N+1) x (N+1)] arrays with [xij[i, j] = i/N] and [yij[i, j] = j/N],
    and touches no other attribute.  For N = 0 it raises
    [ZeroDivisionError] and for N < -1 [ValueError], in both cases before
    any attribute is set; for N = -1 it returns with two empty arrays and
    [dx = -1]. *)
Theorem X8_create_mesh (N : Z) (s : Solver) :
  ((1 <= N)%Z ->
   exists X Y,
     create_mesh N s
     = (Ok tt,
        {| self_cfl := self_cfl s; self_c := self_c s;
           self_dx := Some (1 / IZR N); self_dy := Some (1 / IZR N);
           self_xij := Some X; self_yij := Some Y;
           self_mx := self_mx s; self_my := self_my s;
           self_unm1 := self_unm1 s; self_un := self_un s;
           self_unp1 := self_unp1 s |})
     /\ square_shape (Z.to_nat (N + 1)) X
     /\ square_shape (Z.to_nat (N + 1)) Y
     /\ forall i j : nat, (Z.of_nat i <= N)%Z -> (Z.of_nat j <= N)%Z ->
          at_point X i j = Some (INR i / IZR N)
          /\ at_point Y i j = Some (INR j / IZR N))
  /\ (N = 0%Z -> create_mesh N s = (Raise ZeroDivisionError, s))
  /\ (N = (-1)%Z ->
      exists s', create_mesh N s = (Ok tt, s')
        /\ self_xij s' = Some [] /\ self_yij s' = Some []
        /\ self_dx s' = Some (-1))
  /\ ((N < -1)%Z -> create_mesh N s = (Raise ValueError, s)).
Proof.
  split; [|split; [|split]].
  - intros HN. unfold create_mesh.
    exists (fst (meshgrid_ij (grid N) (grid N))),
      (snd (meshgrid_ij (grid N) (grid N))).
    split.
    + rewrite linspace_grid by exact HN. run.
      rewrite !pydiv_ok by (apply not_0_IZR; lia). run.
      destruct s; reflexivity.
    + pose proof (meshgrid_square (grid N) (grid N) eq_refl) as [H1 H2].
      rewrite grid_length in H1, H2. split; [exact H1|]. split; [exact H2|].
      intros i j Hi Hj.
      apply meshgrid_at; apply grid_value; assumption.
  - intros ->. unfold create_mesh. run. unfold pydiv.
    destruct (Req_EM_T 0 0) as [_|H]; [|contradiction]. run. reflexivity.
  - intros ->. unfold create_mesh. run. unfold pydiv.
    destruct (Req_EM_T (-1) 0) as [H|_]; [lra|]. run.
    eexists. split; [reflexivity|]. cbn.
    repeat split. f_equal. lra.
  - intros HN. unfold create_mesh, linspace.
    destruct (Z.ltb_spec (N + 1) 0) as [_|]; [|lia]. reflexivity.
Qed.

(** ** The convergence study at its limits *)

Lemma level_h_ratio (i : nat) :
  (1 <= i)%nat -> level_h (i - 1) / level_h i = 2.
Proof.
  intros Hi. unfold level_h.
  replace (Z.of_nat i) with (Z.of_nat (i - 1) + 1)%Z by lia.
  rewrite Z.pow_add_r, Z.pow_1_r by lia.
  assert (Hp : (0 < 2 ^ Z.of_nat (i - 1))%Z) by (apply Z.pow_pos_nonneg; lia).
  rewrite !mult_IZR.
  assert (IZR (2 ^ Z.of_nat (i - 1)) <> 0) by (apply not_0_IZR; lia).
  field. assumption.
Qed.

(** X9: [convergence_rates] with [m <= 0] runs no level and returns three
    empty sequences, leaving the instance as it was; with [m >= 1] and a
    step count [Nt <= 0] the first level returns an empty error sequence
    and [err[-1]] raises [IndexError]. *)
Theorem X9_convergence_rates_without_a_level (b : boundary) (m : Z)
    (cfl : R) (Nt mx my : Z) (s : Solver) :
  ((m <= 0)%Z ->
   convergence_rates b m cfl Nt mx my s = (Ok ([], [], []), s))
  /\ ((1 <= m)%Z -> (Nt <= 0)%Z ->
      fst (convergence_rates b m cfl Nt mx my s) = Raise IndexError).
Proof.
  split.
  - intros Hm. unfold convergence_rates, range.
    rewrite seqZ_nil by lia. cbn [for_each]. unfold bind, ret, lift.
    cbn [lv_E lv_h lv_m]. rewrite seqZ_nil by lia. reflexivity.
  - intros Hm HNt. unfold convergence_rates, range.
    rewrite seqZ_cons by lia. apply bind_raise. cbn [for_each].
    apply bind_raise. unfold level_step. cbn [lv_N0 lv_Nt].
    pose proof (call_without_steps b 8 Nt cfl 1 mx my s
                  ltac:(lia) HNt ltac:(lra)) as Hcall.
    destruct (call b 8 Nt cfl 1 mx my (-1) s) as [r s'] eqn:E.
    cbn [fst] in Hcall. subst r.
    erewrite bind_ok by exact E. reflexivity.
Qed.

(** X10: consecutive spacings of the study differ by the factor 2
    whatever the parameters, so every order is
    [ln (E[i-1] / E[i]) / ln 2]; a study of one level returns no order. *)
Theorem X10_orders_are_binary_logarithms (b : boundary) (m : Z) (cfl : R)
    (Nt mx my : Z) (s : Solver) :
  (1 <= m)%Z -> (1 <= Nt)%Z -> symbolic b mx my ->
  exists (r E h : list R) (s' : Solver),
    convergence_rates b m cfl Nt mx my s = (Ok (r, E, h), s')
    /\ (m = 1%Z -> r = [])
    /\ (forall i : nat, (1 <= i)%nat -> (Z.of_nat i < m)%Z ->
          exists Ea Eb ha hb,
            E !! (i - 1)%nat = Some Ea /\ E !! i = Some Eb
            /\ h !! (i - 1)%nat = Some ha /\ h !! i = Some hb
            /\ ha / hb = 2
            /\ r !! (i - 1)%nat = Some (ln (Ea / Eb) / ln 2)).
Proof.
  intros Hm HNt Hsym.
  destruct (convergence_rates_run b m cfl Nt mx my s Hm HNt Hsym)
    as [s' Hs'].
  do 3 eexists. exists s'. split; [exact Hs'|]. split.
  - intros ->. reflexivity.
  - intros i Hi1 Hi.
    exists (level_E b cfl Nt mx my (i - 1)), (level_E b cfl Nt mx my i),
      (level_h (i - 1)), (level_h i).
    rewrite !list_lookup_fmap, !lookup_seq_lt by lia. simpl.
    replace (S (i - 1)) with i by lia.
    split; [reflexivity|]. split; [reflexivity|].
    split; [reflexivity|]. split; [reflexivity|].
    split; [apply level_h_ratio; exact Hi1|].
    unfold level_r. rewrite level_h_ratio by exact Hi1. reflexivity.
Qed.

(** Two levels of the Neumann class *)
Lemma X10_orders_are_binary_logarithms_witness :
  exists (r E h : list R) (s' : Solver),
    convergence_rates Neumann 2 (1/10) 10 2 3 new = (Ok (r, E, h), s')
    /\ (2%Z = 1%Z -> r = [])
    /\ (forall i : nat, (1 <= i)%nat -> (Z.of_nat i < 2)%Z ->
          exists Ea Eb ha hb,
            E !! (i - 1)%nat = Some Ea /\ E !! i = Some Eb
            /\ h !! (i - 1)%nat = Some ha /\ h !! i = Some hb
            /\ ha / hb = 2
            /\ r !! (i - 1)%nat = Some (ln (Ea / Eb) / ln 2)).
Proof.
  apply (X10_orders_are_binary_logarithms Neumann 2 (1/10) 10 2 3 new);
    [lia | lia | simpl; lia].
Defined.

(** ** The numerical solution in closed form *)

Lemma sin_int_pi (m : Z) : sin (IZR m * PI) = 0.
Proof. rewrite <- (sin_mode_1 m). f_equal. lra. Qed.

Lemma INR_to_nat (z : Z) : (0 <= z)%Z -> INR (Z.to_nat z) = IZR z.
Proof. intros H. rewrite INR_IZR_INZ, Z2Nat.id by exact H. reflexivity. Qed.

Section Eigen.
Variables (N m : Z).
Hypothesis HN : (1 <= N)%Z.

Let theta : R := IZR m * PI / IZR N.

Lemma mode_arg (k : nat) : IZR m * PI * (INR k / IZR N) = INR k * theta.
Proof.
  unfold theta. assert (IZR N <> 0) by (apply not_0_IZR; lia).
  field. assumption.
Qed.

Lemma theta_N : IZR N * theta = IZR m * PI.
Proof.
  unfold theta. assert (IZR N <> 0) by (apply not_0_IZR; lia).
  field. assumption.
Qed.

Lemma second_difference_cos (i : nat) :
  (Z.of_nat i <= N)%Z ->
  second_difference Neumann (Z.to_nat (N + 1))
    (fun k => cos (IZR m * PI * (INR k / IZR N))) i
  = (2 * cos theta - 2) * cos (IZR m * PI * (INR i / IZR N)).
Proof.
  intros Hi. unfold second_difference. rewrite !mode_arg.
  assert (E1 : INR 1 * theta = theta) by (simpl; lra).
  assert (Em : forall k, (1 <= k)%nat ->
            cos (INR (k - 1) * theta)
            = cos (INR k * theta) * cos theta + sin (INR k * theta) * sin theta).
  { intros k Hk. rewrite minus_INR by lia. simpl (INR 1).
    replace ((INR k - 1) * theta) with (INR k * theta - theta) by lra.
    apply cos_minus. }
  assert (Ep : cos (INR (i + 1) * theta)
               = cos (INR i * theta) * cos theta
                 - sin (INR i * theta) * sin theta).
  { rewrite plus_INR. simpl (INR 1).
    replace ((INR i + 1) * theta) with (INR i * theta + theta) by lra.
    apply cos_plus. }
  destruct (Nat.eqb_spec i 0) as [H0|H0];
    destruct (Nat.eqb_spec i (Z.to_nat (N + 1) - 1)) as [H1|H1]; try lia.
  - subst i. change (INR (0 + 1)) with (INR 1). rewrite E1.
    simpl (INR 0). rewrite Rmult_0_l, cos_0. lra.
  - replace (Z.to_nat (N + 1) - 2)%nat with (i - 1)%nat by lia.
    rewrite Em by lia.
    assert (Es : sin (INR i * theta) = 0).
    { replace i with (Z.to_nat N) by lia. rewrite INR_to_nat by lia.
      rewrite theta_N. apply sin_int_pi. }
    rewrite Es. lra.
  - rewrite Em by lia. rewrite Ep. lra.
Qed.

Lemma second_difference_sin (i : nat) :
  (1 <= Z.of_nat i < N)%Z ->
  second_difference Dirichlet (Z.to_nat (N + 1))
    (fun k => sin (IZR m * PI * (INR k / IZR N))) i
  = (2 * cos theta - 2) * sin (IZR m * PI * (INR i / IZR N)).
Proof.
  intros Hi. unfold second_difference. rewrite !mode_arg.
  destruct (Nat.eqb_spec i 0); [lia|].
  destruct (Nat.eqb_spec i (Z.to_nat (N + 1) - 1)); [lia|].
  rewrite minus_INR, plus_INR by lia. simpl (INR 1).
  replace ((INR i - 1) * theta) with (INR i * theta - theta) by lra.
  replace ((INR i + 1) * theta) with (INR i * theta + theta) by lra.
  rewrite sin_minus, sin_plus. lra.
Qed.

End Eigen.

Lemma second_difference_ext (b : boundary) (n : nat) (v w : nat -> R)
    (i : nat) :
  (2 <= n)%nat -> (i < n)%nat -> (forall k, (k < n)%nat -> v k = w k) ->
  second_difference b n v i = second_difference b n w i.
Proof.
  intros Hn Hi H. unfold second_difference.
  destruct b; destruct (Nat.eqb_spec i 0); destruct (Nat.eqb_spec i (n - 1));
    rewrite ?(H (i - 1)%nat), ?(H (i + 1)%nat), ?(H i), ?(H 1%nat),
      ?(H (n - 2)%nat) by lia; reflexivity.
Qed.

Lemma second_difference_scale (b : boundary) (n : nat) (a : R)
    (v : nat -> R) (i : nat) :
  second_difference b n (fun k => a * v k) i = a * second_difference b n v i.
Proof.
  unfold second_difference.
  destruct b; destruct (i =? 0)%nat; destruct (i =? n - 1)%nat; lra.
Qed.

Section Mode.
Variables (N : Z) (c : R) (mx my : Z).
Hypothesis HN : (1 <= N)%Z.

Let n := Z.to_nat (N + 1).

Lemma wave_on_edge (t : R) (i j : nat) :
  (i < n)%nat -> (j < n)%nat -> on_edge n i j = true ->
  wave_at Dirichlet N c mx my t i j = 0.
Proof.
  intros Hi Hj He.
  pose proof (exact_Dirichlet_edges N c mx my t i j HN Hi Hj He) as H.
  rewrite (exact_field_at _ _ _ _ _ _ _ _ (INR i / IZR N) (INR j / IZR N)) in H
    by (apply grid_value; unfold n in *; lia).
  injection H as H. exact H.
Qed.

Lemma five_point_mode (b : boundary) (U : field) (a : R) (i j : nat) :
  (forall i' j', (i' < n)%nat -> (j' < n)%nat ->
     value U i' j' = a * wave_at b N c mx my 0 i' j') ->
  (i < n)%nat -> (j < n)%nat ->
  (b = Dirichlet -> on_edge n i j = false) ->
  five_point b n U i j
  = (2 * cos (IZR mx * PI / IZR N) + 2 * cos (IZR my * PI / IZR N) - 4)
    * (a * wave_at b N c mx my 0 i j).
Proof.
  intros HU Hi Hj He. unfold five_point.
  assert (Hn : (2 <= n)%nat) by (unfold n; lia).
  unfold wave_at, standing_wave in *.
  destruct b.
  - specialize (He eq_refl). unfold on_edge in He.
    apply orb_false_elim in He as [He Hj1].
    apply orb_false_elim in He as [He Hj0].
    apply orb_false_elim in He as [Hi0 Hi1].
    apply Nat.eqb_neq in Hi0, Hi1, Hj0, Hj1.
    rewrite (second_difference_ext _ _ _
               (fun i' => (a * sin (IZR my * PI * (INR j / IZR N))
                           * cos (omega c mx my * 0))
                          * sin (IZR mx * PI * (INR i' / IZR N))))
      by (try assumption; intros k Hk; rewrite HU by assumption; lra).
    rewrite (second_difference_ext _ _ (fun j' => value U i j')
               (fun j' => (a * sin (IZR mx * PI * (INR i / IZR N))
                           * cos (omega c mx my * 0))
                          * sin (IZR my * PI * (INR j' / IZR N))))
      by (try assumption; intros k Hk; rewrite HU by assumption; lra).
    rewrite !second_difference_scale.
    unfold n.
    rewrite !second_difference_sin by (fold n; lia).
    lra.
  - rewrite (second_difference_ext _ _ _
               (fun i' => (a * cos (IZR my * PI * (INR j / IZR N))
                           * cos (omega c mx my * 0))
                          * cos (IZR mx * PI * (INR i' / IZR N))))
      by (try assumption; intros k Hk; rewrite HU by assumption; lra).
    rewrite (second_difference_ext _ _ (fun j' => value U i j')
               (fun j' => (a * cos (IZR mx * PI * (INR i / IZR N))
                           * cos (omega c mx my * 0))
                          * cos (IZR my * PI * (INR j' / IZR N))))
      by (try assumption; intros k Hk; rewrite HU by assumption; lra).
    rewrite !second_difference_scale.
    unfold n.
    rewrite !second_difference_cos by (fold n; lia).
    lra.
Qed.

Lemma leapfrog_mode (b : boundary) (D : matrix) (C : R) (Up Uc : field)
    (ap ac : R) :
  D2 b N = Ok D -> square_shape n Up -> square_shape n Uc ->
  (forall i j, (i < n)%nat -> (j < n)%nat ->
     value Up i j = ap * wave_at b N c mx my 0 i j) ->
  (forall i j, (i < n)%nat -> (j < n)%nat ->
     value Uc i j = ac * wave_at b N c mx my 0 i j) ->
  exists Un,
    leapfrog b D C (Up, Uc) = Ok (Uc, Un)
    /\ square_shape n Un
    /\ forall i j, (i < n)%nat -> (j < n)%nat ->
         value Un i j
         = (step_gain N C mx my * ac - ap) * wave_at b N c mx my 0 i j.
Proof.
  intros HD HUp HUc Hp Hc.
  destruct (leapfrog_at b N D C Up Uc HN HD HUp HUc) as (Un & HL & HUn & Hat).
  exists Un. split; [exact HL|]. split; [exact HUn|].
  intros i j Hi Hj. rewrite Hat by (unfold n in *; lia). fold n.
  unfold step_gain.
  destruct b.
  - destruct (on_edge n i j) eqn:He.
    + rewrite wave_on_edge by assumption. lra.
    + rewrite (five_point_mode Dirichlet Uc ac), Hp, Hc
        by (assumption || congruence). lra.
  - rewrite (five_point_mode Neumann Uc ac), Hp, Hc
      by (assumption || congruence). lra.
Qed.

End Mode.

Lemma exact_field_value (b : boundary) (N : Z) (c : R) (mx my : Z) (t : R)
    (i j : nat) :
  (1 <= N)%Z -> (Z.of_nat i <= N)%Z -> (Z.of_nat j <= N)%Z ->
  value (exact_field b N c mx my t) i j = wave_at b N c mx my t i j.
Proof.
  intros HN Hi Hj. unfold value.
  rewrite (exact_field_at _ _ _ _ _ _ _ _ (INR i / IZR N) (INR j / IZR N))
    by (apply grid_value; assumption).
  reflexivity.
Qed.

Lemma wave_at_time (b : boundary) (N : Z) (c : R) (mx my : Z) (t : R)
    (i j : nat) :
  wave_at b N c mx my t i j
  = cos (omega c mx my * t) * wave_at b N c mx my 0 i j.
Proof.
  unfold wave_at, standing_wave.
  destruct b; rewrite Rmult_0_r, cos_0; lra.
Qed.

Lemma trajectory_mode (b : boundary) (N : Z) (cfl c : R) (mx my : Z)
    (D : matrix) :
  (1 <= N)%Z -> D2 b N = Ok D ->
  let T := trajectory b D cfl
             (exact_field b N c mx my (- step_size cfl c N),
              exact_field b N c mx my 0) in
  let a := amplitudes (step_gain N cfl mx my)
             (cos (omega c mx my * step_size cfl c N), 1) in
  forall k (i j : nat), (Z.of_nat i <= N)%Z -> (Z.of_nat j <= N)%Z ->
    value (fst (T k)) i j = fst (a k) * wave_at b N c mx my 0 i j
    /\ value (snd (T k)) i j = snd (a k) * wave_at b N c mx my 0 i j.
Proof.
  intros HN HD T a.
  destruct (D2_ok b N HN) as (D' & HD' & Hr & Hc & _).
  rewrite HD in HD'. injection HD' as <-.
  pose proof (trajectory_ok b N D cfl
                (exact_field b N c mx my (- step_size cfl c N),
                 exact_field b N c mx my 0) Hr Hc
                (exact_field_square _ _ _ _ _ _)
                (exact_field_square _ _ _ _ _ _)) as HT.
  fold T in HT.
  induction k as [|k IH]; intros i j Hi Hj.
  - unfold T, a. cbn [trajectory amplitudes fst snd].
    rewrite !exact_field_value by assumption.
    split; [|lra].
    rewrite (wave_at_time _ _ _ _ _ (- _)).
    rewrite Ropp_mult_distr_r_reverse, cos_neg. reflexivity.
  - destruct (HT k) as [[Hs1 Hs2] Hstep].
    destruct (leapfrog_mode N c mx my HN b D cfl (fst (T k)) (snd (T k))
                (fst (a k)) (snd (a k)) HD Hs1 Hs2) as (Un & HL & _ & Hat).
    + intros i' j' Hi' Hj'. apply IH; lia.
    + intros i' j' Hi' Hj'. apply IH; lia.
    + rewrite <- surjective_pairing, Hstep in HL. injection HL as E.
      rewrite E. cbn [fst snd].
      change (a (S k)) with (snd (a k), step_gain N cfl mx my * snd (a k) - fst (a k)).
      cbn [fst snd]. split; [apply IH; assumption|]. apply Hat; lia.
Qed.

(** X11: the numerical solution never leaves the mode it starts in.
    After a call with Nt steps, [un] is the exact solution at time 0
    multiplied by an amplitude a(Nt), and [unm1] the same field multiplied
    by a(Nt - 1), where a(-1) = cos(w dt), a(0) = 1 and
    a(k+1) = g a(k) - a(k-1) with
    g = 2 + cfl^2 (2 cos(mx pi / N) + 2 cos(my pi / N) - 4). *)
Theorem X11_solution_stays_in_its_mode (b : boundary) (N Nt : Z)
    (cfl c : R) (mx my sd : Z) (s : Solver) :
  (1 <= N)%Z -> c <> 0 -> symbolic b mx my ->
  exists Up Uc,
    self_unm1 (snd (call b N Nt cfl c mx my sd s)) = Some (Array Up)
    /\ self_un (snd (call b N Nt cfl c mx my sd s)) = Some (Array Uc)
    /\ let a := amplitudes (step_gain N cfl mx my)
                  (cos (omega c mx my * step_size cfl c N), 1)
                  (Z.to_nat Nt) in
       forall i j : nat, (Z.of_nat i <= N)%Z -> (Z.of_nat j <= N)%Z ->
         at_point Up i j = Some (fst a * wave_at b N c mx my 0 i j)
         /\ at_point Uc i j = Some (snd a * wave_at b N c mx my 0 i j).
Proof.
  intros HN Hc Hsym.
  destruct (call_run b N cfl c mx my HN Hc Hsym Nt sd s)
    as (D & HD & Hsh & _ & Hcall).
  rewrite Hcall. cbn [snd run_state self_unm1 self_un].
  do 2 eexists. split; [reflexivity|]. split; [reflexivity|].
  cbv zeta. intros i j Hi Hj.
  destruct (Hsh (Z.to_nat Nt)) as [H1 H2].
  rewrite !(at_point_square (Z.to_nat (N + 1))) by (assumption || lia).
  destruct (trajectory_mode b N cfl c mx my D HN HD (Z.to_nat Nt) i j Hi Hj)
    as [E1 E2].
  rewrite E1, E2. split; reflexivity.
Qed.

(** Five steps of the Neumann mode (1, 2) on a 5 x 5 grid *)
Lemma X11_solution_stays_in_its_mode_witness :
  exists Up Uc,
    self_unm1 (snd (call Neumann 4 5 (1/2) 1 1 2 (-1) new)) = Some (Array Up)
    /\ self_un (snd (call Neumann 4 5 (1/2) 1 1 2 (-1) new))
       = Some (Array Uc)
    /\ let a := amplitudes (step_gain 4 (1/2) 1 2)
                  (cos (omega 1 1 2 * step_size (1/2) 1 4), 1)
                  (Z.to_nat 5) in
       forall i j : nat, (Z.of_nat i <= 4)%Z -> (Z.of_nat j <= 4)%Z ->
         at_point Up i j = Some (fst a * wave_at Neumann 4 1 1 2 0 i j)
         /\ at_point Uc i j = Some (snd a * wave_at Neumann 4 1 1 2 0 i j).
Proof.
  apply (X11_solution_stays_in_its_mode Neumann 4 5 (1/2) 1 1 2 (-1) new);
    [lia | lra | simpl; lia].
Defined.

Lemma amplitudes_cos (theta : R) (k : nat) :
  amplitudes (2 * cos theta) (cos theta, 1) k
  = (cos ((INR k - 1) * theta), cos (INR k * theta)).
Proof.
  induction k as [|k IH].
  - simpl. f_equal.
    + replace ((0 - 1) * theta) with (- theta) by lra. rewrite cos_neg.
      reflexivity.
    + rewrite Rmult_0_l, cos_0. reflexivity.
  - cbn [amplitudes]. rewrite IH. cbn [fst snd]. rewrite S_INR. f_equal.
    + f_equal. lra.
    + replace ((INR k - 1) * theta) with (INR k * theta - theta) by lra.
      replace ((INR k + 1) * theta) with (INR k * theta + theta) by lra.
      rewrite cos_minus, cos_plus. lra.
Qed.

Lemma diagonal_courant (N : Z) (c : R) (m : Z) :
  (1 <= N)%Z -> c <> 0 ->
  omega c m m * step_size (1 / sqrt 2) c N = Rabs (IZR m) * PI / IZR N.
Proof.
  intros HN Hc. unfold omega, step_size.
  assert (HNr : IZR N <> 0) by (apply not_0_IZR; lia).
  assert (H2 : 0 < sqrt 2) by (apply sqrt_lt_R0; lra).
  rewrite Rmin_left by lra.
  replace (IZR (m ^ 2 + m ^ 2)) with (2 * (IZR m)²)
    by (rewrite plus_IZR, Z.pow_2_r, mult_IZR; unfold Rsqr; lra).
  rewrite sqrt_mult by (try lra; apply Rle_0_sqr).
  rewrite sqrt_Rsqr_abs. field. repeat split; lra.
Qed.

Lemma diagonal_gain (N : Z) (c : R) (m : Z) :
  (1 <= N)%Z -> c <> 0 ->
  step_gain N (1 / sqrt 2) m m
  = 2 * cos (omega c m m * step_size (1 / sqrt 2) c N).
Proof.
  intros HN Hc. rewrite diagonal_courant by assumption.
  unfold step_gain.
  assert (H2 : 0 < sqrt 2) by (apply sqrt_lt_R0; lra).
  assert (E : (1 / sqrt 2) ^ 2 = 1 / 2).
  { replace ((1 / sqrt 2) ^ 2) with (1 / (sqrt 2 * sqrt 2)) by (field; lra).
    rewrite sqrt_sqrt by lra. reflexivity. }
  rewrite E.
  assert (Ec : cos (Rabs (IZR m) * PI / IZR N) = cos (IZR m * PI / IZR N)).
  { unfold Rabs. destruct (Rcase_abs (IZR m)); [|reflexivity].
    replace (- IZR m * PI / IZR N) with (- (IZR m * PI / IZR N))
      by (unfold Rdiv; lra).
    apply cos_neg. }
  rewrite Ec. lra.
Qed.

Lemma fmap_constant {A} (f : A -> R) (v : R) (l : list A) :
  (forall x, x ∈ l -> f x = v) -> f <$> l = replicate (length l) v.
Proof.
  induction l as [|x l IH]; intros H; [reflexivity|].
  rewrite fmap_cons. cbn [length replicate]. f_equal.
  - apply H. left.
  - apply IH. intros y Hy. apply H. right. exact Hy.
Qed.

(** X12: with Courant number 1/sqrt(2) and equal mode numbers the scheme
    reproduces the exact solution: in exact arithmetic every entry of
    the error sequence is zero (in floating point, zero up to
    round-off). *)
Theorem X12_exact_at_diagonal_courant (b : boundary) (N Nt : Z) (c : R)
    (m : Z) (s : Solver) :
  (1 <= N)%Z -> c <> 0 -> m <> 0%Z ->
  fst (call b N Nt (1 / sqrt 2) c m m (-1) s)
  = Ok (Pair (1 / IZR N) (Some (replicate (Z.to_nat Nt) 0))).
Proof.
  intros HN Hc Hm.
  assert (Hsym : symbolic b m m) by (destruct b; simpl; auto).
  destruct (call_run b N (1 / sqrt 2) c m m HN Hc Hsym Nt (-1) s)
    as (D & HD & Hsh & _ & Hcall).
  rewrite Hcall. cbn [fst]. unfold call_output.
  change (0 <? -1)%Z with false. change (-1 =? -1)%Z with true.
  cbv iota. do 3 f_equal.
  transitivity (replicate (length (seq 1 (Z.to_nat Nt))) 0);
    [|rewrite length_seq; reflexivity].
  apply fmap_constant. intros k _. unfold error_at.
  replace (snd (trajectory b D (1 / sqrt 2)
                  (exact_field b N c m m (- step_size (1 / sqrt 2) c N),
                   exact_field b N c m m 0) k))
    with (exact_field b N c m m
            (IZR (Z.of_nat k) * step_size (1 / sqrt 2) c N));
    [apply rms_diff_refl|].
  apply (field_ext (Z.to_nat (N + 1)));
    [apply exact_field_square | apply Hsh |].
  intros i j Hi Hj.
  rewrite !(at_point_square (Z.to_nat (N + 1)))
    by (assumption || apply exact_field_square || apply Hsh).
  f_equal. rewrite exact_field_value by lia.
  destruct (trajectory_mode b N (1 / sqrt 2) c m m D HN HD k i j
              ltac:(lia) ltac:(lia)) as [_ E].
  rewrite E, wave_at_time.
  rewrite (diagonal_gain N c m HN Hc), amplitudes_cos. cbn [snd].
  rewrite <- INR_IZR_INZ. f_equal. f_equal. lra.
Qed.

(** Ten steps of the mode (2, 2) on a 16 x 16 mesh *)
Lemma X12_exact_at_diagonal_courant_witness :
  fst (call Neumann 16 10 (1 / sqrt 2) 1 2 2 (-1) new)
  = Ok (Pair (1 / IZR 16) (Some (replicate (Z.to_nat 10) 0))).
Proof.
  apply (X12_exact_at_diagonal_courant Neumann 16 10 1 2 new);
    [lia | lra | lia].
Defined.

(** ** The movie scripts *)

Lemma py_round_near (x : R) : Rabs (IZR (py_round x) - x) <= 1 / 2.
Proof.
  unfold py_round. pose proof (Zfloor_bound x) as [H1 H2].
  destruct (Rlt_dec (x - IZR (Zfloor x)) (1 / 2)) as [Ha|Ha].
  - apply Rabs_le. lra.
  - destruct (Rlt_dec (1 / 2) (x - IZR (Zfloor x))) as [Hb|Hb].
    + rewrite plus_IZR. apply Rabs_le. lra.
    + destruct (Z.even (Zfloor x)); [|rewrite plus_IZR]; apply Rabs_le; lra.
Qed.

Lemma py_round_bounds (x : R) :
  x - 1 / 2 <= IZR (py_round x) <= x + 1 / 2.
Proof.
  pose proof (py_round_near x) as H. unfold Rabs in H.
  destruct (Rcase_abs (IZR (py_round x) - x)); lra.
Qed.

Lemma py_round_IZR (z : Z) : py_round (IZR z) = z.
Proof.
  unfold py_round. rewrite (Zfloor_eq z (IZR z)) by lra.
  destruct (Rlt_dec (IZR z - IZR z) (1 / 2)) as [_|H]; [reflexivity|lra].
Qed.

Lemma py_round_le (x : R) (z : Z) : x <= IZR z -> (py_round x <= z)%Z.
Proof.
  intros H. pose proof (py_round_bounds x) as Hn.
  assert (Hlt : IZR (py_round x) < IZR z + 1) by lra.
  rewrite <- plus_IZR in Hlt. apply lt_IZR in Hlt. lia.
Qed.

Lemma sqrt_modes_zero (mx my : Z) :
  sqrt (IZR (mx * mx + my * my)) = 0 <-> mx = 0%Z /\ my = 0%Z.
Proof.
  assert (Hnn : (0 <= mx * mx + my * my)%Z) by nia.
  split.
  - intros H. apply sqrt_eq_0 in H; [|apply IZR_le; exact Hnn].
    apply eq_IZR in H. split; nia.
  - intros [-> ->]. simpl. apply sqrt_0.
Qed.

Lemma choose_params_raises (mx my : Z) (c p : R) (tf : Z) :
  (mx = 0%Z /\ my = 0%Z) \/ tf = 0%Z ->
  choose_params mx my c p tf = Raise ZeroDivisionError.
Proof.
  intros H. unfold choose_params. unfold pydiv at 1.
  destruct (Req_EM_T (sqrt (IZR (mx * mx + my * my))) 0) as [E|E];
    [reflexivity|].
  destruct H as [H | -> ]; [exfalso; apply E, sqrt_modes_zero, H|].
  cbn [rbind]. unfold pydiv.
  destruct (Req_EM_T (IZR 0) 0) as [_|E']; [reflexivity|].
  exfalso. apply E'. reflexivity.
Qed.

Lemma choose_params_returns (mx my : Z) (c p : R) (tf : Z) :
  ~ (mx = 0%Z /\ my = 0%Z) -> tf <> 0%Z ->
  exists Nt se,
    choose_params mx my c p tf
    = Ok (Z.max 32 (8 * Z.max mx my), Nt, 1 / 2, se)
    /\ (1 <= Nt)%Z /\ (1 <= se)%Z
    /\ ((1 <= tf)%Z ->
        (se <= Nt)%Z /\ (2 * Nt <= (2 * se + 1) * tf)%Z).
Proof.
  intros Hm Htf. unfold choose_params. unfold pydiv at 1.
  destruct (Req_EM_T (sqrt (IZR (mx * mx + my * my))) 0) as [E|_];
    [exfalso; apply Hm, sqrt_modes_zero, E|].
  cbn [rbind]. unfold pydiv.
  destruct (Req_EM_T (IZR tf) 0) as [E|_];
    [apply eq_IZR in E; contradiction|].
  cbn [rbind]. do 2 eexists. split; [reflexivity|].
  set (spp := Z.max 1 _).
  set (Nt := Z.max spp _).
  assert (HNt : (1 <= Nt)%Z) by (unfold Nt, spp; lia).
  split; [exact HNt|]. split; [lia|]. intros Htf1.
  assert (Htfr : 1 <= IZR tf) by (apply IZR_le; exact Htf1).
  assert (HNtr : 1 <= IZR Nt) by (apply IZR_le; exact HNt).
  pose proof (py_round_bounds (IZR Nt / IZR tf)) as [Hlo Hhi].
  split.
  - assert (py_round (IZR Nt / IZR tf) <= Nt)%Z; [|lia].
    apply py_round_le.
    apply (Rmult_le_reg_r (IZR tf)); [lra|].
    unfold Rdiv. rewrite Rmult_assoc, Rinv_l by lra. nra.
  - set (se := Z.max 1 (py_round (IZR Nt / IZR tf))).
    assert (Hse : IZR (py_round (IZR Nt / IZR tf)) <= IZR se)
      by (apply IZR_le; unfold se; lia).
    apply le_IZR. rewrite !mult_IZR, plus_IZR, mult_IZR.
    assert (Hq : IZR Nt / IZR tf * IZR tf = IZR Nt)
      by (field; lra).
    nra.
Qed.

(** X13: [choose_params] raises [ZeroDivisionError] exactly when both mode
    numbers are zero or [target_frames] is zero.  Otherwise it returns
    [N = max(32, 8 max(mx, my))], [cfl = 0.5], a step count [Nt >= 1] and
    an interval [store_every >= 1]; for [target_frames >= 1] the interval
    does not exceed [Nt] and [Nt <= (store_every + 1/2) target_frames]. *)
Theorem X13_choose_params (mx my : Z) (c p : R) (tf : Z) :
  ((mx = 0%Z /\ my = 0%Z) \/ tf = 0%Z ->
   choose_params mx my c p tf = Raise ZeroDivisionError)
  /\ (~ (mx = 0%Z /\ my = 0%Z) -> tf <> 0%Z ->
      exists Nt se,
        choose_params mx my c p tf
        = Ok (Z.max 32 (8 * Z.max mx my), Nt, 1 / 2, se)
        /\ (1 <= Nt)%Z /\ (1 <= se)%Z
        /\ ((1 <= tf)%Z ->
            (se <= Nt)%Z /\ (2 * Nt <= (2 * se + 1) * tf)%Z)).
Proof.
  split; [apply choose_params_raises | apply choose_params_returns].
Qed.

Lemma elem_of_keys (data : gmap Z field) (key : Z) :
  key ∈ (map_to_list data).*1 <-> key ∈ dom data.
Proof.
  rewrite elem_of_dom, list_elem_of_fmap. split.
  - intros ([k' U] & -> & H). apply elem_of_map_to_list in H.
    simpl. eauto.
  - intros [U H]. exists (key, U). split; [reflexivity|].
    apply elem_of_map_to_list. exact H.
Qed.

Lemma multiples_sorted (k : Z) (a len : nat) :
  (0 < k)%Z ->
  Sorted Z.le ((fun j => Z.of_nat j * k)%Z <$> seq a len).
Proof.
  intros Hk. revert a. induction len as [|len IH]; intros a; [constructor|].
  cbn [seq]. rewrite fmap_cons. constructor; [apply IH|].
  destruct len; cbn [seq]; [constructor|].
  rewrite fmap_cons. constructor. nia.
Qed.

Lemma multiples_NoDup (k : Z) (a len : nat) :
  (0 < k)%Z -> NoDup ((fun j => Z.of_nat j * k)%Z <$> seq a len).
Proof.
  intros Hk. apply NoDup_fmap_2_strong; [|apply NoDup_seq].
  intros x y _ _ E. nia.
Qed.

Lemma snapshot_keys (k : Z) (T : nat -> field * field) (U0 : field)
    (n : nat) :
  (0 < k)%Z ->
  sorted_keys (foldl (snapshot_pass k T) {[0%Z := U0]} (seq 1 n))
  = (fun j => Z.of_nat j * k)%Z <$> seq 0 (S (Z.to_nat (Z.of_nat n / k))).
Proof.
  intros Hk. unfold sorted_keys.
  apply (Sorted_unique Z.le).
  - apply Sorted_merge_sort. apply _.
  - apply multiples_sorted. exact Hk.
  - rewrite merge_sort_Permutation.
    apply NoDup_Permutation.
    + apply NoDup_fst_map_to_list.
    + apply multiples_NoDup. exact Hk.
    + intros x. rewrite elem_of_keys, snapshots_dom, dom_singleton_L.
      rewrite list_elem_of_fmap.
      assert (Hq : (0 <= Z.of_nat n / k)%Z) by (apply Z.div_pos; lia).
      split.
      * intros [H|(m & Hm & -> & Hmod)].
        -- apply elem_of_singleton in H. subst x.
           exists 0%nat. split; [reflexivity|]. apply elem_of_seq. lia.
        -- apply elem_of_seq in Hm.
           exists (Z.to_nat (Z.of_nat m / k)).
           assert (0 <= Z.of_nat m / k)%Z by (apply Z.div_pos; lia).
           assert (Z.of_nat m / k <= Z.of_nat n / k)%Z
             by (apply Z.div_le_mono; lia).
           split.
           ++ rewrite Z2Nat.id by lia.
              pose proof (Z.div_mod (Z.of_nat m) k ltac:(lia)). lia.
           ++ apply elem_of_seq. lia.
      * intros (j & -> & Hj). apply elem_of_seq in Hj.
        destruct j as [|j]; [left; apply elem_of_singleton; reflexivity|].
        right.
        assert (Hle : (Z.of_nat (S j) * k <= Z.of_nat n)%Z).
        { assert (Z.of_nat (S j) <= Z.of_nat n / k)%Z by lia.
          pose proof (Z.mul_div_le (Z.of_nat n) k Hk). nia. }
        exists (Z.to_nat (Z.of_nat (S j) * k)).
        rewrite Z2Nat.id by nia. split; [|split].
        -- apply elem_of_seq. nia.
        -- reflexivity.
        -- apply Z.mod_mul. lia.
Qed.

Lemma frames_of_ok (data : gmap Z field) (steps : list Z) :
  (forall key, key ∈ steps -> is_Some (data !! key)) ->
  exists fs,
    frames_of data steps = inr fs
    /\ length fs = length steps
    /\ forall j, fs !! j = steps !! j ≫= fun key => data !! key.
Proof.
  induction steps as [|key steps IH]; intros H.
  - exists []. repeat split.
  - destruct (H key ltac:(left)) as [U HU].
    destruct IH as (fs & Hfs & Hlen & Hj).
    { intros key' Hk'. apply H. right. exact Hk'. }
    exists (U :: fs). cbn [frames_of]. rewrite HU, Hfs.
    split; [reflexivity|]. split; [simpl; lia|].
    intros [|j]; simpl; [symmetry; exact HU|apply Hj].
Qed.

Lemma foldl_Rmax_ge (xs : list R) (a : R) :
  a <= foldl Rmax a xs /\ forall x, x ∈ xs -> x <= foldl Rmax a xs.
Proof.
  revert a. induction xs as [|y xs IH]; intros a; simpl.
  - split; [lra|]. intros x Hx. apply elem_of_nil in Hx. contradiction.
  - destruct (IH (Rmax a y)) as [H1 H2]. split.
    + pose proof (Rmax_l a y). lra.
    + intros x Hx. apply elem_of_cons in Hx as [->|Hx]; [|apply H2, Hx].
      pose proof (Rmax_r a y). lra.
Qed.

Lemma elem_of_flatten (U : field) (r : list R) (x : R) :
  r ∈ U -> x ∈ r -> x ∈ flatten U.
Proof.
  unfold flatten. induction U as [|r' U IH]; intros Hr Hx.
  - apply elem_of_nil in Hr. contradiction.
  - cbn [concat]. apply elem_of_app.
    apply elem_of_cons in Hr as [->|Hr]; [left; exact Hx|right; auto].
Qed.

Lemma abs_max_square (n : nat) (U : field) :
  (1 <= n)%nat -> square_shape n U ->
  exists a, abs_max U = Ok a
    /\ forall i j x, at_point U i j = Some x -> Rabs x <= a.
Proof.
  intros Hn [HU1 HU2]. unfold abs_max.
  destruct (flatten U) as [|x xs] eqn:E.
  - apply (f_equal length) in E. rewrite (flatten_length n U HU2) in E.
    simpl in E. nia.
  - eexists. split; [reflexivity|]. intros i j y Hy.
    assert (Hin : y ∈ flatten U).
    { unfold at_point in Hy. destruct (U !! i) as [r|] eqn:Hr; [|discriminate].
      simpl in Hy. apply (elem_of_flatten U r);
        eapply list_elem_of_lookup_2; eassumption. }
    rewrite E in Hin. destruct (foldl_Rmax_ge (Rabs <$> xs) (Rabs x)) as [H1 H2].
    apply elem_of_cons in Hin as [->|Hin]; [exact H1|].
    apply H2. apply list_elem_of_fmap. exists y. split; [reflexivity|exact Hin].
Qed.

Lemma index_first (n : nat) : (1 <= n)%nat -> index n 0 = Ok 0%nat.
Proof.
  intros Hn. unfold index. change (0 <? 0)%Z with false. cbv iota.
  destruct (Z.leb_spec 0 0); [|lia].
  destruct (Z.ltb_spec 0 (Z.of_nat n)); [reflexivity|lia].
Qed.

Lemma index_last (n : nat) : (1 <= n)%nat -> index n (-1) = Ok (n - 1)%nat.
Proof.
  intros Hn. unfold index. change (-1 <? 0)%Z with true. cbv iota.
  destruct (Z.leb_spec 0 (-1 + Z.of_nat n)); [|lia].
  destruct (Z.ltb_spec (-1 + Z.of_nat n) (Z.of_nat n)); [|lia].
  simpl. f_equal. lia.
Qed.

Lemma movie_guard (N Nt : Z) (cfl c : R) (mx my k : Z) :
  (1 <= N)%Z -> c <> 0 -> symbolic Neumann mx my -> (k <= 0)%Z ->
  movie_main N Nt cfl c mx my k = inl RuntimeError.
Proof.
  intros HN Hc Hsym Hk.
  destruct (call_valid Neumann N cfl c mx my HN Hc Hsym)
    as (D & _ & _ & _ & Hcall).
  destruct (Hcall Nt k new) as [s' Hs'].
  unfold movie_main. rewrite Hs'. cbn [fst].
  unfold call_output. destruct (Z.ltb_spec 0 k); [lia|]. reflexivity.
Qed.

Lemma movie_frames_run (N Nt : Z) (cfl c : R) (mx my k : Z) :
  (1 <= N)%Z -> c <> 0 -> symbolic Neumann mx my -> (1 <= k)%Z ->
  exists data mv,
    fst (call Neumann N Nt cfl c mx my k new) = Ok (Data data)
    /\ movie_main N Nt cfl c mx my k = inr mv
    /\ mv_steps mv
       = (fun j => Z.of_nat j * k)%Z
           <$> seq 0 (Z.to_nat (1 + Z.max 0 Nt / k))
    /\ Z.of_nat (length (mv_frames mv)) = (1 + Z.max 0 Nt / k)%Z
    /\ (forall j : nat, mv_frames mv !! j = data !! (Z.of_nat j * k)%Z)
    /\ mv_vmin mv = - mv_vmax mv
    /\ forall U i j x,
         mv_frames mv !! 0%nat = Some U \/ last (mv_frames mv) = Some U ->
         at_point U i j = Some x ->
         mv_vmin mv <= x <= mv_vmax mv.
Proof.
  intros HN Hc Hsym Hk.
  destruct (call_valid Neumann N cfl c mx my HN Hc Hsym)
    as (D & HD & Hsh & _ & Hcall).
  destruct (Hcall Nt k new) as [s' Hs'].
  unfold movie_main. rewrite Hs'. cbn [fst].
  unfold call_output. destruct (Z.ltb_spec 0 k) as [_|]; [|lia].
  set (T := trajectory Neumann D cfl
              (exact_field Neumann N c mx my (- step_size cfl c N),
               exact_field Neumann N c mx my 0)) in *.
  set (U0 := exact_field Neumann N c mx my (- step_size cfl c N)) in *.
  set (data := foldl (snapshot_pass k T) {[0%Z := U0]}
                 (seq 1 (Z.to_nat Nt))).
  set (Q := Z.to_nat (Z.of_nat (Z.to_nat Nt) / k)).
  assert (HQ : (Z.of_nat (S Q) = 1 + Z.max 0 Nt / k)%Z).
  { unfold Q.
    assert (0 <= Z.of_nat (Z.to_nat Nt) / k)%Z by (apply Z.div_pos; lia).
    rewrite Nat2Z.inj_succ, Z2Nat.id by lia.
    replace (Z.of_nat (Z.to_nat Nt)) with (Z.max 0 Nt) by lia. lia. }
  assert (Hsize : Z.of_nat (size data) = (1 + Z.of_nat (Z.to_nat Nt) / k)%Z)
    by (apply snapshots_size; lia).
  assert (Hsz : (size data =? 0)%nat = false).
  { apply Nat.eqb_neq.
    assert (0 <= Z.of_nat (Z.to_nat Nt) / k)%Z by (apply Z.div_pos; lia).
    lia. }
  rewrite Hsz.
  assert (Hkeys : sorted_keys data
                  = (fun j => Z.of_nat j * k)%Z <$> seq 0 (S Q))
    by (apply snapshot_keys; lia).
  assert (Hdom : forall key, key ∈ sorted_keys data -> is_Some (data !! key)).
  { intros key Hkey. unfold sorted_keys in Hkey.
    rewrite merge_sort_Permutation in Hkey.
    apply elem_of_keys, elem_of_dom in Hkey. exact Hkey. }
  destruct (frames_of_ok data (sorted_keys data) Hdom)
    as (fs & Hfs & Hlen & Hlook).
  rewrite Hfs.
  assert (Hlen' : length fs = S Q)
    by (rewrite Hlen, Hkeys, length_fmap, length_seq; reflexivity).
  assert (Hfj : forall j : nat, fs !! j = data !! (Z.of_nat j * k)%Z).
  { intros j. rewrite Hlook, Hkeys, list_lookup_fmap.
    destruct (Nat.lt_ge_cases j (S Q)) as [Hj|Hj].
    - rewrite lookup_seq_lt by exact Hj. reflexivity.
    - rewrite lookup_seq_ge by exact Hj. simpl.
      destruct (data !! (Z.of_nat j * k)%Z) as [U|] eqn:E; [|reflexivity].
      exfalso.
      assert (Hin : (Z.of_nat j * k)%Z ∈ sorted_keys data).
      { unfold sorted_keys. rewrite merge_sort_Permutation.
        apply elem_of_keys, elem_of_dom. eauto. }
      rewrite Hkeys in Hin. apply list_elem_of_fmap in Hin as (j' & E' & Hj').
      apply elem_of_seq in Hj'. nia. }
  assert (Hsq : forall key U, data !! key = Some U ->
                  square_shape (Z.to_nat (N + 1)) U).
  { intros key U HU. apply snapshots_lookup in HU as [HU|(m & _ & _ & ->)].
    - apply lookup_singleton_Some in HU as [_ <-].
      apply exact_field_square.
    - apply Hsh. }
  destruct (lookup_lt_is_Some_2 fs 0 ltac:(lia)) as [Uf HUf].
  destruct (lookup_lt_is_Some_2 fs (length fs - 1) ltac:(lia)) as [Ul HUl].
  destruct (abs_max_square (Z.to_nat (N + 1)) Uf ltac:(lia))
    as (a0 & Ha0 & Hb0); [apply (Hsq 0%Z); rewrite <- HUf, Hfj; f_equal; lia|].
  destruct (abs_max_square (Z.to_nat (N + 1)) Ul ltac:(lia))
    as (al & Hal & Hbl);
    [apply (Hsq (Z.of_nat (length fs - 1) * k)%Z); rewrite <- HUl; symmetry;
     apply Hfj|].
  unfold frame_at.
  rewrite index_first, index_last by lia. cbn [rbind].
  rewrite HUf, HUl. cbn [rbind]. rewrite Ha0, Hal.
  exists data. eexists. split; [reflexivity|]. split; [reflexivity|].
  cbn [mv_steps mv_frames mv_vmin mv_vmax].
  split; [rewrite Hkeys; do 2 f_equal; lia|].
  split; [rewrite Hlen'; exact HQ|].
  split; [exact Hfj|]. split; [reflexivity|].
  intros U i j x HU Hx.
  assert (Hb : Rabs x <= Rmax a0 al).
  { destruct HU as [HU|HU].
    - rewrite HUf in HU. injection HU as <-.
      pose proof (Hb0 i j x Hx). pose proof (Rmax_l a0 al). lra.
    - rewrite last_lookup in HU.
      replace (pred (length fs)) with (length fs - 1)%nat in HU by lia.
      rewrite HUl in HU. injection HU as <-.
      pose proof (Hbl i j x Hx). pose proof (Rmax_r a0 al). lra. }
  unfold Rabs in Hb. destruct (Rcase_abs x); lra.
Qed.

(** X14: [main] of the movie scripts, for a valid run of the Neumann
    solver.  With [store_every <= 0] the solver returns no dictionary and
    the guard raises [RuntimeError].  With [store_every = k >= 1] the
    guard passes and no lookup fails: the steps are 0, k, 2k, ... in
    ascending order, there are 1 + floor(Nt / k) frames, frame j is the
    field stored under step j k, and the colour range is symmetric and
    contains every value of the first and of the last frame. *)
Theorem X14_movie_frames (N Nt : Z) (cfl c : R) (mx my k : Z) :
  (1 <= N)%Z -> c <> 0 -> symbolic Neumann mx my ->
  ((k <= 0)%Z -> movie_main N Nt cfl c mx my k = inl RuntimeError)
  /\ ((1 <= k)%Z ->
      exists data mv,
        fst (call Neumann N Nt cfl c mx my k new) = Ok (Data data)
        /\ movie_main N Nt cfl c mx my k = inr mv
        /\ mv_steps mv
           = (fun j => Z.of_nat j * k)%Z
               <$> seq 0 (Z.to_nat (1 + Z.max 0 Nt / k))
        /\ Z.of_nat (length (mv_frames mv)) = (1 + Z.max 0 Nt / k)%Z
        /\ (forall j : nat, mv_frames mv !! j = data !! (Z.of_nat j * k)%Z)
        /\ mv_vmin mv = - mv_vmax mv
        /\ forall U i j x,
             mv_frames mv !! 0%nat = Some U \/ last (mv_frames mv) = Some U ->
             at_point U i j = Some x ->
             mv_vmin mv <= x <= mv_vmax mv).
Proof.
  intros HN Hc Hsym. split.
  - apply movie_guard; assumption.
  - apply movie_frames_run; assumption.
Qed.

(** X15: [main] of [Neumann_movie.py] with the parameters
    [choose_params] picks (wave speed not zero).  It ends with
    [ZeroDivisionError] when both mode numbers or [target_frames] are
    zero.  For mode numbers not both zero and [target_frames >= 1] it
    reaches the drawing with at least two frames and at most
    [1 + 1.5 target_frames], the first one being step 0. *)
Theorem X15_Neumann_movie (mx my : Z) (c p : R) (tf : Z) :
  c <> 0 ->
  ((mx = 0%Z /\ my = 0%Z) \/ tf = 0%Z ->
   Neumann_movie_main mx my c p tf = inl (Uncaught ZeroDivisionError))
  /\ (symbolic Neumann mx my -> (1 <= tf)%Z ->
      exists mv,
        Neumann_movie_main mx my c p tf = inr mv
        /\ (2 <= length (mv_frames mv))%nat
        /\ (2 * (Z.of_nat (length (mv_frames mv)) - 1) <= 3 * tf)%Z
        /\ length (mv_steps mv) = length (mv_frames mv)
        /\ mv_steps mv !! 0%nat = Some 0%Z
        /\ mv_vmin mv = - mv_vmax mv).
Proof.
  intros Hc. unfold Neumann_movie_main.
  split.
  - intros H. rewrite (choose_params_raises mx my c p tf H). reflexivity.
  - intros Hsym Htf.
    destruct (choose_params_returns mx my c p tf)
      as (Nt & se & -> & HNt & Hse & Hb);
      [simpl in Hsym; lia | lia |].
    destruct (Hb Htf) as [Hle H2].
    destruct (movie_frames_run (Z.max 32 (8 * Z.max mx my)) Nt (1 / 2) c
                mx my se ltac:(lia) Hc Hsym Hse)
      as (data & mv & _ & Hmv & Hsteps & Hlen & _ & Hv & _).
    exists mv. split; [exact Hmv|].
    assert (Hq1 : (1 <= Z.max 0 Nt / se)%Z).
    { replace (Z.max 0 Nt) with Nt by lia.
      apply Z.div_le_lower_bound; lia. }
    assert (Hq2 : (2 * (Z.max 0 Nt / se) <= 3 * tf)%Z).
    { replace (Z.max 0 Nt) with Nt by lia.
      pose proof (Z.mul_div_le Nt se ltac:(lia)). nia. }
    split; [lia|]. split; [lia|].
    split; [rewrite Hsteps, length_fmap, length_seq; lia|].
    split; [|exact Hv].
    rewrite Hsteps, list_lookup_fmap, lookup_seq_lt by lia. reflexivity.
Qed.

Lemma py_round_eq (x : R) (z : Z) :
  IZR z - 1 / 2 < x < IZR z + 1 / 2 -> py_round x = z.
Proof.
  intros [H1 H2]. pose proof (py_round_bounds x) as [H3 H4].
  assert (Ha : IZR (py_round x) < IZR (z + 1)) by (rewrite plus_IZR; lra).
  assert (Hb : IZR (z - 1) < IZR (py_round x)) by (rewrite minus_IZR; lra).
  apply lt_IZR in Ha, Hb. lia.
Qed.

(** The parameters and the frames of the scripts as they are written *)
Example choose_params_of_the_script :
  choose_params 2 3 1 2 60 = Ok (32%Z, 72%Z, 1 / 2, 1%Z).
Proof.
  unfold choose_params.
  change (Z.max 32 (8 * Z.max 2 3)) with 32%Z.
  change (2 * 2 + 3 * 3)%Z with 13%Z. change (4 * 32)%Z with 128%Z.
  assert (Hs : 0 < sqrt 13) by (apply sqrt_lt_R0; lra).
  assert (Hs2 : sqrt 13 * sqrt 13 = 13) by (apply sqrt_sqrt; lra).
  rewrite pydiv_ok by lra. cbn [rbind].
  assert (E1 : py_round (128 / sqrt 13) = 36%Z).
  { apply py_round_eq. split.
    - apply (Rmult_lt_reg_r (sqrt 13)); [exact Hs|].
      unfold Rdiv at 2. rewrite Rmult_assoc, Rinv_l by lra. nra.
    - apply (Rmult_lt_reg_r (sqrt 13)); [exact Hs|].
      unfold Rdiv at 1. rewrite Rmult_assoc, Rinv_l by lra. nra. }
  rewrite E1. change (Z.max 1 36) with 36%Z.
  assert (E2 : py_round (2 * 36) = 72%Z) by (apply py_round_eq; lra).
  rewrite E2. change (Z.max 36 72) with 72%Z.
  rewrite pydiv_ok by lra. cbn [rbind].
  assert (E3 : py_round (72 / 60) = 1%Z) by (apply py_round_eq; lra).
  rewrite E3. reflexivity.
Qed.

Example frames_of_the_scripts :
  (exists mv, neumann_movie_main = inr mv
     /\ length (mv_frames mv) = 61%nat
     /\ mv_steps mv = (fun j => Z.of_nat j * 2)%Z <$> seq 0 61)
  /\ (exists mv, Neumann_movie_main 2 3 1 2 60 = inr mv
        /\ length (mv_frames mv) = 73%nat
        /\ mv_steps mv = Z.of_nat <$> seq 0 73).
Proof.
  split.
  - destruct (movie_frames_run 60 120 (1 / 2) 1 2 3 2)
      as (data & mv & _ & Hmv & Hsteps & Hlen & _);
      [lia | lra | simpl; lia | lia |].
    exists mv. split; [exact Hmv|]. split; [|exact Hsteps].
    change (1 + Z.max 0 120 / 2)%Z with 61%Z in Hlen. lia.
  - unfold Neumann_movie_main. rewrite choose_params_of_the_script.
    destruct (movie_frames_run 32 72 (1 / 2) 1 2 3 1)
      as (data & mv & _ & Hmv & Hsteps & Hlen & _);
      [lia | lra | simpl; lia | lia |].
    exists mv. split; [exact Hmv|].
    change (1 + Z.max 0 72 / 1)%Z with 73%Z in Hlen, Hsteps.
    split; [lia|]. rewrite Hsteps. apply list_fmap_ext.
    intros _ j _. lia.
Qed.

(** [neumann_movie.py]: 120 steps stored every second step *)
Lemma X14_movie_frames_witness :
  exists data mv,
    fst (call Neumann 60 120 (1 / 2) 1 2 3 2 new) = Ok (Data data)
    /\ neumann_movie_main = inr mv
    /\ mv_steps mv
       = (fun j => Z.of_nat j * 2)%Z
           <$> seq 0 (Z.to_nat (1 + Z.max 0 120 / 2))
    /\ Z.of_nat (length (mv_frames mv)) = (1 + Z.max 0 120 / 2)%Z
    /\ (forall j : nat, mv_frames mv !! j = data !! (Z.of_nat j * 2)%Z)
    /\ mv_vmin mv = - mv_vmax mv
    /\ forall U i j x,
         mv_frames mv !! 0%nat = Some U \/ last (mv_frames mv) = Some U ->
         at_point U i j = Some x ->
         mv_vmin mv <= x <= mv_vmax mv.
Proof.
  destruct (X14_movie_frames 60 120 (1 / 2) 1 2 3 2) as [_ H];
    [lia | lra | simpl; lia |].
  apply H. lia.
Defined.

(** [Neumann_movie.py] with its constants *)
Lemma X15_Neumann_movie_witness :
  exists mv,
    Neumann_movie_main 2 3 1 2 60 = inr mv
    /\ (2 <= length (mv_frames mv))%nat
    /\ (2 * (Z.of_nat (length (mv_frames mv)) - 1) <= 3 * 60)%Z
    /\ length (mv_steps mv) = length (mv_frames mv)
    /\ mv_steps mv !! 0%nat = Some 0%Z
    /\ mv_vmin mv = - mv_vmax mv.
Proof.
  destruct (X15_Neumann_movie 2 3 1 2 60) as [_ H]; [lra|].
  apply H; [simpl; lia | lia].
Defined.

(** ** Initialisation and boundary conditions, method by method *)

(** X16: [initialize] first creates the mesh and stores the mode
    numbers, and only then reads the wave speed and the Courant number.
    On an instance without [c], or with [c] but without [cfl], it raises
    [AttributeError]; with [c = 0] it raises [ZeroDivisionError]; in each
    case the mesh and the mode numbers stay set and the fields are
    untouched.  With both set and [c] not zero it returns [(un, unm1)],
    the exact solution at times 0 and -dt. *)
Theorem X16_initialize_needs_the_run_parameters (b : boundary)
    (N mx my : Z) (s : Solver) :
  (1 <= N)%Z ->
  let s1 :=
    {| self_cfl := self_cfl s; self_c := self_c s;
       self_dx := Some (1 / IZR N); self_dy := Some (1 / IZR N);
       self_xij := Some (fst (meshgrid_ij (grid N) (grid N)));
       self_yij := Some (snd (meshgrid_ij (grid N) (grid N)));
       self_mx := Some mx; self_my := Some my;
       self_unm1 := self_unm1 s; self_un := self_un s;
       self_unp1 := self_unp1 s |} in
  (self_c s = None -> initialize b N mx my s = (Raise AttributeError, s1))
  /\ (self_c s <> None -> self_cfl s = None ->
      initialize b N mx my s = (Raise AttributeError, s1))
  /\ (self_c s = Some 0 -> self_cfl s <> None ->
      initialize b N mx my s = (Raise ZeroDivisionError, s1))
  /\ (forall cfl c,
        self_cfl s = Some cfl -> self_c s = Some c -> c <> 0 ->
        symbolic b mx my ->
        initialize b N mx my s
        = (Ok (Array (exact_field b N c mx my 0),
               Array (exact_field b N c mx my (- step_size cfl c N))),
           run_state cfl c N mx my
             (exact_field b N c mx my (- step_size cfl c N))
             (exact_field b N c mx my 0) (self_unp1 s))).
Proof.
  intros HN s1.
  assert (HNr : IZR N <> 0) by (apply not_0_IZR; lia).
  split; [|split; [|split]].
  - intros Hcs. unfold initialize, create_mesh, ue, w.
    destruct s; simpl in Hcs; subst. run.
    rewrite linspace_grid by exact HN. run.
    rewrite !pydiv_ok by exact HNr. run. reflexivity.
  - intros Hcs Hcfl. unfold initialize, create_mesh, ue, w, dt.
    destruct s as [cfl0 [c0|] ? ? ? ? ? ? ? ? ?]; simpl in Hcs, Hcfl;
      [|contradiction]; subst. run.
    rewrite linspace_grid by exact HN. run.
    rewrite !pydiv_ok by exact HNr. run. reflexivity.
  - intros Hcs Hcfl. unfold initialize, create_mesh, ue, w, dt.
    destruct s as [[cfl0|] c0 ? ? ? ? ? ? ? ? ?]; simpl in Hcs, Hcfl;
      [|contradiction]; subst. run.
    rewrite linspace_grid by exact HN. run.
    rewrite !pydiv_ok by exact HNr. run.
    unfold pydiv. destruct (Req_EM_T 0 0) as [_|E]; [|contradiction].
    reflexivity.
  - intros cfl c Hcfl Hcs Hc Hsym.
    apply initialize_run; assumption.
Qed.

(** A mesh of 3 x 3 points on a new instance *)
Lemma X16_initialize_needs_the_run_parameters_witness :
  initialize Dirichlet 2 2 3 new
  = (Raise AttributeError,
     {| self_cfl := None; self_c := None;
        self_dx := Some (1 / IZR 2); self_dy := Some (1 / IZR 2);
        self_xij := Some (fst (meshgrid_ij (grid 2) (grid 2)));
        self_yij := Some (snd (meshgrid_ij (grid 2) (grid 2)));
        self_mx := Some 2%Z; self_my := Some 3%Z;
        self_unm1 := None; self_un := None; self_unp1 := None |}).
Proof.
  destruct (X16_initialize_needs_the_run_parameters Dirichlet 2 2 3 new)
    as [H _]; [lia|].
  apply H. reflexivity.
Defined.

(** X17: [apply_bcs] of the Dirichlet class sets the four edges of
    [unp1] to zero and leaves every other value and every other attribute
    as it was; on an instance without [unp1] it raises [AttributeError].
    [apply_bcs] of the Neumann class changes nothing and never raises. *)
Theorem X17_apply_bcs (s : Solver) (V : field) (n : nat) :
  self_unp1 s = Some (Array V) -> square_shape n V -> (2 <= n)%nat ->
  (exists V',
     apply_bcs Dirichlet s
     = (Ok tt,
        {| self_cfl := self_cfl s; self_c := self_c s;
           self_dx := self_dx s; self_dy := self_dy s;
           self_xij := self_xij s; self_yij := self_yij s;
           self_mx := self_mx s; self_my := self_my s;
           self_unm1 := self_unm1 s; self_un := self_un s;
           self_unp1 := Some (Array V') |})
     /\ square_shape n V'
     /\ forall i j, (i < n)%nat -> (j < n)%nat ->
          at_point V' i j
          = Some (if on_edge n i j then 0 else value V i j))
  /\ apply_bcs Neumann s = (Ok tt, s)
  /\ apply_bcs Dirichlet new = (Raise AttributeError, new)
  /\ apply_bcs Neumann new = (Ok tt, new).
Proof.
  intros HV Hsq Hn. split; [|repeat split].
  exists (zero_edges V). split; [|split].
  - pose proof (assign_edges_zero_edges n V Hn Hsq) as HE.
    unfold assign_edges in HE.
    destruct (set_row V 0 0) as [V1|] eqn:E1; [|discriminate]. simpl in HE.
    destruct (set_row V1 (-1) 0) as [V2|] eqn:E2; [|discriminate].
    simpl in HE.
    destruct (set_col V2 0 0) as [V3|] eqn:E3; [|discriminate]. simpl in HE.
    destruct s; simpl in HV; subst.
    unfold apply_bcs. run. rewrite E1. run. rewrite E2. run. rewrite E3. run.
    rewrite HE. reflexivity.
  - apply zero_edges_square. exact Hsq.
  - intros i j Hi Hj. apply zero_edges_at; assumption.
Qed.

(** A 3 x 3 array: only the centre survives *)
Lemma X17_apply_bcs_witness :
  (exists V',
     apply_bcs Dirichlet
       (run_state (1/2) 1 2 2 3 [] []
          (Some (Array [[1; 2; 3]; [4; 5; 6]; [7; 8; 10]])))
     = (Ok tt, run_state (1/2) 1 2 2 3 [] [] (Some (Array V')))
     /\ square_shape 3 V'
     /\ forall i j, (i < 3)%nat -> (j < 3)%nat ->
          at_point V' i j
          = Some (if on_edge 3 i j then 0
                  else value [[1; 2; 3]; [4; 5; 6]; [7; 8; 10]] i j))
  /\ apply_bcs Neumann
       (run_state (1/2) 1 2 2 3 [] []
          (Some (Array [[1; 2; 3]; [4; 5; 6]; [7; 8; 10]])))
     = (Ok tt,
        run_state (1/2) 1 2 2 3 [] []
          (Some (Array [[1; 2; 3]; [4; 5; 6]; [7; 8; 10]])))
  /\ apply_bcs Dirichlet new = (Raise AttributeError, new)
  /\ apply_bcs Neumann new = (Ok tt, new).
Proof.
  apply (X17_apply_bcs
           (run_state (1/2) 1 2 2 3 [] []
              (Some (Array [[1; 2; 3]; [4; 5; 6]; [7; 8; 10]])))
           [[1; 2; 3]; [4; 5; 6]; [7; 8; 10]] 3);
    [reflexivity | | lia].
  split; [reflexivity|]. repeat constructor.
Defined.

(** ** The final time of the convergence study *)

(** X18: doubling N and Nt together keeps the final time fixed: level
    i of the study makes [Nt 2^i] steps of size [cfl / (8 2^i)], so every
    entry of [E] is the error of the final field of its level against the
    exact solution at the same time [Nt cfl / 8]. *)
Theorem X18_levels_share_the_final_time (b : boundary) (m : Z) (cfl : R)
    (Nt mx my : Z) (s : Solver) :
  (1 <= m)%Z -> (1 <= Nt)%Z -> symbolic b mx my ->
  exists (r E h : list R) (s' : Solver),
    convergence_rates b m cfl Nt mx my s = (Ok (r, E, h), s')
    /\ forall i : nat, (Z.of_nat i < m)%Z ->
         let N := (8 * 2 ^ Z.of_nat i)%Z in
         IZR (Nt * 2 ^ Z.of_nat i) * step_size cfl 1 N = IZR Nt * cfl / 8
         /\ exists U,
              self_un (snd (call b N (Nt * 2 ^ Z.of_nat i) cfl 1 mx my (-1)
                              new))
              = Some (Array U)
              /\ E !! i
                 = Some (rms_diff U
                           (exact_field b N 1 mx my (IZR Nt * cfl / 8))).
Proof.
  intros Hm HNt Hsym.
  destruct (convergence_rates_run b m cfl Nt mx my s Hm HNt Hsym)
    as [s' Hs'].
  do 3 eexists. exists s'. split; [exact Hs'|].
  intros i Hi N.
  assert (Hp : (0 < 2 ^ Z.of_nat i)%Z) by (apply Z.pow_pos_nonneg; lia).
  assert (HN : (1 <= N)%Z) by (unfold N; lia).
  assert (HNti : (1 <= Nt * 2 ^ Z.of_nat i)%Z) by nia.
  assert (Ht : IZR (Nt * 2 ^ Z.of_nat i) * step_size cfl 1 N
               = IZR Nt * cfl / 8).
  { unfold step_size, N. rewrite Rmin_left by lra.
    rewrite !mult_IZR.
    assert (IZR (2 ^ Z.of_nat i) <> 0) by (apply not_0_IZR; lia).
    field. assumption. }
  split; [exact Ht|].
  destruct (call_run b N cfl 1 mx my HN ltac:(lra) Hsym
              (Nt * 2 ^ Z.of_nat i) (-1) new) as (D & HD & _ & _ & Hcall).
  rewrite Hcall. cbn [snd run_state self_un].
  eexists. split; [reflexivity|].
  rewrite list_lookup_fmap, lookup_seq_lt by lia.
  change (0 + i)%nat with i. cbn [fmap option_fmap option_map].
  f_equal. unfold level_E, final_error. fold N. rewrite Hcall. cbn [fst].
  unfold call_output.
  change (0 <? -1)%Z with false. change (-1 =? -1)%Z with true. cbv iota.
  destruct (Z.to_nat (Nt * 2 ^ Z.of_nat i)) as [|k] eqn:Ek; [lia|].
  rewrite seq_S, fmap_app, fmap_cons, fmap_nil, last_snoc. cbn [default].
  unfold error_at. cbn [Nat.add].
  unfold Datatypes.id. rewrite <- Ht. do 4 f_equal. lia.
Qed.

(** The study of the tests: every level ends at time 1/8 *)
Lemma X18_levels_share_the_final_time_witness :
  exists (r E h : list R) (s' : Solver),
    convergence_rates Dirichlet 4 (1/10) 10 2 3 new = (Ok (r, E, h), s')
    /\ forall i : nat, (Z.of_nat i < 4)%Z ->
         let N := (8 * 2 ^ Z.of_nat i)%Z in
         IZR (10 * 2 ^ Z.of_nat i) * step_size (1/10) 1 N
         = IZR 10 * (1/10) / 8
         /\ exists U,
              self_un (snd (call Dirichlet N (10 * 2 ^ Z.of_nat i) (1/10) 1
                              2 3 (-1) new))
              = Some (Array U)
              /\ E !! i
                 = Some (rms_diff U
                           (exact_field Dirichlet N 1 2 3
                              (IZR 10 * (1/10) / 8))).
Proof.
  apply (X18_levels_share_the_final_time Dirichlet 4 (1/10) 10 2 3 new);
    [lia | lia | simpl; lia].
Defined.
